(** * check-in-service: outbox pipeline and resilience stack

    A shallow embedding of the Go sources of the check-in service
    (circuit breaker, rate limiter, retry loop, transactional outbox,
    broker consumer) together with the properties its specification
    states about them. *)

From Stdlib Require Import ZArith Lia List Bool Floats Uint63.
From Stdlib.Strings Require Import String Byte.
From stdpp Require Import base list strings gmap sorting.

Local Open Scope Z_scope.

(** ** Go base types

    [int] and [time.Duration] are 64-bit signed integers; arithmetic on
    them wraps around.  A [time.Time] is represented by its reading in
    nanoseconds since the Unix epoch. *)

Module Go.

Definition maxInt64 : Z := 2 ^ 63 - 1.
Definition minInt64 : Z := - 2 ^ 63.

(** Two's complement wrap-around of a 64-bit signed result. *)
Definition wrap64 (z : Z) : Z := (z + 2 ^ 63) mod 2 ^ 64 - 2 ^ 63.

Definition in_int64 (z : Z) : Prop := minInt64 <= z <= maxInt64.

Definition Time := Z.
Definition Duration := Z.

Definition Nanosecond : Duration := 1.
Definition Millisecond : Duration := 1000000.
Definition Second : Duration := 1000000000.

(** [time.Time{}]: January 1 of year 1, in nanoseconds before the epoch. *)
Definition zeroTime : Time := -62135596800 * Second.

(** [t.Sub(u)]: the difference, saturated to the range of a Duration. *)
Definition Time_Sub (t u : Time) : Duration :=
  Z.max minInt64 (Z.min maxInt64 (t - u)).

(** [time.Since(t)] at clock reading [now]. *)
Definition Since (now t : Time) : Duration := Time_Sub now t.

(** [time.Sleep(d)] returns at once for [d <= 0]; otherwise the clock has
    advanced by [d] when it returns. *)
Definition Sleep (d : Duration) (now : Time) : Time := now + Z.max 0 d.

(** *** float64

    Go's [float64] is IEEE 754 binary64, the kernel's primitive [float]. *)

Definition float64 := float.

(** [float64(n)] for a 64-bit signed [n]: the nearest binary64 value.
    [of_uint63] covers magnitudes below [2^63]; the magnitude [2^63] of
    the least integer is a power of two and is built exactly. *)
Definition float64_of_int (n : Z) : float64 :=
  let m := Z.abs n in
  let f :=
    if m <? 2 ^ 63 then PrimFloat.of_uint63 (Uint63.of_Z m)
    else PrimFloat.mul (PrimFloat.of_uint63 (Uint63.of_Z (2 ^ 62))) 2%float in
  if n <? 0 then PrimFloat.opp f else f.

(** [int64(f)]: the fraction is discarded; for a value that does not fit
    (also an infinity or a NaN) the Go specification leaves the result to
    the implementation, and amd64 yields the least integer. *)
Definition int64_of_float (f : float64) : Z :=
  match Prim2SF f with
  | S754_zero _ => 0
  | S754_finite sgn m e =>
      let mag := if 0 <=? e then Z.pos m * 2 ^ e else Z.pos m / 2 ^ (- e) in
      let v := if sgn then - mag else mag in
      if (minInt64 <=? v) && (v <=? maxInt64) then v else minInt64
  | _ => minInt64
  end.

(** An integer [0 < k < 2^53] is a binary64 number: with [digits k] binary
    digits, its mantissa is [k] shifted up to 53 digits and its exponent
    makes up for the shift. *)
Definition digits (k : Z) : Z := Z.log2 k + 1.
Definition mantissa (k : Z) : Z := k * 2 ^ (53 - digits k).
Definition exponent (k : Z) : Z := digits k - 53.

Definition normal (k : Z) : spec_float :=
  S754_finite false (Z.to_pos (mantissa k)) (exponent k).

(** [d.Seconds()]. *)
Definition Duration_Seconds (d : Duration) : float64 :=
  PrimFloat.add (float64_of_int (Z.quot d Second))
    (PrimFloat.div (float64_of_int (Z.rem d Second)) 1e9%float).

Definition Hour : Duration := 3600 * Second.

(** [d.Hours()]. *)
Definition Duration_Hours (d : Duration) : float64 :=
  PrimFloat.add (float64_of_int (Z.quot d Hour))
    (PrimFloat.div (float64_of_int (Z.rem d Hour)) 3600000000000%float).

Definition Bytes := list byte.

(** A pair [(value, error)] of which exactly one is set. *)
Inductive result (E A : Type) :=
| Ok (a : A)
| Err (e : E).
Arguments Ok {E A} a.
Arguments Err {E A} e.

End Go.

(** ** Circuit breaker (infrastructure/external/circuit_breaker.go) *)

Module CircuitBreaker.
Import Go.

(** The three values the code gives a [CircuitState]; the [default]
    branch of [CanExecute] is for a value that is none of them. *)
Inductive CircuitState := StateClosed | StateOpen | StateHalf.

Record CircuitBreaker := mkCB {
  state : CircuitState;
  failureCount : Z;
  successCount : Z;
  lastFailureTime : Time;
  failureThreshold : Z;
  successThreshold : Z;
  timeout : Duration
}.

Inductive CBError := ErrCircuitOpen.

Definition NewCircuitBreaker (failureThreshold successThreshold : Z)
    (timeout : Duration) : CircuitBreaker :=
  {| state := StateClosed;
     failureCount := 0;
     successCount := 0;
     lastFailureTime := zeroTime;
     failureThreshold := failureThreshold;
     successThreshold := successThreshold;
     timeout := timeout |}.

Definition set_state (s : CircuitState) (cb : CircuitBreaker) :=
  mkCB s (failureCount cb) (successCount cb) (lastFailureTime cb)
       (failureThreshold cb) (successThreshold cb) (timeout cb).
Definition set_failureCount (n : Z) (cb : CircuitBreaker) :=
  mkCB (state cb) n (successCount cb) (lastFailureTime cb)
       (failureThreshold cb) (successThreshold cb) (timeout cb).
Definition set_successCount (n : Z) (cb : CircuitBreaker) :=
  mkCB (state cb) (failureCount cb) n (lastFailureTime cb)
       (failureThreshold cb) (successThreshold cb) (timeout cb).
Definition set_lastFailureTime (t : Time) (cb : CircuitBreaker) :=
  mkCB (state cb) (failureCount cb) (successCount cb) t
       (failureThreshold cb) (successThreshold cb) (timeout cb).

Definition is_half (s : CircuitState) : bool :=
  match s with StateHalf => true | _ => false end.

(** [RecordSuccess]: clear the failure count; in HALF count the success
    and close once the success threshold is reached. *)
Definition RecordSuccess (cb : CircuitBreaker) : CircuitBreaker :=
  let cb := set_failureCount 0 cb in
  if is_half (state cb) then
    let cb := set_successCount (wrap64 (successCount cb + 1)) cb in
    if successThreshold cb <=? successCount cb then
      set_successCount 0 (set_state StateClosed cb)
    else cb
  else cb.

(** [RecordFailure], [now] being the reading of [time.Now()]. *)
Definition RecordFailure (now : Time) (cb : CircuitBreaker) : CircuitBreaker :=
  let cb := set_failureCount (wrap64 (failureCount cb + 1)) cb in
  let cb := set_lastFailureTime now cb in
  let cb := set_successCount 0 cb in
  if failureThreshold cb <=? failureCount cb then set_state StateOpen cb
  else cb.

(** [CanExecute], [now] being the clock reading used by [time.Since]. *)
Definition CanExecute (now : Time) (cb : CircuitBreaker)
    : (bool * option CBError) * CircuitBreaker :=
  match state cb with
  | StateClosed => ((true, None), cb)
  | StateOpen =>
      if timeout cb <? Since now (lastFailureTime cb) then
        ((true, None), set_failureCount 0 (set_state StateHalf cb))
      else ((false, Some ErrCircuitOpen), cb)
  | StateHalf => ((true, None), cb)
  end.

Definition GetState (cb : CircuitBreaker) : CircuitState := state cb.

(** Consecutive calls: one [RecordFailure] per clock reading of [times],
    and [n] calls of [RecordSuccess]. *)
Definition RecordFailures (times : list Time) (cb : CircuitBreaker)
    : CircuitBreaker :=
  fold_left (fun cb t => RecordFailure t cb) times cb.

Fixpoint RecordSuccesses (n : nat) (cb : CircuitBreaker) : CircuitBreaker :=
  match n with
  | O => cb
  | S n => RecordSuccesses n (RecordSuccess cb)
  end.

End CircuitBreaker.

(** ** Rate limiter (infrastructure/external/rate_limiter.go) *)

Module RateLimiter.
Import Go.

(** [mu] is the [sync.Mutex]: [true] while it is held. *)
Record RateLimiter := mkRL {
  tokens : float64;
  maxTokens : float64;
  refillRate : float64;
  lastRefillAt : Time;
  mu : bool
}.

(** [NewRateLimiter], [now] being the reading of [time.Now()]. *)
Definition NewRateLimiter (requestsPerMinute : Z) (now : Time) : RateLimiter :=
  let maxTokens := float64_of_int requestsPerMinute in
  let refillRate := PrimFloat.div maxTokens 60%float in
  {| tokens := maxTokens;
     maxTokens := maxTokens;
     refillRate := refillRate;
     lastRefillAt := now;
     mu := false |}.

Definition min (a b : float64) : float64 :=
  if PrimFloat.ltb a b then a else b.

(** The limiter and the clock its calls read and, by sleeping, advance. *)
Record World := mkWorld {
  limiter : RateLimiter;
  clock : Time
}.

Inductive RLError := ErrRateLimit (waitDuration maxWait : Duration).

(** How a call ends: it returns its two results, or it never returns
    because it waits for a mutex that nobody will release. *)
Inductive Outcome :=
| Returned (wait : Duration) (err : option RLError)
| BlockedOnLock
| OutOfFuel.

Definition set_mu (b : bool) (rl : RateLimiter) : RateLimiter :=
  mkRL (tokens rl) (maxTokens rl) (refillRate rl) (lastRefillAt rl) b.

(** The refill at clock reading [now]. *)
Definition refill (now : Time) (rl : RateLimiter) : RateLimiter :=
  let elapsed := Duration_Seconds (Time_Sub now (lastRefillAt rl)) in
  let tokensToAdd := PrimFloat.mul elapsed (refillRate rl) in
  mkRL (min (PrimFloat.add (tokens rl) tokensToAdd) (maxTokens rl))
       (maxTokens rl) (refillRate rl) now (mu rl).

(** The limiter of capacity [c] that was last refilled at [t0] and holds
    [k] tokens; [held] tells whether its mutex is taken. *)
Definition bucket (c k : Z) (t0 : Time) (held : bool) : RateLimiter :=
  mkRL (float64_of_int k) (float64_of_int c)
       (PrimFloat.div (float64_of_int c) 60%float) t0 held.

(** The wait computed for a limiter short of a token. *)
Definition wait_for_deficit (rl : RateLimiter) : Duration :=
  let tokenDeficit := PrimFloat.sub 1%float (tokens rl) in
  let waitSeconds := PrimFloat.div tokenDeficit (refillRate rl) in
  int64_of_float (PrimFloat.mul waitSeconds (float64_of_int Second)).

Definition buffer : Duration := 100 * Millisecond.

(** What a call that slept for [slept] makes of the nested call's end:
    it adds the nested wait to its own and releases the mutex on return;
    if the nested call never returns, neither does this one. *)
Definition after_retry (slept : Duration) (r : Outcome * World) : Outcome * World :=
  match r with
  | (Returned additionalWait err, w) =>
      (Returned (wrap64 (slept + additionalWait)) err,
       mkWorld (set_mu false (limiter w)) (clock w))
  | (BlockedOnLock, w) => (BlockedOnLock, w)
  | (OutOfFuel, w) => (OutOfFuel, w)
  end.

(** [WaitForToken].  The mutex is taken on entry and released by the
    deferred [Unlock] when the call returns; a call that finds it held
    waits for it.  One unit of fuel per nested call. *)
Fixpoint WaitForToken (fuel : nat) (maxWait : Duration) (w : World)
    : Outcome * World :=
  match fuel with
  | O => (OutOfFuel, w)
  | S fuel =>
      if mu (limiter w) then (BlockedOnLock, w)
      else
        let rl := set_mu true (limiter w) in
        let now := clock w in
        let rl := refill now rl in
        if PrimFloat.leb 1%float (tokens rl) then
          let rl := mkRL (PrimFloat.sub (tokens rl) 1%float) (maxTokens rl)
                         (refillRate rl) (lastRefillAt rl) (mu rl) in
          (Returned 0 None, mkWorld (set_mu false rl) (clock w))
        else
          let waitDuration := wait_for_deficit rl in
          if maxWait <? waitDuration then
            (Returned 0 (Some (ErrRateLimit waitDuration maxWait)),
             mkWorld (set_mu false rl) (clock w))
          else
            let slept := wrap64 (waitDuration + buffer) in
            let w := mkWorld rl (Sleep slept (clock w)) in
            after_retry slept
              (WaitForToken fuel (wrap64 (maxWait - waitDuration)) w)
  end.

(** [n] calls in a row, each with its own wait budget, at a clock that
    only the calls themselves advance; the outcomes are listed in order.
    A call that does not return ends the run. *)
Fixpoint calls (fuel : nat) (budgets : list Duration) (w : World)
    : list Outcome * World :=
  match budgets with
  | [] => ([], w)
  | maxWait :: budgets =>
      match WaitForToken fuel maxWait w with
      | (Returned d e, w) =>
          let '(outs, w) := calls fuel budgets w in (Returned d e :: outs, w)
      | (o, w) => ([o], w)
      end
  end.

End RateLimiter.

(** ** Domain events (domain/events) *)

Module Events.
Import Go.

Definition EventTypeEmployeeCheckedIn : string := "EmployeeCheckedIn".
Definition EventTypeEmployeeCheckedOut : string := "EmployeeCheckedOut".

Record EventHeader := {
  EventID : string;
  HeaderEventType : string;
  HeaderVersion : Z;
  Timestamp : Time
}.

Record EmployeeCheckedInEvent := {
  in_header : EventHeader;
  in_EmployeeID : string;
  in_CheckInAt : Time;
  in_RecordID : string
}.

Record EmployeeCheckedOutEvent := {
  out_header : EventHeader;
  out_EmployeeID : string;
  out_CheckInAt : Time;
  out_CheckOutAt : Time;
  out_HoursWorked : float64;
  out_RecordID : string
}.

(** The interface [DomainEvent] has these two implementations. *)
Inductive DomainEvent :=
| CheckedIn (e : EmployeeCheckedInEvent)
| CheckedOut (e : EmployeeCheckedOutEvent).

Definition EventType (e : DomainEvent) : string :=
  match e with
  | CheckedIn _ => EventTypeEmployeeCheckedIn
  | CheckedOut _ => EventTypeEmployeeCheckedOut
  end.

Definition OccurredAt (e : DomainEvent) : Time :=
  match e with
  | CheckedIn e => Timestamp (in_header e)
  | CheckedOut e => Timestamp (out_header e)
  end.

Definition Version (e : DomainEvent) : Z :=
  match e with
  | CheckedIn e => HeaderVersion (in_header e)
  | CheckedOut e => HeaderVersion (out_header e)
  end.

End Events.

(** ** The time record (domain/entities) *)

Module Entities.
Import Go.

Inductive TimeRecordStatus := StatusCheckedIn | StatusCheckedOut.

Record TimeRecord := mkTimeRecord {
  ID : string;
  EmployeeID : string;
  CheckInAt : Time;
  CheckOutAt : option Time;
  Status : TimeRecordStatus;
  HoursWorked : float64
}.

Inductive EntityError := ErrEmptyEmployeeID | ErrAlreadyCheckedOut.

(** [NewTimeRecord]; [id] is the fresh UUID and [now] the clock reading. *)
Definition NewTimeRecord (id : string) (now : Time) (employeeID : string)
    : result EntityError TimeRecord :=
  if String.eqb employeeID "" then Err ErrEmptyEmployeeID
  else Ok {| ID := id;
             EmployeeID := employeeID;
             CheckInAt := now;
             CheckOutAt := None;
             Status := StatusCheckedIn;
             HoursWorked := 0%float |}.

(** [tr.CheckOut()] at clock reading [now]. *)
Definition CheckOut (now : Time) (tr : TimeRecord) : result EntityError TimeRecord :=
  match Status tr with
  | StatusCheckedOut => Err ErrAlreadyCheckedOut
  | StatusCheckedIn =>
      Ok {| ID := ID tr;
            EmployeeID := EmployeeID tr;
            CheckInAt := CheckInAt tr;
            CheckOutAt := Some now;
            Status := StatusCheckedOut;
            HoursWorked := Duration_Hours (Time_Sub now (CheckInAt tr)) |}
  end.

Definition IsCheckedIn (tr : TimeRecord) : bool :=
  match Status tr with StatusCheckedIn => true | StatusCheckedOut => false end.

End Entities.

(** ** Repository types (domain/repositories) *)

Module Repositories.
Import Go.

Record OutboxEvent := {
  ID : string;
  EventType : string;
  AggregateID : string;
  Payload : Bytes;
  CreatedAt : Time;
  Published : bool;
  RetryCount : Z
}.

End Repositories.

(** ** The PostgreSQL repositories (infrastructure/persistence)

    The database is the pair of tables that the statements of the
    repositories act on, each a finite map from the primary key [id] to the
    other columns of the row.  A statement fails when the server or the
    driver refuses it for a reason outside the program (given as an input
    of the call) or when it violates the primary key. *)

Module Persistence.
Import Go Events.

Record TimeRecordRow := {
  employee_id : string;
  check_in_at : Time;
  check_out_at : option Time;
  status : Entities.TimeRecordStatus;
  hours_worked : float64;
  tr_created_at : Time;
  updated_at : Time
}.

Record OutboxRow := mkOutboxRow {
  event_type : string;
  aggregate_id : string;
  payload : Bytes;
  created_at : Time;
  published : bool;
  published_at : option Time;
  retry_count : Z;
  last_error : option string
}.

Record Database := mkDB {
  time_records : gmap string TimeRecordRow;
  outbox_events : gmap string OutboxRow
}.

Inductive PersistError :=
| ErrBeginTx
| ErrSaveTimeRecord
| ErrMarshalEvent
| ErrSaveOutboxEvent
| ErrCommit
| ErrQueryUnpublished
| ErrMarkPublished
| ErrIncrementRetry
| ErrFindActive.

(** [INSERT INTO time_records ... ON CONFLICT (id) DO UPDATE SET
    check_out_at, status, hours_worked, updated_at], at server time [now]. *)
Definition upsert_time_record (now : Time) (record : Entities.TimeRecord)
    (t : gmap string TimeRecordRow) : gmap string TimeRecordRow :=
  match t !! Entities.ID record with
  | None =>
      <[Entities.ID record :=
          {| employee_id := Entities.EmployeeID record;
             check_in_at := Entities.CheckInAt record;
             check_out_at := Entities.CheckOutAt record;
             status := Entities.Status record;
             hours_worked := Entities.HoursWorked record;
             tr_created_at := now;
             updated_at := now |}]> t
  | Some row =>
      <[Entities.ID record :=
          {| employee_id := employee_id row;
             check_in_at := check_in_at row;
             check_out_at := Entities.CheckOutAt record;
             status := Entities.Status record;
             hours_worked := Entities.HoursWorked record;
             tr_created_at := tr_created_at row;
             updated_at := now |}]> t
  end.

(** [INSERT INTO outbox_events (id, event_type, aggregate_id, payload,
    created_at, published)]: the other columns take their defaults; an [id]
    already in the table violates the primary key. *)
Definition insert_outbox_event (id event_type aggregate_id : string)
    (payload : Bytes) (created_at : Time) (published : bool)
    (t : gmap string OutboxRow) : option (gmap string OutboxRow) :=
  match t !! id with
  | Some _ => None
  | None =>
      Some (<[id := {| event_type := event_type;
                       aggregate_id := aggregate_id;
                       payload := payload;
                       created_at := created_at;
                       published := published;
                       published_at := None;
                       retry_count := 0;
                       last_error := None |}]> t)
  end.

(** What a call of [SaveWithEvent] takes from its environment: which of
    its statements the server refuses, the UUID and the clock reading for
    the outbox row, and the server's time. *)
Record TxEnv := {
  begin_fails : bool;
  exec_record_fails : bool;
  exec_outbox_fails : bool;
  commit_fails : bool;
  outbox_id : string;
  outbox_now : Time;
  server_now : Time
}.

Section Repository.

(** [json.Marshal] of an event. *)
Variable json_Marshal : DomainEvent -> option Bytes.

(** [SaveWithEvent].  The transaction works on a copy of the tables, which
    [Commit] installs; every return before that leaves the deferred
    [Rollback] to discard the copy. *)
Definition SaveWithEvent (env : TxEnv) (record : Entities.TimeRecord)
    (event : DomainEvent) (db : Database) : option PersistError * Database :=
  if begin_fails env then (Some ErrBeginTx, db)
  else
    let tx := db in
    if exec_record_fails env then (Some ErrSaveTimeRecord, db)
    else
      let tx := mkDB (upsert_time_record (server_now env) record (time_records tx))
                     (outbox_events tx) in
      match json_Marshal event with
      | None => (Some ErrMarshalEvent, db)
      | Some eventPayload =>
          if exec_outbox_fails env then (Some ErrSaveOutboxEvent, db)
          else
            match insert_outbox_event (outbox_id env) (EventType event)
                    (Entities.ID record) eventPayload (outbox_now env) false
                    (outbox_events tx) with
            | None => (Some ErrSaveOutboxEvent, db)
            | Some outbox =>
                let tx := mkDB (time_records tx) outbox in
                if commit_fails env then (Some ErrCommit, db)
                else (None, tx)
            end
      end.

End Repository.

(** The rows [WHERE published = FALSE AND event_type = $1]. *)
Definition unpublished_of_type (ty : string) (kv : string * OutboxRow) : Prop :=
  published kv.2 = false /\ event_type kv.2 = ty.

#[global] Instance unpublished_of_type_dec ty kv : Decision (unpublished_of_type ty kv).
Proof. unfold unpublished_of_type. apply _. Defined.

(** [ORDER BY created_at ASC]. *)
Definition created_le (a b : string * OutboxRow) : Prop :=
  created_at a.2 <= created_at b.2.

#[global] Instance created_le_dec a b : Decision (created_le a b).
Proof. unfold created_le. apply _. Defined.

Definition scan_event (kv : string * OutboxRow) : Repositories.OutboxEvent :=
  {| Repositories.ID := kv.1;
     Repositories.EventType := event_type kv.2;
     Repositories.AggregateID := aggregate_id kv.2;
     Repositories.Payload := payload kv.2;
     Repositories.CreatedAt := created_at kv.2;
     Repositories.Published := published kv.2;
     Repositories.RetryCount := retry_count kv.2 |}.

(** The rows the query of [GetUnpublishedEvents] selects before its
    [LIMIT], in its order; [$1] is bound to the check-out event type. *)
Definition selected (db : Database) : list (string * OutboxRow) :=
  merge_sort created_le
    (filter (unpublished_of_type EventTypeEmployeeCheckedOut)
            (map_to_list (outbox_events db))).

(** [GetUnpublishedEvents]: [$2] is bound to [limit]; the server rejects a
    negative [LIMIT]. *)
Definition GetUnpublishedEvents (query_fails : bool) (limit : Z) (db : Database)
    : result PersistError (list Repositories.OutboxEvent) :=
  if query_fails then Err ErrQueryUnpublished
  else if limit <? 0 then Err ErrQueryUnpublished
  else Ok (map scan_event (take (Z.to_nat limit) (selected db))).

(** [MarkAsPublished]: [UPDATE ... SET published = TRUE, published_at = $1
    WHERE id = $2]; no row with that id is not an error. *)
Definition MarkAsPublished (exec_fails : bool) (now : Time) (eventID : string)
    (db : Database) : option PersistError * Database :=
  if exec_fails then (Some ErrMarkPublished, db)
  else
    (None,
     mkDB (time_records db)
          (alter (fun r => mkOutboxRow (event_type r) (aggregate_id r) (payload r)
                             (created_at r) true (Some now)
                             (retry_count r) (last_error r))
                 eventID (outbox_events db))).

(** The column [retry_count] is a 32-bit integer. *)
Definition maxInt32 : Z := 2 ^ 31 - 1.

(** [IncrementRetryCount]: [UPDATE ... SET retry_count = retry_count + 1,
    last_error = $1 WHERE id = $2]; the server refuses a count that leaves
    the range of the column. *)
Definition IncrementRetryCount (exec_fails : bool) (eventID errorMsg : string)
    (db : Database) : option PersistError * Database :=
  if exec_fails then (Some ErrIncrementRetry, db)
  else
    match outbox_events db !! eventID with
    | None => (None, db)
    | Some r =>
        if maxInt32 <? retry_count r + 1 then (Some ErrIncrementRetry, db)
        else
          (None,
           mkDB (time_records db)
                (<[eventID := mkOutboxRow (event_type r) (aggregate_id r) (payload r)
                                (created_at r) (published r) (published_at r)
                                (retry_count r + 1) (Some errorMsg)]>
                   (outbox_events db)))
    end.

(** The rows [WHERE employee_id = $1 AND status = $2], and of two rows the
    one [ORDER BY check_in_at DESC] puts first. *)
Definition active_of (employeeID : string) (kv : string * TimeRecordRow) : Prop :=
  employee_id kv.2 = employeeID /\ status kv.2 = Entities.StatusCheckedIn.

#[global] Instance active_of_dec e kv : Decision (active_of e kv).
Proof.
  unfold active_of.
  destruct (decide (employee_id kv.2 = e)) as [He|He];
    destruct (status kv.2) eqn:Hs;
    solve [left; split; [exact He|reflexivity]
          | right; intros [H1 H2]; congruence].
Defined.

Definition later (a b : string * TimeRecordRow) : string * TimeRecordRow :=
  if check_in_at a.2 <? check_in_at b.2 then b else a.

Definition scan_record (kv : string * TimeRecordRow) : Entities.TimeRecord :=
  {| Entities.ID := kv.1;
     Entities.EmployeeID := employee_id kv.2;
     Entities.CheckInAt := check_in_at kv.2;
     Entities.CheckOutAt := check_out_at kv.2;
     Entities.Status := status kv.2;
     Entities.HoursWorked := hours_worked kv.2 |}.

(** [FindActiveByEmployeeID]: [LIMIT 1] of the active rows of the
    employee, latest check-in first; no row gives [(nil, nil)]. *)
Definition FindActiveByEmployeeID (query_fails : bool) (employeeID : string)
    (db : Database) : result PersistError (option Entities.TimeRecord) :=
  if query_fails then Err ErrFindActive
  else
    match filter (active_of employeeID) (map_to_list (time_records db)) with
    | [] => Ok None
    | kv :: rows => Ok (Some (scan_record (foldl later kv rows)))
    end.

(** The operations on the outbox table, with what each takes from its
    caller and its environment, and the database each leaves. *)
Inductive OutboxOp :=
| OpSaveWithEvent (env : TxEnv) (record : Entities.TimeRecord) (event : DomainEvent)
| OpMarkAsPublished (exec_fails : bool) (now : Time) (eventID : string)
| OpIncrementRetryCount (exec_fails : bool) (eventID errorMsg : string)
| OpGetUnpublishedEvents (query_fails : bool) (limit : Z).

Definition run_op (json_Marshal : DomainEvent -> option Bytes) (op : OutboxOp)
    (db : Database) : Database :=
  match op with
  | OpSaveWithEvent env record event =>
      snd (SaveWithEvent json_Marshal env record event db)
  | OpMarkAsPublished f now id => snd (MarkAsPublished f now id db)
  | OpIncrementRetryCount f id msg => snd (IncrementRetryCount f id msg db)
  | OpGetUnpublishedEvents _ _ => db
  end.

Definition run_ops (json_Marshal : DomainEvent -> option Bytes)
    (ops : list OutboxOp) (db : Database) : Database :=
  foldl (fun db op => run_op json_Marshal op db) db ops.

(** A later state [r'] of the row [r]: what was written at insertion is
    unchanged, and a row that was published still is. *)
Definition row_kept (r r' : OutboxRow) : Prop :=
  event_type r' = event_type r /\
  aggregate_id r' = aggregate_id r /\
  payload r' = payload r /\
  created_at r' = created_at r /\
  (published r = true -> published r' = true).

(** Every row of [t] is still in [t'], in a later state. *)
Definition outbox_kept (t t' : gmap string OutboxRow) : Prop :=
  forall id r, t !! id = Some r -> exists r', t' !! id = Some r' /\ row_kept r r'.

End Persistence.

(** ** Check-in and check-out services (application/services) *)

Module Services.
Import Go Events Persistence.

Inductive ServiceError :=
| ErrEmployeeAlreadyCheckedIn
| ErrNoActiveCheckInFound
| ErrDuplicateCheckIn
| ErrEntity (e : Entities.EntityError)
| ErrFailedToSaveCheckIn (e : PersistError)
| ErrFailedToSaveCheckOut (e : PersistError).

(** What a call of [CheckIn] takes from its environment: whether the
    lookup fails, the UUIDs and clock readings in the order they are
    drawn, and the environment of the save. *)
Record CheckInEnv := {
  in_find_fails : bool;
  in_record_id : string;
  in_record_now : Time;
  in_event_id : string;
  in_event_now : Time;
  in_tx : TxEnv
}.

(** The same for [CheckOut]; [out_since_now] is the clock reading of
    [time.Since] in the duplicate check, [out_checkout_now] the one of
    [record.CheckOut()]. *)
Record CheckOutEnv := {
  out_find_fails : bool;
  out_since_now : Time;
  out_checkout_now : Time;
  out_event_id : string;
  out_event_now : Time;
  out_tx : TxEnv
}.

Section Service.

Variable json_Marshal : DomainEvent -> option Bytes.

Definition CheckIn (env : CheckInEnv) (employeeID : string) (db : Database)
    : result ServiceError Entities.TimeRecord * Database :=
  match FindActiveByEmployeeID (in_find_fails env) employeeID db with
  | Ok (Some _) => (Err ErrEmployeeAlreadyCheckedIn, db)
  | _ =>
      match Entities.NewTimeRecord (in_record_id env) (in_record_now env) employeeID with
      | Err e => (Err (ErrEntity e), db)
      | Ok record =>
          let event :=
            CheckedIn
              {| in_header := {| EventID := in_event_id env;
                                 HeaderEventType := EventTypeEmployeeCheckedIn;
                                 HeaderVersion := 1;
                                 Timestamp := in_event_now env |};
                 in_EmployeeID := Entities.EmployeeID record;
                 in_CheckInAt := Entities.CheckInAt record;
                 in_RecordID := Entities.ID record |} in
          match SaveWithEvent json_Marshal (in_tx env) record event db with
          | (Some e, db) => (Err (ErrFailedToSaveCheckIn e), db)
          | (None, db) => (Ok record, db)
          end
      end
  end.

(** [CheckOut]; [dupWindow] is [Cfg.CheckOut.DuplicateWindowSec]. *)
Definition CheckOut (dupWindow : Z) (env : CheckOutEnv) (employeeID : string)
    (db : Database) : result ServiceError Entities.TimeRecord * Database :=
  match FindActiveByEmployeeID (out_find_fails env) employeeID db with
  | Err _ => (Err ErrNoActiveCheckInFound, db)
  | Ok None => (Err ErrNoActiveCheckInFound, db)
  | Ok (Some record) =>
      if Since (out_since_now env) (Entities.CheckInAt record)
           <? wrap64 (dupWindow * Second)
      then (Err ErrDuplicateCheckIn, db)
      else
        match Entities.CheckOut (out_checkout_now env) record with
        | Err e => (Err (ErrEntity e), db)
        | Ok record =>
            let event :=
              CheckedOut
                {| out_header := {| EventID := out_event_id env;
                                    HeaderEventType := EventTypeEmployeeCheckedOut;
                                    HeaderVersion := 1;
                                    Timestamp := out_event_now env |};
                   out_EmployeeID := Entities.EmployeeID record;
                   out_CheckInAt := Entities.CheckInAt record;
                   out_CheckOutAt := default zeroTime (Entities.CheckOutAt record);
                   out_HoursWorked := Entities.HoursWorked record;
                   out_RecordID := Entities.ID record |} in
            match SaveWithEvent json_Marshal (out_tx env) record event db with
            | (Some e, db) => (Err (ErrFailedToSaveCheckOut e), db)
            | (None, db) => (Ok record, db)
            end
        end
  end.

End Service.

End Services.

(** ** The outbox relay ([startOutboxPublisher] in cmd/api/main.go) and
       the publisher it drives (infrastructure/messaging) *)

Module Relay.
Import Go Events Persistence.

(** A message on the exchange: its [Type] and [Body]. *)
Record Publishing := {
  pub_Type : string;
  pub_Body : Bytes
}.

(** The database and the messages published to the exchange so far,
    oldest first. *)
Record System := mkSystem {
  db : Database;
  exchange : list Publishing
}.

(** [PublishRaw]. *)
Definition PublishRaw (publish_fails : bool) (eventType : string) (body : Bytes)
    (ex : list Publishing) : option unit * list Publishing :=
  if publish_fails then (Some tt, ex)
  else (None, ex ++ [{| pub_Type := eventType; pub_Body := body |}]).

(** What one poll cycle takes from its environment: the fetch limit read
    from the configuration, whether the query fails and, for the [i]-th
    event of the batch, whether publishing it and the update that follows
    fail, the text of the publishing error and the clock reading. *)
Record PollEnv := {
  fetch_limit : Z;
  fetch_fails : bool;
  publish_fails : nat -> bool;
  publish_error : nat -> string;
  update_fails : nat -> bool;
  update_now : nat -> Time
}.

(** The [for _, event := range events] loop, from the [i]-th event on. *)
Fixpoint publish_events (env : PollEnv) (i : nat)
    (events : list Repositories.OutboxEvent) (sys : System) : System :=
  match events with
  | [] => sys
  | event :: events =>
      match PublishRaw (publish_fails env i) (Repositories.EventType event)
              (Repositories.Payload event) (exchange sys) with
      | (Some _, ex) =>
          let '(_, db) :=
            IncrementRetryCount (update_fails env i) (Repositories.ID event)
              (publish_error env i) (db sys) in
          publish_events env (S i) events (mkSystem db ex)
      | (None, ex) =>
          let '(_, db) :=
            MarkAsPublished (update_fails env i) (update_now env i)
              (Repositories.ID event) (db sys) in
          publish_events env (S i) events (mkSystem db ex)
      end
  end.

(** One tick of the ticker. *)
Definition poll (env : PollEnv) (sys : System) : System :=
  match GetUnpublishedEvents (fetch_fails env) (fetch_limit env) (db sys) with
  | Err _ => sys
  | Ok events => publish_events env 0 events sys
  end.

(** The ticks of a run of the relay, in order. *)
Definition polls (envs : list PollEnv) (sys : System) : System :=
  foldl (fun sys env => poll env sys) sys envs.

(** What happens to the system, one step at a time: a tick of the relay,
    or a request served by one of the two services.  A request is one
    step here: nothing else touches the database between the lookup of a
    service and its save.  Requests that overlap are taken apart in
    [Overlap] below. *)
Inductive Step :=
| StepPoll (env : PollEnv)
| StepCheckIn (env : Services.CheckInEnv) (employeeID : string)
| StepCheckOut (dupWindow : Z) (env : Services.CheckOutEnv) (employeeID : string).

Definition step (json_Marshal : DomainEvent -> option Bytes) (st : Step)
    (sys : System) : System :=
  match st with
  | StepPoll env => poll env sys
  | StepCheckIn env e =>
      mkSystem (snd (Services.CheckIn json_Marshal env e (db sys))) (exchange sys)
  | StepCheckOut w env e =>
      mkSystem (snd (Services.CheckOut json_Marshal w env e (db sys))) (exchange sys)
  end.

Definition run (json_Marshal : DomainEvent -> option Bytes) (steps : list Step)
    (sys : System) : System :=
  foldl (fun sys st => step json_Marshal st sys) sys steps.

(** The outbox holds, under [id], an unpublished check-in event. *)
Definition unpublished_checkin (id : string) (d : Database) : Prop :=
  exists row,
    outbox_events d !! id = Some row /\
    event_type row = EventTypeEmployeeCheckedIn /\
    published row = false.

(** The row under [id] is an unpublished check-in event, and the
    exchange has received nothing but check-out messages since it held
    [ex]. *)
Definition checkin_held_back (id : string) (ex : list Publishing) (sys : System) : Prop :=
  unpublished_checkin id (db sys) /\
  exists new,
    exchange sys = ex ++ new /\
    Forall (fun m => pub_Type m = EventTypeEmployeeCheckedOut) new.

End Relay.

(** ** The labor-cost handler and its retry loop
       (application/handlers/labor_cost_handler.go) *)

Module Handlers.
Import Go Events.

Record RetryConfig := {
  MaxAttempts : Z;
  InitialBackoff : Duration;
  MaxBackoff : Duration;
  BackoffMultiplier : float64
}.

(** The configuration [NewLaborCostReporter] installs. *)
Definition defaultRetryConfig : RetryConfig :=
  {| MaxAttempts := 5;
     InitialBackoff := 1 * Second;
     MaxBackoff := 30 * Second;
     BackoffMultiplier := 2%float |}.

(** [time.Duration(float64(backoff) * multiplier)], then the cap. *)
Definition next_backoff (cfg : RetryConfig) (backoff : Duration) : Duration :=
  let b := int64_of_float
             (PrimFloat.mul (float64_of_int backoff) (BackoffMultiplier cfg)) in
  if MaxBackoff cfg <? b then MaxBackoff cfg else b.

Section Handler.

(** [W] is the state of everything the wrapped call touches (the legacy
    client with its breaker, the remote service); [E] its errors. *)
Context {W E : Type}.

(** [json.Unmarshal] into an [EmployeeCheckedOutEvent]. *)
Variable json_Unmarshal : Bytes -> option EmployeeCheckedOutEvent.

(** [legacyClient.RecordLaborCost(ctx, employeeID, hours)]; [None] is a
    nil error. *)
Variable RecordLaborCost : string -> float64 -> W -> option E * W.

Inductive HandlerError :=
| ErrUnmarshal
| ErrFailedAfter (attempts : Z) (cause : E)
| ErrMaxRetriesExceeded.

(** The handler's state: the world of the wrapped call and the arguments
    of the [time.Sleep] calls made so far, oldest first. *)
Record HState := mkHState {
  world : W;
  sleeps : list Duration
}.

Inductive Outcome (A : Type) :=
| Returned (a : A)
| OutOfFuel.
Arguments Returned {A} a.
Arguments OutOfFuel {A}.

(** The [for attempt < MaxAttempts] loop; one unit of fuel per iteration. *)
Fixpoint retry_loop (cfg : RetryConfig) (event : EmployeeCheckedOutEvent)
    (fuel : nat) (attempt : Z) (backoff : Duration) (st : HState)
    : Outcome (option HandlerError) * HState :=
  match fuel with
  | O => (OutOfFuel, st)
  | S fuel =>
      if attempt <? MaxAttempts cfg then
        let '(err, w) :=
          RecordLaborCost (out_EmployeeID event) (out_HoursWorked event) (world st) in
        let st := mkHState w (sleeps st) in
        match err with
        | None => (Returned None, st)
        | Some e =>
            let attempt := wrap64 (attempt + 1) in
            if MaxAttempts cfg <=? attempt then
              (Returned (Some (ErrFailedAfter attempt e)), st)
            else
              let st := mkHState (world st) (sleeps st ++ [backoff]) in
              retry_loop cfg event fuel attempt (next_backoff cfg backoff) st
        end
      else (Returned (Some ErrMaxRetriesExceeded), st)
  end.

(** [HandleCheckedOut].  The loop runs at most [MaxAttempts] times; the
    fuel given covers that and the final test of the loop condition. *)
Definition HandleCheckedOut (cfg : RetryConfig) (eventData : Bytes) (st : HState)
    : Outcome (option HandlerError) * HState :=
  match json_Unmarshal eventData with
  | None => (Returned (Some ErrUnmarshal), st)
  | Some event =>
      retry_loop cfg event (S (Z.to_nat (MaxAttempts cfg))) 0 (InitialBackoff cfg) st
  end.

(** The world after [n] calls of the wrapped operation, and whether each
    of the first [n] calls fails. *)
Fixpoint after_calls (id : string) (h : float64) (n : nat) (w : W) : W :=
  match n with
  | O => w
  | S n => after_calls id h n (snd (RecordLaborCost id h w))
  end.

Fixpoint fails_first (id : string) (h : float64) (n : nat) (w : W) : bool :=
  match n with
  | O => true
  | S n =>
      match fst (RecordLaborCost id h w) with
      | Some _ => fails_first id h n (snd (RecordLaborCost id h w))
      | None => false
      end
  end.

(** The arguments of the first [n] sleeps when the first one is [b], and
    the schedule of a whole call, which starts at [InitialBackoff]. *)
Fixpoint backoffs_from (cfg : RetryConfig) (b : Duration) (n : nat)
    : list Duration :=
  match n with
  | O => []
  | S n => b :: backoffs_from cfg (next_backoff cfg b) n
  end.

Definition backoff_schedule (cfg : RetryConfig) (n : nat) : list Duration :=
  backoffs_from cfg (InitialBackoff cfg) n.

(** Time spent in [time.Sleep]: a call with [d <= 0] returns at once. *)
Definition total_slept (ds : list Duration) : Z :=
  fold_right (fun d acc => Z.max 0 d + acc) 0 ds.

Definition sum_capped (cfg : RetryConfig) (ds : list Duration) : Z :=
  fold_right (fun d acc => Z.min d (MaxBackoff cfg) + acc) 0 ds.

End Handler.

Arguments Returned {A} a.
Arguments OutOfFuel {A}.
Arguments HandlerError E : clear implicits.
Arguments HState W : clear implicits.

End Handlers.

(** ** Broker consumer (infrastructure/messaging/rabbitmq_consumer.go) *)

Module Messaging.
Import Go Handlers.

Record Delivery := {
  DeliveryTag : Z;
  Body : Bytes
}.

(** What the consumer tells the broker about a delivery:
    [msg.Ack(multiple)] and [msg.Nack(multiple, requeue)]. *)
Inductive BrokerAction :=
| Ack (tag : Z) (multiple : bool)
| Nack (tag : Z) (multiple requeue : bool).

(** The case of the [select] that fires in one round of the loop. *)
Inductive Input :=
| CtxDone
| ChanClosed
| Deliver (d : Delivery).

Inductive ConsumeStatus :=
| ErrRegisterConsumer   (* channel.Consume failed *)
| ErrContext            (* returned ctx.Err() *)
| ErrChannelClosed      (* returned "channel closed" *)
| HandlerRunning        (* the handler has not returned *)
| Waiting.              (* blocked in the select: no input left *)

Section Consumer.

(** A [MessageHandler] with the state [H] it acts on. *)
Context {H E : Type}.
Variable handler : Bytes -> H -> Outcome (option E) * H.

(** The [for { select { ... } }] loop over the inputs that arrive; the
    actions sent to the broker are logged oldest first. *)
Fixpoint consume_loop (inputs : list Input) (h : H) (log : list BrokerAction)
    : ConsumeStatus * H * list BrokerAction :=
  match inputs with
  | [] => (Waiting, h, log)
  | CtxDone :: _ => (ErrContext, h, log)
  | ChanClosed :: _ => (ErrChannelClosed, h, log)
  | Deliver msg :: inputs =>
      match handler (Body msg) h with
      | (Returned err, h) =>
          match err with
          | Some _ =>
              consume_loop inputs h (log ++ [Nack (DeliveryTag msg) false true])
          | None =>
              consume_loop inputs h (log ++ [Ack (DeliveryTag msg) false])
          end
      | (OutOfFuel, h) => (HandlerRunning, h, log)
      end
  end.

(** [Consume]; [register_fails] tells whether [channel.Consume] fails. *)
Definition Consume (register_fails : bool) (inputs : list Input) (h : H)
    : ConsumeStatus * H * list BrokerAction :=
  if register_fails then (ErrRegisterConsumer, h, [])
  else consume_loop inputs h [].

(** The deliveries for which the handler was called and returned, each
    with the error it returned ([None] for nil), oldest first. *)
Fixpoint handled (inputs : list Input) (h : H) : list (Delivery * option E) :=
  match inputs with
  | Deliver msg :: inputs =>
      match handler (Body msg) h with
      | (Returned err, h) => (msg, err) :: handled inputs h
      | (OutOfFuel, _) => []
      end
  | _ => []
  end.

(** The action [a] answers the handler's result for a delivery: it is an
    ack of that delivery exactly when the handler returned nil and a nack
    of it with requeue exactly when the handler returned an error. *)
Definition answers (de : Delivery * option E) (a : BrokerAction) : Prop :=
  (a = Ack (DeliveryTag (fst de)) false <-> snd de = None) /\
  (a = Nack (DeliveryTag (fst de)) false true <-> snd de <> None).

End Consumer.

End Messaging.

(** ** The breaker as its callers drive it *)

Module BreakerUse.
Import Go CircuitBreaker.

(** What a caller reports to the breaker after a guarded call: a success,
    or a failure at the clock reading [now]. *)
Inductive Report :=
| Succeeded
| Failed (now : Time).

Definition report (cb : CircuitBreaker) (r : Report) : CircuitBreaker :=
  match r with
  | Succeeded => RecordSuccess cb
  | Failed now => RecordFailure now cb
  end.

(** The reports of a run, oldest first. *)
Definition reports (rs : list Report) (cb : CircuitBreaker) : CircuitBreaker :=
  foldl report cb rs.

(** [rs] contains [n] failures in a row. *)
Definition failures_in_a_row (n : Z) (rs : list Report) : Prop :=
  exists pre times post,
    rs = pre ++ map Failed times ++ post /\ Z.of_nat (length times) = n.

End BreakerUse.

(** ** The client of the legacy labor-cost API
       (infrastructure/external, [LegacyLaborCostClient]) *)

Module LegacyClient.
Import Go CircuitBreaker.

(** The body of a request; [RecordedAt] holds the clock reading that the
    code formats per RFC 3339. *)
Record LaborCostRequest := {
  EmployeeID : string;
  HoursWorked : float64;
  RecordedAt : Time
}.

(** What [httpClient.Do] gives: an error, or a response with its status
    code. *)
Inductive DoResult :=
| DoError
| DoResponse (StatusCode : Z).

Definition StatusOK : Z := 200.
Definition StatusCreated : Z := 201.

(** The client's breaker ([None] for a nil pointer) and the requests it has
    handed to [httpClient.Do] so far, oldest first. *)
Record Legacy := mkLegacy {
  circuitBreaker : option CircuitBreaker;
  posted : list LaborCostRequest
}.

Inductive ClientError :=
| ErrCircuitBreaker (e : CBError)   (* "circuit breaker error: %w" *)
| ErrCircuitBreakerOpen             (* "circuit breaker open: ..." *)
| ErrMarshalRequest                 (* "failed to marshal request: %w" *)
| ErrCreateRequest                  (* "failed to create request: %w" *)
| ErrSendRequest                    (* "failed to send request: %w" *)
| ErrUnexpectedStatus (code : Z).   (* "unexpected status code: %d" *)

(** What one call takes from its environment: the clock readings of
    [CanExecute], of the request body and of [RecordFailure], whether
    [http.NewRequestWithContext] refuses the URL, and what
    [httpClient.Do] gives. *)
Record CallEnv := {
  now_can_execute : Time;
  now_recorded : Time;
  new_request_fails : bool;
  do_result : DoResult;
  now_failure : Time
}.

(** [json.Marshal] of a [LaborCostRequest] fails exactly on a
    [hours_worked] that is a NaN or an infinity. *)
Definition json_Marshal_fails (hours : float64) : bool :=
  PrimFloat.is_nan hours || PrimFloat.is_infinity hours.

(** The [if c.circuitBreaker != nil] block at the head of
    [RecordLaborCost]. *)
Definition can_execute (now : Time) (cb : option CircuitBreaker)
    : option ClientError * option CircuitBreaker :=
  match cb with
  | None => (None, None)
  | Some cb =>
      match CanExecute now cb with
      | ((_, Some e), cb) => (Some (ErrCircuitBreaker e), Some cb)
      | ((false, None), cb) => (Some ErrCircuitBreakerOpen, Some cb)
      | ((true, None), cb) => (None, Some cb)
      end
  end.

(** [RecordLaborCost]. *)
Definition RecordLaborCost (env : CallEnv) (employeeID : string) (hours : float64)
    (w : Legacy) : option ClientError * Legacy :=
  match can_execute (now_can_execute env) (circuitBreaker w) with
  | (Some e, cb) => (Some e, mkLegacy cb (posted w))
  | (None, cb) =>
      let reqBody := {| EmployeeID := employeeID;
                        HoursWorked := hours;
                        RecordedAt := now_recorded env |} in
      if json_Marshal_fails hours then
        (Some ErrMarshalRequest, mkLegacy cb (posted w))
      else if new_request_fails env then
        (Some ErrCreateRequest, mkLegacy cb (posted w))
      else
        let posted := posted w ++ [reqBody] in
        match do_result env with
        | DoError =>
            (Some ErrSendRequest,
             mkLegacy (RecordFailure (now_failure env) <$> cb) posted)
        | DoResponse code =>
            if negb (code =? StatusOK) && negb (code =? StatusCreated) then
              (Some (ErrUnexpectedStatus code),
               mkLegacy (RecordFailure (now_failure env) <$> cb) posted)
            else (None, mkLegacy (RecordSuccess <$> cb) posted)
        end
  end.

(** The request of a call, and whether the API turns it down: the
    transport fails or the status is neither 200 nor 201. *)
Definition request_of (env : CallEnv) (employeeID : string) (hours : float64)
    : LaborCostRequest :=
  {| EmployeeID := employeeID; HoursWorked := hours; RecordedAt := now_recorded env |}.

Definition turned_down (r : DoResult) : Prop :=
  match r with
  | DoError => True
  | DoResponse code => code <> StatusOK /\ code <> StatusCreated
  end.

(** Calls in a row for the same employee and hours, one per environment. *)
Definition RecordLaborCosts (envs : list CallEnv) (employeeID : string)
    (hours : float64) (w : Legacy) : Legacy :=
  foldl (fun w env => snd (RecordLaborCost env employeeID hours w)) w envs.

(** The client as the labor-cost handler uses it: the [i]-th call made
    through it finds the environment [envs i]. *)
Record Session := mkSession {
  legacy : Legacy;
  envs : nat -> CallEnv;
  made : nat
}.

Definition call (employeeID : string) (hours : float64) (s : Session)
    : option ClientError * Session :=
  let '(err, w) := RecordLaborCost (envs s (made s)) employeeID hours (legacy s) in
  (err, mkSession w (envs s) (S (made s))).

(** The API took the request of the call: it answered 200 or 201. *)
Definition accepted (r : DoResult) : Prop :=
  r = DoResponse StatusOK \/ r = DoResponse StatusCreated.

End LegacyClient.

(** ** The labor-cost worker: what a session of the client has seen *)

Module LaborWorker.
Import Go Events LegacyClient.

(** From [s] to [s'] the client has only been used: the environments are
    the same, and the calls made and the requests posted have only
    grown. *)
Definition extends (s s' : Session) : Prop :=
  envs s' = envs s /\ (made s <= made s')%nat /\
  exists new, posted (legacy s') = posted (legacy s) ++ new.

(** From [s] to [s'] the labor cost of the event was recorded: the last
    request posted carries the employee and the hours of the event, and
    the API accepted it. *)
Definition recorded (ev : EmployeeCheckedOutEvent) (s s' : Session) : Prop :=
  exists k pre,
    (made s <= k)%nat /\
    accepted (do_result (envs s k)) /\
    posted (legacy s')
      = posted (legacy s) ++ pre ++
        [request_of (envs s k) (out_EmployeeID ev) (out_HoursWorked ev)].

End LaborWorker.

(** ** The rest of the time-record repository
       ([Save] and [FindByID] of [PostgresTimeRecordRepository]) *)

Module TimeRecordStore.
Import Go Events Persistence.

(** The statement of [Save]: as in [SaveWithEvent], but a conflict on the
    id leaves [updated_at] alone. *)
Definition save_time_record (now : Time) (record : Entities.TimeRecord)
    (t : gmap string TimeRecordRow) : gmap string TimeRecordRow :=
  match t !! Entities.ID record with
  | None =>
      <[Entities.ID record :=
          {| employee_id := Entities.EmployeeID record;
             check_in_at := Entities.CheckInAt record;
             check_out_at := Entities.CheckOutAt record;
             status := Entities.Status record;
             hours_worked := Entities.HoursWorked record;
             tr_created_at := now;
             updated_at := now |}]> t
  | Some row =>
      <[Entities.ID record :=
          {| employee_id := employee_id row;
             check_in_at := check_in_at row;
             check_out_at := Entities.CheckOutAt record;
             status := Entities.Status record;
             hours_worked := Entities.HoursWorked record;
             tr_created_at := tr_created_at row;
             updated_at := updated_at row |}]> t
  end.

(** [Save]; [now] is the server's time. *)
Definition Save (exec_fails : bool) (now : Time) (record : Entities.TimeRecord)
    (db : Database) : option PersistError * Database :=
  if exec_fails then (Some ErrSaveTimeRecord, db)
  else (None, mkDB (save_time_record now record (time_records db)) (outbox_events db)).

Inductive FindError :=
| ErrRecordNotFound   (* "record not found" *)
| ErrFindRecord.      (* "failed to find record: %w" *)

(** [FindByID]. *)
Definition FindByID (query_fails : bool) (id : string) (db : Database)
    : result FindError Entities.TimeRecord :=
  if query_fails then Err ErrFindRecord
  else
    match time_records db !! id with
    | None => Err ErrRecordNotFound
    | Some row => Ok (scan_record (id, row))
    end.

(** No employee has two active time records. *)
Definition one_active_each (db : Database) : Prop :=
  forall employeeID id1 row1 id2 row2,
    time_records db !! id1 = Some row1 -> active_of employeeID (id1, row1) ->
    time_records db !! id2 = Some row2 -> active_of employeeID (id2, row2) ->
    id1 = id2.

(** What lookups by id show in [db'] once [record] has been saved over
    [db]: the record is found, with its status; the employee and the
    check-in time are those of the row that was there, if there was one;
    every other id is found as before. *)
Definition saved_over (db db' : Database) (record : Entities.TimeRecord) : Prop :=
  (exists r,
     FindByID false (Entities.ID record) db' = Ok r /\
     Entities.ID r = Entities.ID record /\
     Entities.Status r = Entities.Status record /\
     match time_records db !! Entities.ID record with
     | Some row =>
         Entities.EmployeeID r = employee_id row /\
         Entities.CheckInAt r = check_in_at row
     | None => Entities.EmployeeID r = Entities.EmployeeID record
     end) /\
  forall id, id <> Entities.ID record -> FindByID false id db' = FindByID false id db.

(** Nothing makes the transaction of a save fail: the server accepts
    every statement and the outbox id it draws is not in use. *)
Definition commits (env : TxEnv) (db : Database) : Prop :=
  begin_fails env = false /\ exec_record_fails env = false /\
  exec_outbox_fails env = false /\ commit_fails env = false /\
  outbox_events db !! outbox_id env = None.

(** The steps of a run in which every check-in finds its lookup answered
    and draws a record id that is not in use. *)
Definition careful_step (st : Relay.Step) (sys : Relay.System) : Prop :=
  match st with
  | Relay.StepCheckIn env _ =>
      Services.in_find_fails env = false /\
      time_records (Relay.db sys) !! Services.in_record_id env = None
  | _ => True
  end.

Fixpoint careful (json_Marshal : DomainEvent -> option Bytes)
    (steps : list Relay.Step) (sys : Relay.System) : Prop :=
  match steps with
  | [] => True
  | st :: steps =>
      careful_step st sys /\ careful json_Marshal steps (Relay.step json_Marshal st sys)
  end.

End TimeRecordStore.

(** ** Requests that overlap

    Every request is served in a goroutine of its own.  A call of
    [CheckIn] reads the database in its lookup and again, later, in the
    transaction of its save; between the two another request can be
    served.  Here the call is taken apart at that point. *)

Module Overlap.
Import Go Events Persistence Services.

Section Service.

Variable json_Marshal : DomainEvent -> option Bytes.

(** The first part of [CheckIn]: the lookup. *)
Definition CheckIn_lookup (env : CheckInEnv) (employeeID : string) (db : Database)
    : result PersistError (option Entities.TimeRecord) :=
  FindActiveByEmployeeID (in_find_fails env) employeeID db.

(** The rest of [CheckIn], from the test of what the lookup returned, on
    the database as it is by then. *)
Definition CheckIn_rest (existing : result PersistError (option Entities.TimeRecord))
    (env : CheckInEnv) (employeeID : string) (db : Database)
    : result ServiceError Entities.TimeRecord * Database :=
  match existing with
  | Ok (Some _) => (Err ErrEmployeeAlreadyCheckedIn, db)
  | _ =>
      match Entities.NewTimeRecord (in_record_id env) (in_record_now env) employeeID with
      | Err e => (Err (ErrEntity e), db)
      | Ok record =>
          let event :=
            CheckedIn
              {| in_header := {| EventID := in_event_id env;
                                 HeaderEventType := EventTypeEmployeeCheckedIn;
                                 HeaderVersion := 1;
                                 Timestamp := in_event_now env |};
                 in_EmployeeID := Entities.EmployeeID record;
                 in_CheckInAt := Entities.CheckInAt record;
                 in_RecordID := Entities.ID record |} in
          match SaveWithEvent json_Marshal (in_tx env) record event db with
          | (Some e, db) => (Err (ErrFailedToSaveCheckIn e), db)
          | (None, db) => (Ok record, db)
          end
      end
  end.

(** Two check-ins [a] and [b] that overlap: both lookups run before
    either save. *)
Definition overlapping_CheckIns (a b : CheckInEnv) (employeeID : string)
    (db : Database)
    : result ServiceError Entities.TimeRecord *
      result ServiceError Entities.TimeRecord * Database :=
  let existing_a := CheckIn_lookup a employeeID db in
  let existing_b := CheckIn_lookup b employeeID db in
  let '(res_a, db) := CheckIn_rest existing_a a employeeID db in
  let '(res_b, db) := CheckIn_rest existing_b b employeeID db in
  (res_a, res_b, db).

End Service.

End Overlap.

(** ** What a poll of the relay amounts to *)

Module RelayEffects.
Import Go Events Persistence Relay.

(** The message [PublishRaw] is given for an event of the batch. *)
Definition message_of (ev : Repositories.OutboxEvent) : Publishing :=
  {| pub_Type := Repositories.EventType ev; pub_Body := Repositories.Payload ev |}.

(** The batch a poll fetches; none when the query fails. *)
Definition batch (env : PollEnv) (sys : System) : list Repositories.OutboxEvent :=
  match GetUnpublishedEvents (fetch_fails env) (fetch_limit env) (db sys) with
  | Ok events => events
  | Err _ => []
  end.

(** The messages of the events whose publish call succeeds, the first
    event being the [i]-th of its batch. *)
Fixpoint delivered (env : PollEnv) (i : nat) (events : list Repositories.OutboxEvent)
    : list Publishing :=
  match events with
  | [] => []
  | ev :: events =>
      if publish_fails env i then delivered env (S i) events
      else message_of ev :: delivered env (S i) events
  end.

(** A row once it is marked as published at [now], and once a failed
    publication with the error [msg] is counted against it. *)
Definition marked (now : Time) (r : OutboxRow) : OutboxRow :=
  mkOutboxRow (event_type r) (aggregate_id r) (payload r) (created_at r)
    true (Some now) (retry_count r) (last_error r).

Definition counted (msg : string) (r : OutboxRow) : OutboxRow :=
  mkOutboxRow (event_type r) (aggregate_id r) (payload r) (created_at r)
    (published r) (published_at r) (retry_count r + 1) (Some msg).

(** What the round of the [i]-th event of a batch does to the row of that
    event. *)
Definition row_after (env : PollEnv) (i : nat) (r : OutboxRow) : OutboxRow :=
  if publish_fails env i then
    if update_fails env i then r
    else if maxInt32 <? retry_count r + 1 then r
    else counted (publish_error env i) r
  else
    if update_fails env i then r
    else marked (update_now env i) r.

(** A poll in which no call fails. *)
Definition faultless (env : PollEnv) : Prop :=
  fetch_fails env = false /\
  forall i, publish_fails env i = false /\ update_fails env i = false.

End RelayEffects.

(** ** The HTTP handler (presentation/http) *)

Module Http.
Import Go Events Persistence Services.

(** *** The validation of a request

    [validateRequest] runs the tags [required,min=3,max=50,alphanum] of
    [CheckInRequest.EmployeeID] through the validator, which checks them
    in this order and reports the first that fails.  For a string, [min]
    and [max] bound the number of runes, counted as
    [utf8.RuneCountInString] counts them, and [alphanum] matches the
    string against [^[a-zA-Z0-9]+$]. *)

Definition bytes_of (s : string) : list N :=
  map Ascii.N_of_ascii (list_ascii_of_string s).

(** For a leading byte of a multi-byte sequence: its length and the range
    its second byte must lie in. *)
Definition first (c : N) : option (nat * N * N) :=
  (if (0xC2 <=? c) && (c <=? 0xDF) then Some (2%nat, 0x80, 0xBF)
   else if c =? 0xE0 then Some (3%nat, 0xA0, 0xBF)
   else if (0xE1 <=? c) && (c <=? 0xEC) then Some (3%nat, 0x80, 0xBF)
   else if c =? 0xED then Some (3%nat, 0x80, 0x9F)
   else if (0xEE <=? c) && (c <=? 0xEF) then Some (3%nat, 0x80, 0xBF)
   else if c =? 0xF0 then Some (4%nat, 0x90, 0xBF)
   else if (0xF1 <=? c) && (c <=? 0xF3) then Some (4%nat, 0x80, 0xBF)
   else if c =? 0xF4 then Some (4%nat, 0x80, 0x8F)
   else None)%N.

(** A continuation byte. *)
Definition cont (c : N) : bool := ((0x80 <=? c) && (c <=? 0xBF))%N.

(** [utf8.RuneCountInString]: a byte that does not begin a well-formed
    sequence counts as one rune. *)
Fixpoint rune_count (s : list N) : nat :=
  match s with
  | [] => O
  | c :: s1 =>
      if (c <? 0x80)%N then S (rune_count s1)
      else
        match first c with
        | None => S (rune_count s1)
        | Some (size, lo, hi) =>
            match s1 with
            | [] => S (rune_count s1)
            | c1 :: s2 =>
                if ((c1 <? lo) || (hi <? c1))%N then S (rune_count s1)
                else if (size =? 2)%nat then S (rune_count s2)
                else
                  match s2 with
                  | [] => S (rune_count s1)
                  | c2 :: s3 =>
                      if negb (cont c2) then S (rune_count s1)
                      else if (size =? 3)%nat then S (rune_count s3)
                      else
                        match s3 with
                        | [] => S (rune_count s1)
                        | c3 :: s4 =>
                            if negb (cont c3) then S (rune_count s1)
                            else S (rune_count s4)
                        end
                  end
            end
        end
  end.

Definition RuneCountInString (s : string) : Z := Z.of_nat (rune_count (bytes_of s)).

(** A byte in [[a-zA-Z0-9]]. *)
Definition alphanumeric (c : N) : bool :=
  ((0x30 <=? c) && (c <=? 0x39) || (0x41 <=? c) && (c <=? 0x5A)
   || (0x61 <=? c) && (c <=? 0x7A))%N.

Definition matches_alphanum (s : string) : bool :=
  match bytes_of s with
  | [] => false
  | bs => forallb alphanumeric bs
  end.

Record CheckInRequest := {
  EmployeeID : string
}.

(** [validateRequest]: nil, or the tag that failed. *)
Definition validateRequest (req : CheckInRequest) : option string :=
  let s := EmployeeID req in
  if String.eqb s "" then Some "required"
  else if RuneCountInString s <? 3 then Some "min"
  else if 50 <? RuneCountInString s then Some "max"
  else if negb (matches_alphanum s) then Some "alphanum"
  else None.

(** *** The handler *)

Record Request := {
  Method : string;
  Body : Bytes
}.

Record CheckInResponse := {
  Success : bool;
  Message : string;
  RecordID : string;
  Action : string;
  HoursWorked : float64
}.

Definition StatusBadRequest : Z := 400.
Definition StatusMethodNotAllowed : Z := 405.
Definition StatusConflict : Z := 409.
Definition StatusInternalServerError : Z := 500.

Definition ErrInvalidEmployeeID : string := "employee_id is required".
Definition ErrInvalidRequestBody : string := "invalid request body".
Definition ErrInvalidRequest : string := "invalid request".
Definition ErrMethodNotAllowed : string := "method not allowed".

(** The text [http.Error] is given: one of the constants, or the
    [Error()] of what the service returned. *)
Inductive ErrorText :=
| Text (s : string)
| ErrorOf (e : ServiceError).

(** What the handler writes: an error with its status code, or, with the
    status 200, the response it encodes as JSON. *)
Inductive Response :=
| Error (text : ErrorText) (code : Z)
| Json (resp : CheckInResponse).

(** What a request takes from its environment: the duplicate window of
    the configuration and the environments of the two service calls. *)
Record HandlerEnv := {
  dupWindow : Z;
  out_env : CheckOutEnv;
  in_env : CheckInEnv
}.

Section Handler.

Variable json_Marshal : DomainEvent -> option Bytes.

(** [json.NewDecoder(r.Body).Decode(&req)]. *)
Variable json_Decode : Bytes -> option CheckInRequest.

(** [HandleCheckIn]. *)
Definition HandleCheckIn (env : HandlerEnv) (r : Request) (db : Database)
    : Response * Database :=
  if negb (String.eqb (Method r) "POST") then
    (Error (Text ErrMethodNotAllowed) StatusMethodNotAllowed, db)
  else
    match json_Decode (Body r) with
    | None => (Error (Text ErrInvalidRequestBody) StatusBadRequest, db)
    | Some req =>
        if String.eqb (EmployeeID req) "" then
          (Error (Text ErrInvalidEmployeeID) StatusBadRequest, db)
        else
          match validateRequest req with
          | Some _ => (Error (Text ErrInvalidRequest) StatusBadRequest, db)
          | None =>
              match CheckOut json_Marshal (dupWindow env) (out_env env)
                      (EmployeeID req) db with
              | (Ok record, db) =>
                  (Json {| Success := true;
                           Message := "Successfully checked out";
                           RecordID := Entities.ID record;
                           Action := "checked_out";
                           HoursWorked := Entities.HoursWorked record |}, db)
              | (Err _, db) =>
                  match CheckIn json_Marshal (in_env env) (EmployeeID req) db with
                  | (Err err, db) =>
                      match err with
                      | ErrEmployeeAlreadyCheckedIn =>
                          (Error (ErrorOf err) StatusConflict, db)
                      | _ => (Error (ErrorOf err) StatusInternalServerError, db)
                      end
                  | (Ok record, db) =>
                      (Json {| Success := true;
                               Message := "Successfully checked in";
                               RecordID := Entities.ID record;
                               Action := "checked_in";
                               HoursWorked := 0%float |}, db)
                  end
              end
          end
    end.

End Handler.

End Http.

(** ** The e-mail client and the e-mail handler
       (infrastructure/external/email_client.go,
        application/handlers/email_handler.go) *)

Module Email.
Import Go Events Handlers.

Record EmailClient := {
  smtpHost : string;
  smtpPort : Z
}.

Definition NewEmailClient (smtpHost : string) (smtpPort : Z) : EmailClient :=
  {| smtpHost := smtpHost; smtpPort := smtpPort |}.

(** The arguments of a call of [smtp.SendMail]; the code joins host and
    port with a colon into the server address, and passes no
    authentication. *)
Record Mail := {
  mail_host : string;
  mail_port : Z;
  mail_from : string;
  mail_to : list string;
  mail_msg : string
}.

Definition CRLF : string :=
  String (Ascii.ascii_of_nat 13) (String (Ascii.ascii_of_nat 10) EmptyString).

Inductive EmailError :=
| ErrSendEmail.   (* "failed to send email: %w" *)

(** [SendEmail]; [send_fails] tells whether [smtp.SendMail] returns an
    error.  The calls of [smtp.SendMail] are logged oldest first, each
    with whether it returned an error. *)
Definition SendEmail (send_fails : bool) (c : EmailClient)
    (employeeID subject body : string) (calls : list (Mail * bool))
    : option EmailError * list (Mail * bool) :=
  let mail := {| mail_host := smtpHost c;
                 mail_port := smtpPort c;
                 mail_from := "noreply@company.com";
                 mail_to := [employeeID +:+ "@company.com"];
                 mail_msg := "Subject: " +:+ subject +:+ CRLF +:+ CRLF +:+ body |} in
  if send_fails then (Some ErrSendEmail, calls ++ [(mail, true)])
  else (None, calls ++ [(mail, false)]).

Inductive NotifierError :=
| ErrUnmarshalEvent            (* "failed to unmarshal event: %w" *)
| ErrNotify (e : EmailError).  (* "failed to send email: %w" *)

Section Notifier.

(** [json.Unmarshal] into an [EmployeeCheckedOutEvent]. *)
Variable json_Unmarshal : Bytes -> option EmployeeCheckedOutEvent.

(** The [fmt.Sprintf] of the body: the template filled with the two times
    in RFC 822 format and the hours with two decimals. *)
Variable Sprintf_body : Time -> Time -> float64 -> string.

Definition subject : string := "Your Work Hours Summary".

(** [EmailNotifier.HandleCheckedOut]. *)
Definition HandleCheckedOut (send_fails : bool) (c : EmailClient) (eventData : Bytes)
    (calls : list (Mail * bool)) : option NotifierError * list (Mail * bool) :=
  match json_Unmarshal eventData with
  | None => (Some ErrUnmarshalEvent, calls)
  | Some event =>
      let body := Sprintf_body (out_CheckInAt event) (out_CheckOutAt event)
                    (out_HoursWorked event) in
      match SendEmail send_fails c (out_EmployeeID event) subject body calls with
      | (Some err, calls) => (Some (ErrNotify err), calls)
      | (None, calls) => (None, calls)
      end
  end.

(** The e-mail worker: its client, the calls of [smtp.SendMail] so far,
    and, for the [i]-th message it handles, whether [smtp.SendMail]
    fails. *)
Record Worker := mkWorker {
  client : EmailClient;
  sendmail : list (Mail * bool);
  send_fails : nat -> bool;
  seen : nat
}.

(** The handler [startEmailWorker] gives to [Consume]. *)
Definition handler (eventData : Bytes) (w : Worker)
    : Outcome (option NotifierError) * Worker :=
  let '(err, calls) :=
    HandleCheckedOut (send_fails w (seen w)) (client w) eventData (sendmail w) in
  (Returned err, mkWorker (client w) calls (send_fails w) (S (seen w))).

(** The mail for an event, and the call of [smtp.SendMail], if any, behind
    the result of handling a delivery. *)
Definition mail_of (c : EmailClient) (event : EmployeeCheckedOutEvent) : Mail :=
  {| mail_host := smtpHost c;
     mail_port := smtpPort c;
     mail_from := "noreply@company.com";
     mail_to := [out_EmployeeID event +:+ "@company.com"];
     mail_msg := "Subject: " +:+ subject +:+ CRLF +:+ CRLF +:+
                 Sprintf_body (out_CheckInAt event) (out_CheckOutAt event)
                   (out_HoursWorked event) |}.

Definition call_behind (c : EmailClient)
    (de : Messaging.Delivery * option NotifierError) : list (Mail * bool) :=
  match json_Unmarshal (Messaging.Body de.1) with
  | None => []
  | Some event => [(mail_of c event, bool_decide (de.2 <> None))]
  end.

(** What the handler returns for a body, given whether [smtp.SendMail]
    fails. *)
Definition result_of (eventData : Bytes) (fails : bool) : option NotifierError :=
  match json_Unmarshal eventData with
  | None => Some ErrUnmarshalEvent
  | Some _ => if fails then Some (ErrNotify ErrSendEmail) else None
  end.

End Notifier.

End Email.

(** * Properties *)

Module GoFacts.
Import Go.

Lemma wrap64_id z : in_int64 z -> wrap64 z = z.
Proof.
  unfold in_int64, wrap64, minInt64, maxInt64. intros H.
  rewrite Z.mod_small by lia. lia.
Qed.

Lemma Time_Sub_range t u : in_int64 (Time_Sub t u).
Proof. unfold in_int64, Time_Sub, minInt64, maxInt64. lia. Qed.

End GoFacts.

(** ** Binary64 arithmetic on small integers

    What the rate limiter needs of [float64]: integers below [2^53] are
    represented exactly, taking one away and comparing them is exact, and
    a refill rate is a finite number.  Proved from the specification of
    the primitive operations. *)

Module FloatFacts.
Import Go.

(** *** Binary digits *)

Lemma digits2_pos_bounds p :
  2 ^ (Z.pos (digits2_pos p) - 1) <= Z.pos p < 2 ^ Z.pos (digits2_pos p).
Proof.
  induction p as [p IH|p IH|]; cbn [digits2_pos].
  - rewrite Pos2Z.inj_succ.
    replace (Z.succ (Z.pos (digits2_pos p)) - 1) with (Z.succ (Z.pos (digits2_pos p) - 1)) by lia.
    rewrite !Z.pow_succ_r by lia. lia.
  - rewrite Pos2Z.inj_succ.
    replace (Z.succ (Z.pos (digits2_pos p)) - 1) with (Z.succ (Z.pos (digits2_pos p) - 1)) by lia.
    rewrite !Z.pow_succ_r by lia. lia.
  - simpl. lia.
Qed.

Lemma digits2_pos_unique p n :
  2 ^ (n - 1) <= Z.pos p < 2 ^ n -> Z.pos (digits2_pos p) = n.
Proof.
  intros [Hlo Hhi]. pose proof (digits2_pos_bounds p) as [Dlo Dhi].
  assert (0 < n).
  { destruct (Z.ltb_spec 0 n); [assumption|].
    assert (2 ^ n <= 2 ^ 0) by (apply Z.pow_le_mono_r; lia). simpl in *. lia. }
  destruct (Z.lt_trichotomy (Z.pos (digits2_pos p)) n) as [Hlt|[Heq|Hgt]]; [|exact Heq|].
  - assert (2 ^ Z.pos (digits2_pos p) <= 2 ^ (n - 1)) by (apply Z.pow_le_mono_r; lia). lia.
  - assert (2 ^ n <= 2 ^ (Z.pos (digits2_pos p) - 1)) by (apply Z.pow_le_mono_r; lia). lia.
Qed.

Lemma Zdigits2_bound m n :
  0 <= n -> 0 <= m < 2 ^ n -> 0 <= Zdigits2 m <= n.
Proof.
  intros Hn [Hlo Hhi]. destruct m as [|p|p]; simpl; [lia| |lia].
  pose proof (digits2_pos_bounds p) as [Dlo _].
  split; [lia|].
  destruct (Z.leb_spec (Z.pos (digits2_pos p)) n); [assumption|].
  assert (2 ^ n <= 2 ^ (Z.pos (digits2_pos p) - 1)) by (apply Z.pow_le_mono_r; lia). lia.
Qed.

Lemma Pos_iter_xO p n : Z.pos (Pos.iter xO p n) = Z.pos p * 2 ^ Z.pos n.
Proof.
  revert p. induction n as [|n IH] using Pos.peano_ind; intros p.
  - simpl. lia.
  - rewrite Pos.iter_succ, Pos2Z.inj_succ, Z.pow_succ_r by lia.
    change (Z.pos (Pos.iter xO p n)~0) with (2 * Z.pos (Pos.iter xO p n)). rewrite IH. lia.
Qed.

(** *** Exact right shifts *)

Lemma shr_1_even m :
  0 < m -> shr_1 (Build_shr_record (m * 2) false false) = Build_shr_record m false false.
Proof. intros H. destruct m as [|p|p]; try lia. rewrite Z.mul_comm. reflexivity. Qed.

Lemma iter_shr_exact n :
  forall m, 0 < m ->
    SpecFloat.iter_pos shr_1 n (Build_shr_record (m * 2 ^ Z.pos n) false false)
      = Build_shr_record m false false.
Proof.
  induction n as [n IH|n IH|]; intros m Hm; cbn [SpecFloat.iter_pos].
  - replace (m * 2 ^ Z.pos n~1) with (((m * 2 ^ Z.pos n) * 2 ^ Z.pos n) * 2).
    2:{ replace (Z.pos n~1) with (Z.pos n + Z.pos n + 1) by lia.
        rewrite !Z.pow_add_r, Z.pow_1_r by lia. ring. }
    assert (0 < 2 ^ Z.pos n) by (apply Z.pow_pos_nonneg; lia).
    rewrite shr_1_even by nia. rewrite IH by nia. apply IH. exact Hm.
  - replace (m * 2 ^ Z.pos n~0) with ((m * 2 ^ Z.pos n) * 2 ^ Z.pos n).
    2:{ replace (Z.pos n~0) with (Z.pos n + Z.pos n) by lia.
        rewrite Z.pow_add_r by lia. ring. }
    assert (0 < 2 ^ Z.pos n) by (apply Z.pow_pos_nonneg; lia).
    rewrite IH by nia. apply IH. exact Hm.
  - rewrite Z.pow_1_r. apply shr_1_even. exact Hm.
Qed.

(** *** Rounding a value that needs none *)

Lemma Zdigits2_pos p : Zdigits2 (Z.pos p) = Z.pos (digits2_pos p).
Proof. reflexivity. Qed.

Lemma Zdigits2_shift m d n :
  0 < m -> Zdigits2 m = d -> 0 <= n -> Zdigits2 (m * 2 ^ n) = d + n.
Proof.
  intros Hm Hd Hn. destruct m as [|p|p]; try lia.
  pose proof (digits2_pos_bounds p) as [Dlo Dhi]. simpl in Hd. rewrite Hd in *.
  assert (Hp : 0 < 2 ^ n) by (apply Z.pow_pos_nonneg; lia).
  destruct (Z.pos p * 2 ^ n) as [|q|q] eqn:Hq; try nia.
  simpl. apply digits2_pos_unique. rewrite <- Hq.
  replace (d + n - 1) with (d - 1 + n) by lia.
  assert (0 < d) by lia.
  rewrite !Z.pow_add_r by lia. nia.
Qed.

(** A mantissa of 53 digits times [2^n], with the exponent lowered by
    [n]: rounding shifts the [n] zero bits out and loses nothing. *)
Lemma binary_round_aux_exact s m e n :
  0 < m -> Zdigits2 m = 53 -> 0 <= n -> -1074 <= e <= 971 ->
  binary_round_aux prec emax s (m * 2 ^ n) (e - n) loc_Exact
    = S754_finite s (Z.to_pos m) e.
Proof.
  intros Hm Hd Hn He.
  unfold binary_round_aux, shr_fexp.
  rewrite (Zdigits2_shift m 53 n Hm Hd Hn).
  replace (fexp prec emax (53 + n + (e - n)) - (e - n)) with n
    by (unfold fexp, SpecFloat.emin, emax, prec; lia).
  assert (Hshr : shr (shr_record_of_loc (m * 2 ^ n) loc_Exact) (e - n) n
                 = (Build_shr_record m false false, e)).
  { unfold shr. destruct n as [|p|p]; try lia.
    - rewrite Z.pow_0_r, Z.mul_1_r, Z.sub_0_r. reflexivity.
    - cbn [shr_record_of_loc]. rewrite iter_shr_exact by exact Hm.
      f_equal. lia. }
  rewrite Hshr. cbn [shr_m loc_of_shr_record round_nearest_even].
  rewrite Hd.
  replace (fexp prec emax (53 + e) - e) with 0
    by (unfold fexp, SpecFloat.emin, emax, prec; lia).
  cbn [shr shr_record_of_loc shr_m].
  destruct m as [|p|p]; try lia.
  replace (e <=? emax - prec) with true; [reflexivity|].
  symmetry. apply Z.leb_le. unfold emax, prec. lia.
Qed.

(** *** The binary64 value of an integer below [2^53] *)

Lemma digits_spec k : 0 < k -> 2 ^ (digits k - 1) <= k < 2 ^ digits k.
Proof.
  intros Hk. unfold digits. pose proof (Z.log2_spec k Hk).
  replace (Z.log2 k + 1 - 1) with (Z.log2 k) by lia.
  replace (Z.log2 k + 1) with (Z.succ (Z.log2 k)) by lia. lia.
Qed.

Lemma digits_range k : 0 < k < 2 ^ 53 -> 1 <= digits k <= 53.
Proof.
  intros [Hk Hlt]. unfold digits. pose proof (Z.log2_nonneg k).
  assert (Z.log2 k < 53); [|lia].
  apply Z.log2_lt_pow2; lia.
Qed.

Lemma Zdigits2_digits k : 0 < k -> Zdigits2 k = digits k.
Proof.
  intros Hk. destruct k as [|p|p]; try lia. simpl.
  apply digits2_pos_unique. apply digits_spec. lia.
Qed.

Lemma mantissa_range k : 0 < k < 2 ^ 53 -> 2 ^ 52 <= mantissa k < 2 ^ 53.
Proof.
  intros Hk. pose proof (digits_range k Hk). pose proof (digits_spec k ltac:(lia)) as [Hlo Hhi].
  unfold mantissa.
  assert (Hp : 0 < 2 ^ (53 - digits k)) by (apply Z.pow_pos_nonneg; lia).
  replace (2 ^ 52) with (2 ^ (digits k - 1) * 2 ^ (53 - digits k)).
  2:{ rewrite <- Z.pow_add_r by lia. f_equal. lia. }
  replace (2 ^ 53) with (2 ^ digits k * 2 ^ (53 - digits k)).
  2:{ rewrite <- Z.pow_add_r by lia. f_equal. lia. }
  nia.
Qed.

Lemma Zdigits2_mantissa k : 0 < k < 2 ^ 53 -> Zdigits2 (mantissa k) = 53.
Proof.
  intros Hk. pose proof (mantissa_range k Hk) as [Hlo Hhi].
  destruct (mantissa k) as [|p|p] eqn:Hm; try lia.
  simpl. apply digits2_pos_unique. simpl (53 - 1). lia.
Qed.

Lemma binary_normalize_int k :
  0 < k < 2 ^ 53 -> binary_normalize prec emax k 0 false = normal k.
Proof.
  intros Hk. pose proof (digits_range k Hk) as Hd.
  destruct k as [|p|p]; try lia.
  unfold binary_normalize, binary_round.
  rewrite <- Zdigits2_pos, (Zdigits2_digits (Z.pos p)) by lia.
  replace (fexp prec emax (digits (Z.pos p) + 0)) with (digits (Z.pos p) - 53)
    by (unfold fexp, SpecFloat.emin, emax, prec; lia).
  unfold shl_align.
  destruct (digits (Z.pos p) - 53 - 0) as [|q|q] eqn:Hq; try lia.
  - pose proof (binary_round_aux_exact false (Z.pos p) 0 0) as H.
    rewrite Z.pow_0_r, Z.mul_1_r, Z.sub_0_r in H. rewrite H; try lia.
    + unfold normal, mantissa, exponent.
      replace (53 - digits (Z.pos p)) with 0 by lia.
      rewrite Z.pow_0_r, Z.mul_1_r. f_equal. lia.
    + rewrite Zdigits2_digits by lia. lia.
  - rewrite Pos_iter_xO.
    replace (Z.pos q) with (53 - digits (Z.pos p)) by lia.
    fold (mantissa (Z.pos p)).
    pose proof (binary_round_aux_exact false (mantissa (Z.pos p)) (digits (Z.pos p) - 53) 0) as H.
    rewrite Z.pow_0_r, Z.mul_1_r, Z.sub_0_r in H. rewrite H; try lia.
    + reflexivity.
    + pose proof (mantissa_range (Z.pos p)). lia.
    + apply Zdigits2_mantissa. lia.
Qed.

Lemma shl_align_value m e e' :
  e' <= e -> Z.pos (fst (shl_align m e e')) = Z.pos m * 2 ^ (e - e').
Proof.
  intros He. unfold shl_align. destruct (e' - e) as [|d|d] eqn:Hd; try lia.
  - replace (e - e') with 0 by lia. simpl. lia.
  - cbn [fst]. rewrite Pos_iter_xO. f_equal. f_equal. lia.
Qed.

Lemma exponent_range k : 0 < k < 2 ^ 53 -> -52 <= exponent k <= 0.
Proof. intros Hk. pose proof (digits_range k Hk). unfold exponent. lia. Qed.

Lemma mantissa_pos k : 0 < k < 2 ^ 53 -> Z.pos (Z.to_pos (mantissa k)) = mantissa k.
Proof. intros Hk. pose proof (mantissa_range k Hk). rewrite Z2Pos.id; lia. Qed.

(** An integer below [2^53] given with 52 extra zero bits. *)
Lemma binary_normalize_scaled j :
  0 < j < 2 ^ 53 -> binary_normalize prec emax (j * 2 ^ 52) (-52) false = normal j.
Proof.
  intros Hj. pose proof (digits_range j Hj) as Hd.
  pose proof (mantissa_range j Hj) as Hm.
  assert (Hval : j * 2 ^ 52 = mantissa j * 2 ^ (digits j - 1)).
  { unfold mantissa. rewrite <- Z.mul_assoc, <- Z.pow_add_r by lia.
    f_equal. f_equal. lia. }
  destruct (j * 2 ^ 52) as [|q|q] eqn:Hq; try lia.
  unfold binary_normalize, binary_round.
  rewrite <- Zdigits2_pos, Hval.
  rewrite (Zdigits2_shift (mantissa j) 53 (digits j - 1)); try lia.
  2:{ apply Zdigits2_mantissa. exact Hj. }
  replace (fexp prec emax (53 + (digits j - 1) + -52)) with (digits j - 53)
    by (unfold fexp, SpecFloat.emin, emax, prec; lia).
  unfold shl_align.
  destruct (digits j - 53 - -52) as [|d|d] eqn:Hsh; try lia.
  - rewrite Hval. replace (-52) with (exponent j - (digits j - 1)) by (unfold exponent; lia).
    rewrite binary_round_aux_exact; try lia; try reflexivity.
    + apply Zdigits2_mantissa. exact Hj.
    + pose proof (exponent_range j Hj). lia.
  - rewrite Hval. replace (-52) with (exponent j - (digits j - 1)) by (unfold exponent; lia).
    rewrite binary_round_aux_exact; try lia; try reflexivity.
    + apply Zdigits2_mantissa. exact Hj.
    + pose proof (exponent_range j Hj). lia.
Qed.

Lemma normal_1 : normal 1 = S754_finite false 4503599627370496 (-52).
Proof. reflexivity. Qed.

(** Subtracting one is exact. *)
Lemma SFsub_normal_one k :
  1 < k < 2 ^ 53 -> SFsub prec emax (normal k) (normal 1) = normal (k - 1).
Proof.
  intros Hk. pose proof (exponent_range k ltac:(lia)) as He.
  rewrite normal_1. unfold normal at 1. unfold SFsub.
  replace (Z.min (exponent k) (-52)) with (-52) by lia.
  cbn [cond_Zopp].
  rewrite !shl_align_value by lia. rewrite mantissa_pos by lia.
  replace (mantissa k * 2 ^ (exponent k - -52)) with (k * 2 ^ 52).
  2:{ unfold mantissa, exponent. pose proof (digits_range k ltac:(lia)).
      rewrite <- Z.mul_assoc, <- Z.pow_add_r by lia. f_equal. f_equal. lia. }
  replace (k * 2 ^ 52 - 4503599627370496 * 2 ^ (-52 - -52)) with ((k - 1) * 2 ^ 52)
    by (replace (4503599627370496 * 2 ^ (-52 - -52)) with (1 * 2 ^ 52) by reflexivity;
        ring).
  apply binary_normalize_scaled. lia.
Qed.

(** Comparison of the values is comparison of the integers. *)
Lemma SFcompare_normal a b :
  0 < a < 2 ^ 53 -> 0 < b < 2 ^ 53 ->
  SFcompare (normal a) (normal b) = Some (a ?= b).
Proof.
  intros Ha Hb. unfold normal, SFcompare. f_equal.
  pose proof (digits_range a Ha) as Hda. pose proof (digits_range b Hb) as Hdb.
  pose proof (digits_spec a ltac:(lia)) as [Alo Ahi].
  pose proof (digits_spec b ltac:(lia)) as [Blo Bhi].
  unfold exponent.
  destruct (Z.compare_spec (digits a - 53) (digits b - 53)) as [Heq|Hlt|Hgt].
  - change (Pos.compare_cont Eq (Z.to_pos (mantissa a)) (Z.to_pos (mantissa b)))
      with (Z.pos (Z.to_pos (mantissa a)) ?= Z.pos (Z.to_pos (mantissa b))).
    rewrite !mantissa_pos by assumption. unfold mantissa.
    replace (digits b) with (digits a) by lia.
    symmetry. apply Zmult_compare_compat_r.
    assert (0 < 2 ^ (53 - digits a)) by (apply Z.pow_pos_nonneg; lia). lia.
  - symmetry. apply Z.compare_lt_iff.
    assert (2 ^ digits a <= 2 ^ (digits b - 1)) by (apply Z.pow_le_mono_r; lia). lia.
  - symmetry. apply Z.compare_gt_iff.
    assert (2 ^ digits b <= 2 ^ (digits a - 1)) by (apply Z.pow_le_mono_r; lia). lia.
Qed.

(** *** A quotient that stays in range *)

Lemma iter_pos_invariant {A : Type} (P : A -> Prop) (f : A -> A) :
  (forall x, P x -> P (f x)) -> forall n x, P x -> P (SpecFloat.iter_pos f n x).
Proof.
  intros Hf. induction n as [n IH|n IH|]; intros x Hx; cbn [SpecFloat.iter_pos]; auto.
Qed.

Lemma shr_1_bounded M r : 0 <= shr_m r <= M -> 0 <= shr_m (shr_1 r) <= M.
Proof.
  destruct r as [m r s]. cbn [shr_m]. intros Hm.
  destruct m as [|[p|p|]|p]; cbn [shr_1 shr_m]; lia.
Qed.

Lemma shr_fexp_bounded M m e l :
  0 <= m <= M ->
  0 <= shr_m (fst (shr_fexp prec emax m e l)) <= M /\
  snd (shr_fexp prec emax m e l) = Z.max e (fexp prec emax (Zdigits2 m + e)).
Proof.
  intros Hm. unfold shr_fexp, shr.
  assert (H0 : shr_m (shr_record_of_loc m l) = m) by (destruct l as [|[| |]]; reflexivity).
  destruct (fexp prec emax (Zdigits2 m + e) - e) as [|p|p] eqn:Hn; cbn [fst snd].
  - rewrite H0. lia.
  - split; [|lia].
    apply (iter_pos_invariant (fun r => 0 <= shr_m r <= M)).
    + intros x. apply shr_1_bounded.
    + rewrite H0. exact Hm.
  - rewrite H0. lia.
Qed.

Lemma round_nearest_even_bounded m l :
  m <= round_nearest_even m l <= m + 1.
Proof. destruct l as [|[| |]]; cbn [round_nearest_even]; try lia. destruct (Z.even m); lia. Qed.

(** Rounding a non-negative mantissa below [2^N] at a small exponent gives
    a zero or a finite number of the given sign: neither an infinity nor a
    NaN. *)
Lemma binary_round_aux_finite s m e l N :
  0 <= N -> 0 <= m < 2 ^ N -> 2 * N + e <= 900 -> N <= 400 -> e <= 400 ->
  (exists s', binary_round_aux prec emax s m e l = S754_zero s' /\ s' = s) \/
  (exists m' e', binary_round_aux prec emax s m e l = S754_finite s m' e').
Proof.
  intros HN Hm Hb HN' He. unfold binary_round_aux.
  pose proof (shr_fexp_bounded m m e l ltac:(lia)) as [Hm1 He1].
  pose proof (Zdigits2_bound m N HN Hm) as Hd.
  destruct (shr_fexp prec emax m e l) as [r1 e1]. cbn [fst snd] in Hm1, He1.
  pose proof (round_nearest_even_bounded (shr_m r1) (loc_of_shr_record r1)) as Hr.
  set (mr := round_nearest_even (shr_m r1) (loc_of_shr_record r1)) in *.
  pose proof (shr_fexp_bounded mr mr e1 loc_Exact ltac:(lia)) as [Hm2 He2].
  assert (Hdr : 0 <= Zdigits2 mr <= N + 1).
  { apply Zdigits2_bound; [lia|]. rewrite Z.pow_add_r, Z.pow_1_r by lia. lia. }
  destruct (shr_fexp prec emax mr e1 loc_Exact) as [r2 e2]. cbn [fst snd] in Hm2, He2.
  destruct (shr_m r2) as [|p|p]; try lia.
  - left. eauto.
  - right. replace (e2 <=? emax - prec) with true; [eauto|].
    symmetry. apply Z.leb_le. subst e2 e1.
    unfold fexp, SpecFloat.emin, emax, prec in *. lia.
Qed.

Lemma SFdiv_normal_finite mx ex my ey :
  Zdigits2 (Z.pos mx) = 53 -> Zdigits2 (Z.pos my) = 53 ->
  -100 <= ex <= 100 -> -100 <= ey <= 100 ->
  SFdiv prec emax (S754_finite false mx ex) (S754_finite false my ey) = S754_zero false \/
  exists m e, SFdiv prec emax (S754_finite false mx ex) (S754_finite false my ey)
              = S754_finite false m e.
Proof.
  intros Hdx Hdy Hex Hey. unfold SFdiv, SFdiv_core_binary.
  rewrite Hdx, Hdy.
  replace (Z.min (fexp prec emax (53 + ex - (53 + ey))) (ex - ey)) with (ex - ey - 53)
    by (unfold fexp, SpecFloat.emin, emax, prec; lia).
  replace (ex - ey - (ex - ey - 53)) with 53 by lia.
  cbv beta iota.
  assert (Hsh : Z.shiftl (Z.pos mx) 53 = Z.pos mx * 2 ^ 53) by (apply Z.shiftl_mul_pow2; lia).
  rewrite Hsh.
  pose proof (Z_div_mod (Z.pos mx * 2 ^ 53) (Z.pos my) ltac:(lia)) as Hdiv.
  destruct (Z.div_eucl (Z.pos mx * 2 ^ 53) (Z.pos my)) as [q r].
  destruct Hdiv as [Hqr Hr].
  pose proof (digits2_pos_bounds mx) as [_ Hmx]. simpl in Hdx. rewrite Hdx in Hmx.
  assert (Hq : 0 <= q < 2 ^ 106).
  { change (2 ^ 106) with (2 ^ 53 * 2 ^ 53). nia. }
  destruct (binary_round_aux_finite (xorb false false) q (ex - ey - 53)
              (new_location (Z.pos my) r) 106)
    as [(s' & -> & ->)|(m' & e' & ->)]; try lia; eauto.
Qed.

(** *** Integers below [2^53] as [float64] *)

Lemma float64_of_int_nonneg k :
  0 <= k < 2 ^ 53 -> float64_of_int k = PrimFloat.of_uint63 (Uint63.of_Z k).
Proof.
  intros Hk. unfold float64_of_int. rewrite Z.abs_eq by lia.
  destruct (Z.ltb_spec k (2 ^ 63)); [|lia].
  destruct (Z.ltb_spec k 0); [lia|reflexivity].
Qed.

Lemma to_Z_of_Z k : 0 <= k < 2 ^ 53 -> Uint63.to_Z (Uint63.of_Z k) = k.
Proof.
  intros Hk. rewrite Uint63.of_Z_spec. apply Z.mod_small.
  change Uint63.wB with (2 ^ 63). lia.
Qed.

Lemma Prim2SF_int k : 0 < k < 2 ^ 53 -> Prim2SF (float64_of_int k) = normal k.
Proof.
  intros Hk. rewrite float64_of_int_nonneg by lia.
  rewrite of_uint63_spec, to_Z_of_Z by lia. apply binary_normalize_int. exact Hk.
Qed.

Lemma Prim2SF_int_0 : Prim2SF (float64_of_int 0) = S754_zero false.
Proof. reflexivity. Qed.

Lemma Prim2SF_one : Prim2SF 1%float = normal 1.
Proof. reflexivity. Qed.

(** Taking a token from [k] leaves [k - 1]. *)
Lemma sub_one_exact k :
  1 <= k < 2 ^ 53 ->
  PrimFloat.sub (float64_of_int k) 1%float = float64_of_int (k - 1).
Proof.
  intros Hk. apply Prim2SF_inj. rewrite FloatAxioms.sub_spec, Prim2SF_one.
  destruct (Z.eq_dec k 1) as [->|Hne].
  - reflexivity.
  - rewrite !Prim2SF_int by lia. apply SFsub_normal_one. lia.
Qed.

Lemma leb_one_int k :
  0 <= k < 2 ^ 53 -> PrimFloat.leb 1%float (float64_of_int k) = (1 <=? k).
Proof.
  intros Hk. rewrite FloatAxioms.leb_spec, Prim2SF_one.
  destruct (Z.eq_dec k 0) as [->|Hne]; [reflexivity|].
  rewrite Prim2SF_int by lia. unfold SFleb.
  rewrite SFcompare_normal by lia.
  unfold Z.leb. destruct (1 ?= k); reflexivity.
Qed.

Lemma ltb_int a b :
  0 <= a < 2 ^ 53 -> 0 <= b < 2 ^ 53 ->
  PrimFloat.ltb (float64_of_int a) (float64_of_int b) = (a <? b).
Proof.
  intros Ha Hb. rewrite FloatAxioms.ltb_spec. unfold SFltb, Z.ltb.
  destruct (Z.eq_dec a 0) as [->|Hna]; destruct (Z.eq_dec b 0) as [->|Hnb].
  - reflexivity.
  - rewrite Prim2SF_int_0, Prim2SF_int by lia. unfold normal, SFcompare.
    destruct (Z.compare_spec 0 b); try lia; reflexivity.
  - rewrite Prim2SF_int_0, Prim2SF_int by lia. unfold normal, SFcompare.
    destruct (Z.compare_spec a 0); try lia; reflexivity.
  - rewrite !Prim2SF_int by lia. rewrite SFcompare_normal by lia. reflexivity.
Qed.

Lemma Prim2SF_sixty : Prim2SF 60%float = S754_finite false 8444249301319680 (-47).
Proof. reflexivity. Qed.

(** The refill rate of a limiter of capacity [c] is a finite number that
    is not negative. *)
Lemma rate_finite c :
  0 < c < 2 ^ 53 ->
  Prim2SF (PrimFloat.div (float64_of_int c) 60%float) = S754_zero false \/
  exists m e, Prim2SF (PrimFloat.div (float64_of_int c) 60%float) = S754_finite false m e.
Proof.
  intros Hc. rewrite FloatAxioms.div_spec, Prim2SF_sixty, Prim2SF_int by exact Hc.
  unfold normal. apply SFdiv_normal_finite.
  - rewrite mantissa_pos by exact Hc. apply Zdigits2_mantissa. exact Hc.
  - reflexivity.
  - pose proof (exponent_range c Hc). lia.
  - lia.
Qed.

Lemma mul_zero_rate c :
  0 < c < 2 ^ 53 ->
  PrimFloat.mul 0%float (PrimFloat.div (float64_of_int c) 60%float) = 0%float.
Proof.
  intros Hc. apply Prim2SF_inj. rewrite FloatAxioms.mul_spec.
  change (Prim2SF 0%float) with (S754_zero false).
  destruct (rate_finite c Hc) as [->|(m & e & ->)]; reflexivity.
Qed.

Lemma add_zero_int k :
  0 <= k < 2 ^ 53 -> PrimFloat.add (float64_of_int k) 0%float = float64_of_int k.
Proof.
  intros Hk. apply Prim2SF_inj. rewrite FloatAxioms.add_spec.
  change (Prim2SF 0%float) with (S754_zero false).
  destruct (Z.eq_dec k 0) as [->|Hne]; [reflexivity|].
  rewrite Prim2SF_int by lia. reflexivity.
Qed.

End FloatFacts.

Module RateLimiterProofs.
Import Go GoFacts FloatFacts RateLimiter.

Lemma NewRateLimiter_bucket c t0 : NewRateLimiter c t0 = bucket c c t0 false.
Proof. reflexivity. Qed.

Lemma Time_Sub_diag t : Time_Sub t t = 0.
Proof. unfold Time_Sub. rewrite Z.sub_diag. reflexivity. Qed.

(** No time has passed since the last refill: the refill adds nothing. *)
Lemma refill_at_rest c k t0 held :
  0 < c < 2 ^ 53 -> 0 <= k <= c ->
  refill t0 (bucket c k t0 held) = bucket c k t0 held.
Proof.
  intros Hc Hk. unfold refill, bucket.
  cbn [tokens maxTokens refillRate lastRefillAt mu].
  rewrite Time_Sub_diag.
  change (Duration_Seconds 0) with 0%float.
  rewrite mul_zero_rate by exact Hc.
  rewrite add_zero_int by lia.
  unfold min. rewrite ltb_int by lia.
  destruct (Z.ltb_spec k c); [reflexivity|].
  replace k with c by lia. reflexivity.
Qed.

(** A call on a limiter that holds a token takes it and returns at once,
    whatever its wait budget. *)
Lemma WaitForToken_takes c k t0 fuel maxWait :
  0 < c < 2 ^ 53 -> 1 <= k <= c ->
  WaitForToken (S fuel) maxWait (mkWorld (bucket c k t0 false) t0)
    = (Returned 0 None, mkWorld (bucket c (k - 1) t0 false) t0).
Proof.
  intros Hc Hk. cbn [WaitForToken limiter clock].
  change (mu (bucket c k t0 false)) with false. cbv iota.
  change (set_mu true (bucket c k t0 false)) with (bucket c k t0 true).
  rewrite refill_at_rest by lia.
  cbn [bucket tokens maxTokens refillRate lastRefillAt mu].
  rewrite leb_one_int by lia.
  destruct (Z.leb_spec 1 k); [|lia].
  rewrite sub_one_exact by lia. reflexivity.
Qed.

Lemma calls_take c t0 fuel budgets :
  forall k,
    0 < c < 2 ^ 53 -> Z.of_nat (length budgets) <= k <= c ->
    calls (S fuel) budgets (mkWorld (bucket c k t0 false) t0)
      = (map (fun _ => Returned 0 None) budgets,
         mkWorld (bucket c (k - Z.of_nat (length budgets)) t0 false) t0).
Proof.
  induction budgets as [|b budgets IH]; intros k Hc Hk.
  - simpl. rewrite Z.sub_0_r. reflexivity.
  - cbn [calls]. cbn [length] in Hk.
    rewrite WaitForToken_takes by lia.
    rewrite IH by lia. cbn [map length]. do 3 f_equal. lia.
Qed.

(** A call on an empty limiter at rest. *)
Lemma WaitForToken_empty c t0 fuel maxWait :
  0 < c < 2 ^ 53 ->
  let waitDuration := wait_for_deficit (bucket c 0 t0 true) in
  let slept := wrap64 (waitDuration + buffer) in
  WaitForToken (S fuel) maxWait (mkWorld (bucket c 0 t0 false) t0) =
    if maxWait <? waitDuration then
      (Returned 0 (Some (ErrRateLimit waitDuration maxWait)),
       mkWorld (bucket c 0 t0 false) t0)
    else
      after_retry slept
        (WaitForToken fuel (wrap64 (maxWait - waitDuration))
           (mkWorld (bucket c 0 t0 true) (Sleep slept t0))).
Proof.
  intros Hc waitDuration slept. cbn [WaitForToken limiter clock].
  change (mu (bucket c 0 t0 false)) with false. cbv iota.
  change (set_mu true (bucket c 0 t0 false)) with (bucket c 0 t0 true).
  rewrite refill_at_rest by lia.
  replace (PrimFloat.leb 1 (tokens (bucket c 0 t0 true))) with false
    by (cbn [bucket tokens]; rewrite leb_one_int by lia; reflexivity).
  fold waitDuration. fold slept.
  destruct (maxWait <? waitDuration); reflexivity.
Qed.

(** A call that finds the mutex held waits for it; this is where the
    nested call of the wait path ends up, since the caller still holds the
    mutex it took. *)
Lemma WaitForToken_held fuel maxWait w :
  mu (limiter w) = true ->
  WaitForToken (S fuel) maxWait w = (BlockedOnLock, w).
Proof. intros Hmu. cbn [WaitForToken]. rewrite Hmu. reflexivity. Qed.

(** Two units of fuel are enough for every call. *)
Lemma WaitForToken_fuel fuel maxWait w :
  fst (WaitForToken (S (S fuel)) maxWait w) <> OutOfFuel.
Proof.
  cbn [WaitForToken]. destruct (mu (limiter w)); [discriminate|].
  destruct (PrimFloat.leb _ _); [discriminate|].
  destruct (_ <? _); [discriminate|].
  match goal with
  | |- context [after_retry _ (if ?b then _ else _)] => change b with true
  end.
  cbn [after_retry fst]. discriminate.
Qed.

(** X1. A call on an empty limiter at rest whose computed wait fits the
    budget never returns: it sleeps for the computed wait plus the buffer
    and then waits, in the nested call, for the mutex it holds itself. *)
Theorem WaitForToken_wait_path_blocks (c : Z) (t0 : Time) (fuel : nat)
    (maxWait : Duration) :
  1 <= c < 2 ^ 53 ->
  let waitDuration := wait_for_deficit (bucket c 0 t0 true) in
  waitDuration <= maxWait ->
  WaitForToken (S (S fuel)) maxWait (mkWorld (bucket c 0 t0 false) t0)
    = (BlockedOnLock,
       mkWorld (bucket c 0 t0 true) (Sleep (wrap64 (waitDuration + buffer)) t0)).
Proof.
  intros Hc waitDuration Hfits.
  rewrite WaitForToken_empty by lia. fold waitDuration.
  destruct (Z.ltb_spec maxWait waitDuration); [lia|].
  rewrite WaitForToken_held by reflexivity. reflexivity.
Qed.

(** The theorem for a limiter of 60 requests per minute and a budget of
    five seconds: the clock is 1.1 seconds on when the call blocks. *)
Lemma WaitForToken_wait_path_blocks_witness :
  WaitForToken 2 (5 * Second) (mkWorld (bucket 60 0 0 false) 0)
    = (BlockedOnLock, mkWorld (bucket 60 0 0 true) (1100 * Millisecond)).
Proof.
  refine (eq_trans (WaitForToken_wait_path_blocks 60 0 0 (5 * Second)
                      ltac:(lia) _) _).
  - vm_compute. discriminate.
  - vm_compute. reflexivity.
Defined.

(** C3, as the code has it.  On a fresh limiter of capacity [c], with
    [1 <= c < 2^53] so that [float64] counts the tokens exactly, [c] calls
    made while the clock stands still each return a zero wait and no
    error, whatever their budgets, and leave the limiter empty.  The next
    such call computes the wait for one token; if that exceeds [maxWait] it
    returns an error at once, the clock and the limiter as they were;
    otherwise it sleeps for the computed wait plus the buffer of 100 ms
    and then calls [WaitForToken] again, the mutex still held, with the
    budget [maxWait - waitDuration]. *)
Theorem WaitForToken_fresh_limiter (c : Z) (t0 : Time) (fuel : nat)
    (budgets : list Duration) (maxWait : Duration) :
  1 <= c < 2 ^ 53 ->
  Z.of_nat (length budgets) = c ->
  let fresh := mkWorld (NewRateLimiter c t0) t0 in
  let empty := mkWorld (bucket c 0 t0 false) t0 in
  let waitDuration := wait_for_deficit (bucket c 0 t0 true) in
  let slept := wrap64 (waitDuration + buffer) in
  calls (S fuel) budgets fresh = (map (fun _ => Returned 0 None) budgets, empty) /\
  WaitForToken (S fuel) maxWait empty =
    if maxWait <? waitDuration then
      (Returned 0 (Some (ErrRateLimit waitDuration maxWait)), empty)
    else
      after_retry slept
        (WaitForToken fuel (wrap64 (maxWait - waitDuration))
           (mkWorld (bucket c 0 t0 true) (Sleep slept t0))).
Proof.
  intros Hc Hlen fresh empty waitDuration slept. split.
  - unfold fresh. rewrite NewRateLimiter_bucket, calls_take by lia.
    unfold empty. do 3 f_equal. lia.
  - apply WaitForToken_empty. lia.
Qed.

(** The theorem for a limiter of three requests per minute: three calls
    at once succeed, and a fourth with a budget of one second fails at
    once, the computed wait being twenty seconds. *)
Lemma WaitForToken_fresh_limiter_witness :
  let fresh := mkWorld (NewRateLimiter 3 0) 0 in
  let empty := mkWorld (bucket 3 0 0 false) 0 in
  calls 2 [0; 0; 0] fresh
    = ([Returned 0 None; Returned 0 None; Returned 0 None], empty) /\
  WaitForToken 2 (1 * Second) empty
    = (Returned 0 (Some (ErrRateLimit (20 * Second) (1 * Second))), empty).
Proof.
  intros fresh empty.
  destruct (WaitForToken_fresh_limiter 3 0 1 [0; 0; 0] (1 * Second)
              ltac:(lia) eq_refl) as [Hcalls Hnext].
  split; [exact Hcalls|].
  refine (eq_trans Hnext _). vm_compute. reflexivity.
Defined.

(** C3 as stated fails on the code.  A limiter of 60 requests per minute
    has served 60 immediate calls; the next call, with a budget of five
    seconds, computes a wait of one second, which fits.  It then sleeps for
    1.1 seconds, not for the computed second, and it never returns: the
    nested call waits for the mutex that the sleeping call holds. *)
Lemma WaitForToken_oversleeps_and_blocks :
  let fresh := mkWorld (NewRateLimiter 60 0) 0 in
  let empty := snd (calls 2 (repeat 0 60) fresh) in
  let waitDuration := wait_for_deficit (set_mu true (limiter empty)) in
  let next := WaitForToken 2 (5 * Second) empty in
  tokens (limiter empty) = 0%float /\
  waitDuration = 1 * Second /\
  waitDuration <= 5 * Second /\
  clock (snd next) - clock empty = 1 * Second + 100 * Millisecond /\
  clock (snd next) - clock empty <> waitDuration /\
  fst next = BlockedOnLock.
Proof. vm_compute. repeat split; congruence. Qed.

End RateLimiterProofs.

Module CircuitBreakerProofs.
Import Go GoFacts CircuitBreaker.

(** The configuration fields are never written. *)
Lemma RecordFailure_config now cb :
  failureThreshold (RecordFailure now cb) = failureThreshold cb /\
  successThreshold (RecordFailure now cb) = successThreshold cb /\
  timeout (RecordFailure now cb) = timeout cb.
Proof. unfold RecordFailure; simpl. destruct (_ <=? _); auto. Qed.

(** What one failure does to the mutable fields. *)
Lemma RecordFailure_fields now cb :
  let cb' := RecordFailure now cb in
  failureCount cb' = wrap64 (failureCount cb + 1) /\
  successCount cb' = 0 /\
  lastFailureTime cb' = now /\
  state cb' =
    (if failureThreshold cb <=? wrap64 (failureCount cb + 1)
     then StateOpen else state cb).
Proof. unfold RecordFailure; simpl. destruct (_ <=? _); auto. Qed.

(** After a non-empty run of failures that does not overflow the counter,
    the counter has grown by the number of calls, the last failure time is
    the last clock reading, and the breaker is open exactly when the
    counter reached the threshold at the last call. *)
Lemma RecordFailures_fields times :
  forall cb t0,
    0 <= failureCount cb ->
    failureCount cb + Z.of_nat (length times) <= maxInt64 ->
    let cb' := RecordFailures times cb in
    failureCount cb' = failureCount cb + Z.of_nat (length times) /\
    failureThreshold cb' = failureThreshold cb /\
    successThreshold cb' = successThreshold cb /\
    timeout cb' = timeout cb /\
    (times <> [] ->
       successCount cb' = 0 /\
       lastFailureTime cb' = List.last times t0 /\
       (failureThreshold cb <= failureCount cb' -> state cb' = StateOpen)).
Proof.
  induction times as [|t times IH]; intros cb t0 Hpos Hmax.
  - simpl. split; [lia|]. do 3 (split; [reflexivity|]).
    intros Hne. now contradict Hne.
  - cbn [RecordFailures fold_left length] in *.
    change (fold_left (fun cb t => RecordFailure t cb) times (RecordFailure t cb))
      with (RecordFailures times (RecordFailure t cb)).
    destruct (RecordFailure_fields t cb) as (Hfc & Hsc & Hlt & Hst).
    destruct (RecordFailure_config t cb) as (Hft & Hsth & Hto).
    assert (Hw : wrap64 (failureCount cb + 1) = failureCount cb + 1).
    { apply wrap64_id. unfold in_int64, minInt64, maxInt64 in *. lia. }
    rewrite Hw in *.
    destruct (IH (RecordFailure t cb) t0) as (IHfc & IHft & IHsth & IHto & IHne).
    { lia. } { lia. }
    split; [lia|]. do 3 (split; [congruence|]).
    intros _. destruct times as [|t' times'].
    + simpl in *. split; [exact Hsc|]. split; [exact Hlt|].
      intros Hthr. rewrite Hst.
      destruct (Z.leb_spec (failureThreshold cb) (failureCount cb + 1)); [reflexivity|lia].
    + destruct IHne as (Hs & Hl & Ho); [discriminate|].
      split; [exact Hs|]. split; [exact Hl|].
      intros Hthr. apply Ho. rewrite Hft. exact Hthr.
Qed.

Lemma RecordSuccess_half cb :
  state cb = StateHalf ->
  RecordSuccess cb =
    (if successThreshold cb <=? wrap64 (successCount cb + 1)
     then mkCB StateClosed 0 0 (lastFailureTime cb)
            (failureThreshold cb) (successThreshold cb) (timeout cb)
     else mkCB StateHalf 0 (wrap64 (successCount cb + 1)) (lastFailureTime cb)
            (failureThreshold cb) (successThreshold cb) (timeout cb)).
Proof.
  destruct cb as [s fc sc lt ft st to]; simpl. intros ->.
  unfold RecordSuccess; simpl. destruct (_ <=? _); reflexivity.
Qed.

(** In HALF, with [n] successes still missing to reach the threshold, the
    breaker stays in HALF for fewer than [n] successes and is closed, with
    both counters at zero, by the [n]-th. *)
Lemma RecordSuccesses_half n :
  forall cb,
    state cb = StateHalf ->
    0 <= successCount cb ->
    successThreshold cb <= maxInt64 ->
    successCount cb + Z.of_nat (S n) = successThreshold cb ->
    (forall k, (k <= n)%nat -> state (RecordSuccesses k cb) = StateHalf) /\
    RecordSuccesses (S n) cb =
      mkCB StateClosed 0 0 (lastFailureTime cb)
        (failureThreshold cb) (successThreshold cb) (timeout cb).
Proof.
  induction n as [|n IH]; intros cb Hs Hpos Hmax Hsum.
  - split.
    + intros k Hk. replace k with O by lia. exact Hs.
    + simpl. rewrite (RecordSuccess_half cb Hs).
      rewrite wrap64_id by (unfold in_int64, minInt64, maxInt64 in *; lia).
      destruct (Z.leb_spec (successThreshold cb) (successCount cb + 1)); [reflexivity|lia].
  - assert (Hone : RecordSuccess cb =
        mkCB StateHalf 0 (successCount cb + 1) (lastFailureTime cb)
          (failureThreshold cb) (successThreshold cb) (timeout cb)).
    { rewrite (RecordSuccess_half cb Hs).
      rewrite wrap64_id by (unfold in_int64, minInt64, maxInt64 in *; lia).
      destruct (Z.leb_spec (successThreshold cb) (successCount cb + 1)); [lia|reflexivity]. }
    destruct (IH (RecordSuccess cb)) as [IHk IHc].
    { rewrite Hone; reflexivity. }
    { rewrite Hone; simpl; lia. }
    { rewrite Hone; simpl; lia. }
    { rewrite Hone; simpl. lia. }
    split.
    + intros [|k] Hk; [exact Hs|]. simpl. apply IHk. lia.
    + change (RecordSuccesses (S (S n)) cb)
        with (RecordSuccesses (S n) (RecordSuccess cb)).
      rewrite IHc, Hone. reflexivity.
Qed.

(** C4. Starting from a closed breaker, [failureThreshold] consecutive
    failures open it; while open, [CanExecute] answers false and changes
    nothing as long as the time since the last failure does not exceed the
    reset timeout; the first [CanExecute] after that answers true and
    moves the breaker to HALF; from there it stays in HALF for fewer than
    [successThreshold] consecutive successes and the [successThreshold]-th
    closes it with both counters cleared. *)
Theorem breaker_trip_probe_recover (cb : CircuitBreaker) (times : list Time) :
  state cb = StateClosed ->
  0 <= failureCount cb ->
  1 <= failureThreshold cb ->
  failureCount cb + failureThreshold cb <= maxInt64 ->
  1 <= successThreshold cb <= maxInt64 ->
  Z.of_nat (length times) = failureThreshold cb ->
  let opened := RecordFailures times cb in
  let tlast := List.last times zeroTime in
  state opened = StateOpen /\
  (forall now, Since now tlast <= timeout cb ->
     CanExecute now opened = ((false, Some ErrCircuitOpen), opened)) /\
  (forall now, timeout cb < Since now tlast ->
     let probe := CanExecute now opened in
     fst probe = (true, None) /\
     state (snd probe) = StateHalf /\
     (forall k, (k < Z.to_nat (successThreshold cb))%nat ->
        state (RecordSuccesses k (snd probe)) = StateHalf) /\
     let closed := RecordSuccesses (Z.to_nat (successThreshold cb)) (snd probe) in
     state closed = StateClosed /\
     failureCount closed = 0 /\
     successCount closed = 0).
Proof.
  intros Hclosed Hfc Hft Hmax Hst Hlen opened tlast.
  destruct (RecordFailures_fields times cb zeroTime Hfc) as (Hc & Hthr & Hsth & Hto & Hne).
  { lia. }
  destruct Hne as (Hsc & Hlast & Hopen).
  { destruct times; [simpl in Hlen; lia|discriminate]. }
  fold opened in Hc, Hthr, Hsth, Hto, Hsc, Hlast, Hopen.
  assert (Hstate : state opened = StateOpen) by (apply Hopen; lia).
  split; [exact Hstate|]. split.
  - intros now Hnow. unfold CanExecute. rewrite Hstate, Hlast, Hto.
    fold tlast. destruct (Z.ltb_spec (timeout cb) (Since now tlast)); [lia|reflexivity].
  - intros now Hnow. unfold CanExecute. rewrite Hstate, Hlast, Hto.
    fold tlast. destruct (Z.ltb_spec (timeout cb) (Since now tlast)); [|lia].
    cbn [fst snd]. split; [reflexivity|]. split; [reflexivity|].
    set (half := set_failureCount 0 (set_state StateHalf opened)).
    destruct (Z.to_nat (successThreshold cb)) as [|n] eqn:En; [lia|].
    destruct (RecordSuccesses_half n half) as [Hk Hcl].
    { reflexivity. }
    { simpl. lia. }
    { simpl. lia. }
    { simpl. rewrite Hsc, Hsth. lia. }
    split.
    + intros k Hlt. apply Hk. lia.
    + rewrite Hcl. simpl. auto.
Qed.

(** The theorem applied to the breaker the labor-cost worker builds with
    its default configuration (five failures, one success, sixty seconds). *)
Lemma breaker_trip_probe_recover_witness :
  let cb := NewCircuitBreaker 5 1 (60 * Second) in
  let times := [1 * Second; 2 * Second; 3 * Second; 4 * Second; 5 * Second] in
  let opened := RecordFailures times cb in
  let tlast := List.last times zeroTime in
  state opened = StateOpen /\
  (forall now, Since now tlast <= timeout cb ->
     CanExecute now opened = ((false, Some ErrCircuitOpen), opened)) /\
  (forall now, timeout cb < Since now tlast ->
     let probe := CanExecute now opened in
     fst probe = (true, None) /\
     state (snd probe) = StateHalf /\
     (forall k, (k < Z.to_nat (successThreshold cb))%nat ->
        state (RecordSuccesses k (snd probe)) = StateHalf) /\
     let closed := RecordSuccesses (Z.to_nat (successThreshold cb)) (snd probe) in
     state closed = StateClosed /\
     failureCount closed = 0 /\
     successCount closed = 0).
Proof.
  apply (breaker_trip_probe_recover (NewCircuitBreaker 5 1 (60 * Second))
           [1 * Second; 2 * Second; 3 * Second; 4 * Second; 5 * Second]);
    simpl; unfold maxInt64; try reflexivity; lia.
Defined.

(** In HALF a failure opens the breaker only when the failure counter,
    which [CanExecute] cleared on entering HALF, reaches the failure
    threshold with this failure. *)
Lemma RecordFailure_half_state now cb :
  state cb = StateHalf ->
  in_int64 (failureCount cb + 1) ->
  state (RecordFailure now cb) =
    (if failureThreshold cb <=? failureCount cb + 1 then StateOpen else StateHalf).
Proof.
  intros Hs Hr. destruct (RecordFailure_fields now cb) as (_ & _ & _ & H).
  rewrite H, wrap64_id, Hs by exact Hr. reflexivity.
Qed.

(** C1 on the code.  A breaker with failure threshold 5 is opened by five
    failures and probed after the reset timeout, which puts it in HALF; the
    next failure leaves it in HALF, with a failure count of one, instead of
    opening it. *)
Theorem RecordFailure_half_stays_half :
  let cb := NewCircuitBreaker 5 1 (60 * Second) in
  let opened :=
    RecordFailures [1 * Second; 2 * Second; 3 * Second; 4 * Second; 5 * Second] cb in
  let half := snd (CanExecute (66 * Second) opened) in
  let after := RecordFailure (67 * Second) half in
  state opened = StateOpen /\
  state half = StateHalf /\
  state after = StateHalf /\
  failureCount after = 1 /\
  fst (CanExecute (68 * Second) after) = (true, None).
Proof. vm_compute. repeat split; reflexivity. Qed.

End CircuitBreakerProofs.

Module HandlersProofs.
Import Go GoFacts Events Handlers.

Section Retry.

Context {W E : Type}.
Variable json_Unmarshal : Bytes -> option EmployeeCheckedOutEvent.
Variable RecordLaborCost : string -> float64 -> W -> option E * W.

Local Abbreviation loop := (retry_loop RecordLaborCost).
Local Abbreviation op ev w := (RecordLaborCost (out_EmployeeID ev) (out_HoursWorked ev) w).
Local Abbreviation after ev := (after_calls RecordLaborCost (out_EmployeeID ev) (out_HoursWorked ev)).
Local Abbreviation failing ev := (fails_first RecordLaborCost (out_EmployeeID ev) (out_HoursWorked ev)).

(** [n] failing calls followed by a successful one, all within the
    attempts that remain: the loop returns nil after sleeping [n] times. *)
Lemma retry_loop_succeeds cfg ev n :
  forall fuel attempt backoff st,
    (n < fuel)%nat ->
    0 <= attempt ->
    attempt + Z.of_nat n < MaxAttempts cfg ->
    MaxAttempts cfg <= maxInt64 ->
    failing ev n (world st) = true ->
    fst (op ev (after ev n (world st))) = None ->
    loop cfg ev fuel attempt backoff st =
      (Returned None,
       mkHState (after ev (S n) (world st))
                (sleeps st ++ backoffs_from cfg backoff n)).
Proof.
  induction n as [|n IH]; intros fuel attempt backoff st Hfuel Hat Hlt Hmax Hfail Hok.
  - destruct fuel as [|fuel]; [lia|]. cbn [retry_loop].
    destruct (Z.ltb_spec attempt (MaxAttempts cfg)); [|lia].
    simpl in Hok |- *. destruct (op ev (world st)) as [r w] eqn:Hop.
    simpl in Hok. subst r. rewrite app_nil_r. reflexivity.
  - destruct fuel as [|fuel]; [lia|]. cbn [retry_loop].
    destruct (Z.ltb_spec attempt (MaxAttempts cfg)); [|lia].
    cbn [fails_first after_calls] in Hfail, Hok |- *.
    destruct (op ev (world st)) as [r w] eqn:Hop. cbn [fst snd] in *.
    destruct r as [e|]; [|discriminate].
    rewrite wrap64_id by (unfold in_int64, minInt64, maxInt64 in *; lia).
    destruct (Z.leb_spec (MaxAttempts cfg) (attempt + 1)); [lia|].
    cbn [world sleeps].
    rewrite (IH fuel (attempt + 1) (next_backoff cfg backoff)
               (mkHState w (sleeps st ++ [backoff]))); cbn [world sleeps];
      try lia; try assumption.
    rewrite <- app_assoc. reflexivity.
Qed.

(** [n + 1] failing calls that use up the attempts: the loop returns the
    last error wrapped with the attempt count, after sleeping [n] times. *)
Lemma retry_loop_exhausts cfg ev n :
  forall fuel attempt backoff st,
    (n < fuel)%nat ->
    0 <= attempt ->
    attempt + Z.of_nat n + 1 = MaxAttempts cfg ->
    MaxAttempts cfg <= maxInt64 ->
    failing ev (S n) (world st) = true ->
    exists e,
      fst (op ev (after ev n (world st))) = Some e /\
      loop cfg ev fuel attempt backoff st =
        (Returned (Some (ErrFailedAfter (MaxAttempts cfg) e)),
         mkHState (after ev (S n) (world st))
                  (sleeps st ++ backoffs_from cfg backoff n)).
Proof.
  induction n as [|n IH]; intros fuel attempt backoff st Hfuel Hat Hlt Hmax Hfail.
  - destruct fuel as [|fuel]; [lia|]. cbn [retry_loop].
    destruct (Z.ltb_spec attempt (MaxAttempts cfg)); [|lia].
    cbn [fails_first after_calls] in Hfail |- *.
    destruct (op ev (world st)) as [r w] eqn:Hop. cbn [fst snd] in *.
    destruct r as [e|]; [|discriminate]. exists e. split; [reflexivity|].
    rewrite wrap64_id by (unfold in_int64, minInt64, maxInt64 in *; lia).
    destruct (Z.leb_spec (MaxAttempts cfg) (attempt + 1)); [|lia].
    rewrite app_nil_r. replace (attempt + 1) with (MaxAttempts cfg) by lia.
    reflexivity.
  - destruct fuel as [|fuel]; [lia|]. cbn [retry_loop].
    destruct (Z.ltb_spec attempt (MaxAttempts cfg)); [|lia].
    remember (S n) as m eqn:Hm.
    cbn [fails_first after_calls] in Hfail |- *.
    destruct (op ev (world st)) as [r w] eqn:Hop. cbn [fst snd] in *.
    destruct r as [e0|]; [|discriminate].
    rewrite wrap64_id by (unfold in_int64, minInt64, maxInt64 in *; lia).
    destruct (Z.leb_spec (MaxAttempts cfg) (attempt + 1)); [lia|].
    cbn [world sleeps]. subst m.
    destruct (IH fuel (attempt + 1) (next_backoff cfg backoff)
                (mkHState w (sleeps st ++ [backoff]))) as (e & He & Hloop);
      cbn [world sleeps]; try lia; try assumption.
    cbn [world sleeps] in He, Hloop.
    exists e. split.
    + cbn [after_calls]. rewrite Hop. exact He.
    + rewrite Hloop, <- app_assoc. reflexivity.
Qed.

(** Sleeping takes at least the capped length of every interval. *)
Lemma sum_capped_le_total_slept cfg ds :
  sum_capped cfg ds <= total_slept ds.
Proof.
  induction ds as [|d ds IH]; simpl; [lia|].
  assert (Z.min d (MaxBackoff cfg) <= Z.max 0 d) by lia. lia.
Qed.

Lemma total_slept_app ds1 ds2 :
  total_slept (ds1 ++ ds2) = total_slept ds1 + total_slept ds2.
Proof. induction ds1 as [|d ds1 IH]; simpl; lia. Qed.

(** The loop returns whatever the operation does, given fuel for the
    attempts that remain and the last test of the loop condition. *)
Lemma retry_loop_returns cfg ev fuel :
  forall attempt backoff st,
    0 <= attempt ->
    MaxAttempts cfg <= maxInt64 ->
    (Z.to_nat (MaxAttempts cfg - attempt) < fuel)%nat ->
    exists r, fst (loop cfg ev fuel attempt backoff st) = Returned r.
Proof.
  induction fuel as [|fuel IH]; intros attempt backoff st Hat Hmax Hfuel; [lia|].
  cbn [retry_loop].
  destruct (Z.ltb_spec attempt (MaxAttempts cfg)); [|eexists; reflexivity].
  destruct (op ev (world st)) as [[e|] w]; [|eexists; reflexivity].
  rewrite wrap64_id by (unfold in_int64, minInt64, maxInt64 in *; lia).
  destruct (Z.leb_spec (MaxAttempts cfg) (attempt + 1)); [eexists; reflexivity|].
  apply IH; lia.
Qed.

(** [HandleCheckedOut] returns on every body, for every behaviour of the
    wrapped operation. *)
Lemma HandleCheckedOut_returns cfg data (st : HState W) :
  MaxAttempts cfg <= maxInt64 ->
  exists r,
    fst (HandleCheckedOut json_Unmarshal RecordLaborCost cfg data st) = Returned r.
Proof.
  intros Hmax. unfold HandleCheckedOut.
  destruct (json_Unmarshal data) as [ev|]; [|eexists; reflexivity].
  apply retry_loop_returns; lia.
Qed.

(** A body that does not decode: the handler returns an error at once,
    without calling the operation or sleeping. *)
Lemma HandleCheckedOut_malformed cfg data (st : HState W) :
  json_Unmarshal data = None ->
  HandleCheckedOut json_Unmarshal RecordLaborCost cfg data st
    = (Returned (Some ErrUnmarshal), st).
Proof. intros Hj. unfold HandleCheckedOut. rewrite Hj. reflexivity. Qed.

(** C5. With a body that decodes and at least one attempt configured:
    when the wrapped operation fails on its first [MaxAttempts - 1] calls,
    the handler calls it [MaxAttempts] times; it returns nil if the last
    call succeeds and the last error wrapped with the attempt count if it
    fails too.  In between it sleeps once after each of the first
    [MaxAttempts - 1] failures, for the backoff of that round, and the time
    slept is at least the sum of these backoffs, each capped at
    [MaxBackoff]. *)
Theorem retry_executor_outcome cfg data ev (st : HState W) :
  json_Unmarshal data = Some ev ->
  1 <= MaxAttempts cfg <= maxInt64 ->
  let n := Z.to_nat (MaxAttempts cfg - 1) in
  failing ev n (world st) = true ->
  let run := HandleCheckedOut json_Unmarshal RecordLaborCost cfg data st in
  let slept := backoff_schedule cfg n in
  match fst (op ev (after ev n (world st))) with
  | None => fst run = Returned None
  | Some e => fst run = Returned (Some (ErrFailedAfter (MaxAttempts cfg) e))
  end /\
  world (snd run) = after ev (S n) (world st) /\
  sleeps (snd run) = sleeps st ++ slept /\
  sum_capped cfg slept <= total_slept slept.
Proof.
  intros Hjson Hmax n Hfail run slept.
  assert (Hrun : run = loop cfg ev (S (Z.to_nat (MaxAttempts cfg))) 0
                         (InitialBackoff cfg) st).
  { unfold run, HandleCheckedOut. rewrite Hjson. reflexivity. }
  destruct (fst (op ev (after ev n (world st)))) as [e|] eqn:Hlast.
  - destruct (retry_loop_exhausts cfg ev n (S (Z.to_nat (MaxAttempts cfg))) 0
                (InitialBackoff cfg) st) as (e' & He' & Hloop);
      try (unfold n; lia).
    { clear - Hfail Hlast. revert Hfail Hlast. generalize (world st) as w.
      induction n as [|k IH]; intros w Hfail Hlast.
      - simpl in *. rewrite Hlast. reflexivity.
      - cbn [fails_first after_calls] in *.
        destruct (fst (op ev w)); [|discriminate].
        apply IH; assumption. }
    rewrite Hlast in He'. injection He' as <-.
    rewrite Hrun, Hloop. cbn [fst snd world sleeps].
    repeat split. apply sum_capped_le_total_slept.
  - rewrite Hrun.
    rewrite (retry_loop_succeeds cfg ev n); try assumption; try (unfold n; lia).
    cbn [fst snd world sleeps].
    repeat split. apply sum_capped_le_total_slept.
Qed.

End Retry.

(** The theorem at the handler's default configuration (five attempts,
    backoffs of 1 s doubling up to 30 s), for an operation whose state
    counts its calls and which fails on the first four, and for one which
    always fails. *)
Lemma retry_executor_outcome_witness :
  let ev := {| out_header := {| EventID := "e1"; HeaderEventType := EventTypeEmployeeCheckedOut;
                                HeaderVersion := 1; Timestamp := 0 |};
               out_EmployeeID := "E1"; out_CheckInAt := 0; out_CheckOutAt := 0;
               out_HoursWorked := 8.5%float; out_RecordID := "r1" |} in
  let decode := fun _ : Bytes => Some ev in
  let flaky := fun (_ : string) (_ : float64) (k : nat) =>
                 (if (k <? 4)%nat then Some tt else None, S k) in
  let broken := fun (_ : string) (_ : float64) (k : nat) => (Some tt, S k) in
  let st := mkHState O [] in
  let schedule := [1 * Second; 2 * Second; 4 * Second; 8 * Second] in
  HandleCheckedOut decode flaky defaultRetryConfig [] st
    = (Returned None, mkHState 5%nat schedule) /\
  HandleCheckedOut decode broken defaultRetryConfig [] st
    = (Returned (Some (ErrFailedAfter 5 tt)), mkHState 5%nat schedule) /\
  sum_capped defaultRetryConfig schedule <= total_slept schedule.
Proof.
  intros ev decode flaky broken st schedule.
  pose proof (retry_executor_outcome decode flaky defaultRetryConfig [] ev st
                eq_refl ltac:(unfold maxInt64; simpl; lia) eq_refl) as Hflaky.
  pose proof (retry_executor_outcome decode broken defaultRetryConfig [] ev st
                eq_refl ltac:(unfold maxInt64; simpl; lia) eq_refl) as Hbroken.
  cbv zeta in Hflaky, Hbroken.
  destruct Hflaky as (Hr1 & Hw1 & Hs1 & Hsum).
  destruct Hbroken as (Hr2 & Hw2 & Hs2 & _).
  split; [|split].
  - destruct (HandleCheckedOut decode flaky defaultRetryConfig [] st) as [r [w sl]].
    cbn [fst snd world sleeps] in *.
    change (r = Returned None) in Hr1. subst r.
    rewrite Hw1, Hs1. vm_compute. reflexivity.
  - destruct (HandleCheckedOut decode broken defaultRetryConfig [] st) as [r [w sl]].
    cbn [fst snd world sleeps] in *.
    change (r = Returned (Some (ErrFailedAfter 5 tt))) in Hr2. subst r.
    rewrite Hw2, Hs2. vm_compute. reflexivity.
  - exact Hsum.
Defined.

End HandlersProofs.

Module MessagingProofs.
Import Go GoFacts Events Handlers Messaging.

Section Consumer.

Context {H E : Type}.
Variable handler : Bytes -> H -> Outcome (option E) * H.

Lemma consume_loop_log inputs :
  forall h log,
    exists acts,
      snd (consume_loop handler inputs h log) = log ++ acts /\
      Forall2 answers (handled handler inputs h) acts.
Proof.
  induction inputs as [|i inputs IH]; intros h log.
  - exists []. simpl. rewrite app_nil_r. split; [reflexivity|constructor].
  - destruct i as [| |msg]; cbn [consume_loop handled].
    + exists []. simpl. rewrite app_nil_r. split; [reflexivity|constructor].
    + exists []. simpl. rewrite app_nil_r. split; [reflexivity|constructor].
    + destruct (handler (Body msg) h) as [[err|] h'].
      * destruct err as [e|].
        -- destruct (IH h' (log ++ [Nack (DeliveryTag msg) false true])) as (acts & Hlog & Hall).
           exists (Nack (DeliveryTag msg) false true :: acts). split.
           ++ rewrite Hlog, <- app_assoc. reflexivity.
           ++ constructor; [|exact Hall]. unfold answers; simpl.
              repeat split; congruence.
        -- destruct (IH h' (log ++ [Ack (DeliveryTag msg) false])) as (acts & Hlog & Hall).
           exists (Ack (DeliveryTag msg) false :: acts). split.
           ++ rewrite Hlog, <- app_assoc. reflexivity.
           ++ constructor; [|exact Hall]. unfold answers; simpl.
              repeat split; congruence.
      * exists []. simpl. rewrite app_nil_r. split; [reflexivity|constructor].
Qed.

End Consumer.

(** With the labor-cost handler, a delivery whose body does not decode is
    recorded with the decoding error. *)
Lemma handled_malformed {W E : Type} json (op : string -> float64 -> W -> option E * W)
    cfg inputs :
  forall st : HState W,
    Forall (fun de => json (Body (fst de)) = None -> snd de = Some ErrUnmarshal)
           (handled (HandleCheckedOut json op cfg) inputs st).
Proof.
  induction inputs as [|i inputs IH]; intros st; [constructor|].
  destruct i as [| |msg]; cbn [handled]; try constructor.
  destruct (HandleCheckedOut json op cfg (Body msg) st) as [[err|] st'] eqn:Hh;
    [|constructor].
  constructor; [|apply IH].
  simpl. intros Hj. rewrite (HandlersProofs.HandleCheckedOut_malformed json op cfg _ st Hj) in Hh.
  congruence.
Qed.

(** C10. [Consume] sends the broker one action for each delivery its
    handler returned on, in order: an ack of that delivery exactly when the
    handler returned nil, a nack of it with requeue exactly when the handler
    returned an error.  With the labor-cost handler, a delivery whose body
    does not decode makes the handler return the decoding error, and the
    action for it is a nack with requeue. *)
Theorem consume_acks_iff_handler_nil :
  (forall (H E : Type) (handler : Bytes -> H -> Outcome (option E) * H)
          (register_fails : bool) (inputs : list Input) (h : H),
     register_fails = false ->
     Forall2 answers (handled handler inputs h)
             (snd (Consume handler register_fails inputs h))) /\
  (forall (W E : Type) (json : Bytes -> option Events.EmployeeCheckedOutEvent)
          (op : string -> float64 -> W -> option E * W) (cfg : RetryConfig)
          (inputs : list Input) (st : HState W) (i : nat) (msg : Delivery),
     let handler := HandleCheckedOut json op cfg in
     fst <$> handled handler inputs st !! i = Some msg ->
     json (Body msg) = None ->
     handled handler inputs st !! i = Some (msg, Some ErrUnmarshal) /\
     snd (Consume handler false inputs st) !! i
       = Some (Nack (DeliveryTag msg) false true)).
Proof.
  assert (Hgen : forall (H E : Type) (handler : Bytes -> H -> Outcome (option E) * H)
                        (inputs : list Input) (h : H),
             Forall2 answers (handled handler inputs h)
                     (snd (Consume handler false inputs h))).
  { intros H E handler inputs h. unfold Consume.
    destruct (consume_loop_log handler inputs h []) as (acts & Hlog & Hall).
    rewrite Hlog. exact Hall. }
  split.
  - intros H E handler rf inputs h ->. apply Hgen.
  - intros W E json op cfg inputs st i msg handler Hi Hj.
    destruct (handled handler inputs st !! i) as [[msg' r]|] eqn:Hde; [|discriminate].
    simpl in Hi. injection Hi as ->.
    pose proof (handled_malformed json op cfg inputs st) as Hall.
    rewrite Forall_forall in Hall.
    assert (Hr : r = Some ErrUnmarshal).
    { apply (Hall (msg, r)); [|exact Hj].
      eapply list_elem_of_lookup_2. exact Hde. }
    subst r. split; [reflexivity|].
    destruct (Forall2_lookup_l _ _ _ _ _ (Hgen _ _ handler inputs st) Hde)
      as (a & Ha & [_ Hnack]).
    rewrite Ha. f_equal. apply Hnack. discriminate.
Qed.

(** The theorem on two deliveries followed by the cancellation of the
    context: the first body decodes and the operation succeeds, the second
    body does not decode. *)
Lemma consume_acks_iff_handler_nil_witness :
  let ev := {| Events.out_header :=
                 {| Events.EventID := "e1";
                    Events.HeaderEventType := Events.EventTypeEmployeeCheckedOut;
                    Events.HeaderVersion := 1; Events.Timestamp := 0 |};
               Events.out_EmployeeID := "E1"; Events.out_CheckInAt := 0;
               Events.out_CheckOutAt := 0; Events.out_HoursWorked := 8.5%float;
               Events.out_RecordID := "r1" |} in
  let json := fun b : Bytes => match b with [] => None | _ => Some ev end in
  let op := fun (_ : string) (_ : float64) (k : nat) => (@None unit, S k) in
  let inputs := [Deliver {| DeliveryTag := 1; Body := [x7b; x7d] |};
                 Deliver {| DeliveryTag := 2; Body := [] |};
                 CtxDone] in
  let handler := HandleCheckedOut json op defaultRetryConfig in
  snd (Consume handler false inputs (mkHState O [])) !! 1%nat
    = Some (Nack 2 false true).
Proof.
  intros ev json op inputs handler.
  apply (proj2 consume_acks_iff_handler_nil nat unit json op defaultRetryConfig
           inputs (mkHState O []) 1%nat {| DeliveryTag := 2; Body := [] |});
    reflexivity.
Defined.

End MessagingProofs.

Module PersistenceProofs.
Import Go GoFacts Events Persistence.

Section Repository.

Variable json_Marshal : DomainEvent -> option Bytes.

(** The two ways a call of [SaveWithEvent] ends. *)
Lemma SaveWithEvent_result env record event db :
  (exists e, SaveWithEvent json_Marshal env record event db = (Some e, db)) \/
  (exists eventPayload,
     json_Marshal event = Some eventPayload /\
     outbox_events db !! outbox_id env = None /\
     SaveWithEvent json_Marshal env record event db =
       (None,
        mkDB (upsert_time_record (server_now env) record (time_records db))
             (<[outbox_id env :=
                  {| event_type := EventType event;
                     aggregate_id := Entities.ID record;
                     payload := eventPayload;
                     created_at := outbox_now env;
                     published := false;
                     published_at := None;
                     retry_count := 0;
                     last_error := None |}]> (outbox_events db)))).
Proof.
  unfold SaveWithEvent, insert_outbox_event.
  destruct (begin_fails env); [left; eexists; reflexivity|].
  destruct (exec_record_fails env); [left; eexists; reflexivity|].
  destruct (json_Marshal event) as [eventPayload|]; [|left; eexists; reflexivity].
  destruct (exec_outbox_fails env); [left; eexists; reflexivity|].
  cbn [outbox_events time_records].
  destruct (outbox_events db !! outbox_id env) eqn:Hfresh; [left; eexists; reflexivity|].
  destruct (commit_fails env); [left; eexists; reflexivity|].
  right. exists eventPayload. repeat split.
Qed.

(** The call succeeds exactly when nothing it depends on fails. *)
Lemma SaveWithEvent_succeeds_iff env record event db :
  fst (SaveWithEvent json_Marshal env record event db) = None <->
  begin_fails env = false /\ exec_record_fails env = false /\
  exec_outbox_fails env = false /\ commit_fails env = false /\
  is_Some (json_Marshal event) /\ outbox_events db !! outbox_id env = None.
Proof.
  unfold SaveWithEvent, insert_outbox_event.
  destruct (begin_fails env), (exec_record_fails env),
    (json_Marshal event) as [pl|], (exec_outbox_fails env);
    cbn [outbox_events time_records fst];
    try (split; [discriminate|intros (?&?&?&?&?&?); try discriminate;
                 match goal with H : is_Some None |- _ => destruct H; discriminate end]).
  destruct (outbox_events db !! outbox_id env) eqn:Hf.
  - split; [discriminate|]. intros (_&_&_&_&_&?); discriminate.
  - destruct (commit_fails env); cbn [fst].
    + split; [discriminate|]. intros (_&_&_&?&_); discriminate.
    + split; [|reflexivity]. intros _. repeat split; eauto.
Qed.


End Repository.


#[local] Instance created_le_trans : Transitive created_le.
Proof. unfold created_le. intros a b c. lia. Qed.

#[local] Instance created_le_total : Total created_le.
Proof. unfold created_le. intros a b. lia. Qed.

Lemma selected_elem db kv :
  kv ∈ selected db <->
  outbox_events db !! kv.1 = Some kv.2 /\
  unpublished_of_type EventTypeEmployeeCheckedOut kv.
Proof.
  unfold selected. rewrite merge_sort_Permutation, list_elem_of_filter.
  destruct kv as [k v]. rewrite elem_of_map_to_list. simpl. tauto.
Qed.

Lemma selected_sorted db : StronglySorted created_le (selected db).
Proof. apply StronglySorted_merge_sort; apply _. Qed.

Lemma selected_NoDup db : NoDup (selected db).*1.
Proof.
  unfold selected. rewrite merge_sort_Permutation.
  eapply NoDup_fmap_fst.
  - intros k v1 v2 H1 H2.
    apply list_elem_of_filter in H1 as [_ H1], H2 as [_ H2].
    apply elem_of_map_to_list in H1, H2. congruence.
  - apply NoDup_filter, NoDup_map_to_list.
Qed.

Lemma GetUnpublishedEvents_Ok fails limit db evs :
  GetUnpublishedEvents fails limit db = Ok evs <->
  fails = false /\ 0 <= limit /\
  evs = map scan_event (take (Z.to_nat limit) (selected db)).
Proof.
  unfold GetUnpublishedEvents.
  destruct fails; [split; [discriminate|intros [? _]; discriminate]|].
  destruct (Z.ltb_spec limit 0).
  - split; [discriminate|]. intros (_ & ? & _). lia.
  - split.
    + intros [= <-]. auto.
    + intros (_ & _ & ->). reflexivity.
Qed.

(** C7. A batch that [GetUnpublishedEvents] returns for the limit [n] has
    at most [n] events; every event is the copy of a row of the outbox
    table that is unpublished and has the event type the query asks for
    (check-out); no row occurs twice; the events are in ascending order of
    creation time; and the batch takes the oldest rows first: an eligible
    row that was left out is at least as recent as every event of the
    batch, which is then full. *)
Theorem GetUnpublishedEvents_batch (query_fails : bool) (n : Z) (db : Database)
    (evs : list Repositories.OutboxEvent) :
  GetUnpublishedEvents query_fails n db = Ok evs ->
  Z.of_nat (length evs) <= n /\
  Forall (fun ev =>
            Repositories.Published ev = false /\
            Repositories.EventType ev = EventTypeEmployeeCheckedOut /\
            exists row,
              outbox_events db !! Repositories.ID ev = Some row /\
              ev = scan_event (Repositories.ID ev, row)) evs /\
  NoDup (map Repositories.ID evs) /\
  StronglySorted
    (fun a b => Repositories.CreatedAt a <= Repositories.CreatedAt b) evs /\
  (forall id row,
     outbox_events db !! id = Some row ->
     published row = false ->
     event_type row = EventTypeEmployeeCheckedOut ->
     id ∉ map Repositories.ID evs ->
     Z.of_nat (length evs) = n /\
     Forall (fun ev => Repositories.CreatedAt ev <= created_at row) evs).
Proof.
  intros Hget. apply GetUnpublishedEvents_Ok in Hget as (_ & Hn & ->).
  set (k := Z.to_nat n).
  pose proof (selected_sorted db) as Hsorted.
  pose proof (selected_NoDup db) as Hnodup.
  rewrite <- (take_drop k (selected db)) in Hsorted, Hnodup.
  split; [|split; [|split; [|split]]].
  - rewrite length_map, length_take. lia.
  - rewrite Forall_forall. intros ev Hev.
    apply list_elem_of_fmap in Hev as (kv & -> & Hkv).
    apply elem_of_take in Hkv as (i & Hkv & _).
    apply list_elem_of_lookup_2 in Hkv.
    apply selected_elem in Hkv as (Hrow & Hpub & Hty).
    destruct kv as [id row]. simpl in *.
    split; [exact Hpub|]. split; [exact Hty|].
    exists row. split; [exact Hrow|reflexivity].
  - rewrite fmap_app in Hnodup. apply NoDup_app in Hnodup as (Hnd & _ & _).
    replace (map Repositories.ID (map scan_event (take k (selected db))))
      with ((take k (selected db)).*1); [exact Hnd|].
    rewrite map_map. reflexivity.
  - apply StronglySorted_app_1_l in Hsorted. clear Hnodup.
    induction Hsorted as [|kv l Hs IH Hall]; simpl; constructor.
    + exact IH.
    + apply Forall_fmap. eapply Forall_impl; [exact Hall|].
      intros kv' Hle. exact Hle.
  - intros id row Hrow Hpub Hty Hout.
    assert (Hsel : (id, row) ∈ selected db).
    { apply selected_elem. simpl. split; [exact Hrow|split; assumption]. }
    rewrite <- (take_drop k (selected db)) in Hsel.
    apply elem_of_app in Hsel as [Hin|Hin].
    { exfalso. apply Hout.
      apply list_elem_of_fmap. exists (scan_event (id, row)). split; [reflexivity|].
      apply list_elem_of_fmap. exists (id, row). split; [reflexivity|exact Hin]. }
    split.
    + rewrite length_map, length_take.
      assert (k < length (selected db))%nat; [|lia].
      destruct (decide (k < length (selected db))%nat) as [|Hge]; [assumption|].
      rewrite drop_ge in Hin by lia. inversion Hin.
    + rewrite Forall_forall. intros ev Hev.
      apply list_elem_of_fmap in Hev as (kv & -> & Hkv).
      apply (StronglySorted_app_1_elem_of _ _ _ _ _ Hsorted Hkv Hin).
Qed.

(** The batch of the theorem for a table with two check-out rows and a
    check-in row, all unpublished, and the limit 1. *)
Lemma GetUnpublishedEvents_batch_witness :
  let row := fun ty t => mkOutboxRow ty "r" [] t false None 0 None in
  let db := mkDB ∅ (<["a" := row EventTypeEmployeeCheckedOut 30]>
                    (<["b" := row EventTypeEmployeeCheckedIn 10]>
                     (<["c" := row EventTypeEmployeeCheckedOut 20]> ∅))) in
  let evs := [scan_event ("c", row EventTypeEmployeeCheckedOut 20)] in
  GetUnpublishedEvents false 1 db = Ok evs /\
  Z.of_nat (length evs) <= 1 /\
  StronglySorted
    (fun a b => Repositories.CreatedAt a <= Repositories.CreatedAt b) evs.
Proof.
  intros row db evs.
  assert (Hget : GetUnpublishedEvents false 1 db = Ok evs) by (vm_compute; reflexivity).
  split; [exact Hget|].
  destruct (GetUnpublishedEvents_batch false 1 db evs Hget) as (Hlen & _ & _ & Hsorted & _).
  split; [exact Hlen|exact Hsorted].
Defined.

Lemma row_kept_refl r : row_kept r r.
Proof. unfold row_kept. auto. Qed.

Lemma row_kept_trans r1 r2 r3 : row_kept r1 r2 -> row_kept r2 r3 -> row_kept r1 r3.
Proof. unfold row_kept. intros (?&?&?&?&?) (?&?&?&?&?). repeat split; try congruence. auto. Qed.

Lemma outbox_kept_refl t : outbox_kept t t.
Proof. intros id r H. exists r. split; [exact H|apply row_kept_refl]. Qed.

Lemma outbox_kept_trans t1 t2 t3 :
  outbox_kept t1 t2 -> outbox_kept t2 t3 -> outbox_kept t1 t3.
Proof.
  intros H12 H23 id r H. destruct (H12 id r H) as (r2 & H2 & K2).
  destruct (H23 id r2 H2) as (r3 & H3 & K3).
  exists r3. split; [exact H3|]. eapply row_kept_trans; eassumption.
Qed.

Lemma MarkAsPublished_kept f now id db :
  outbox_kept (outbox_events db) (outbox_events (snd (MarkAsPublished f now id db))).
Proof.
  unfold MarkAsPublished. destruct f; [apply outbox_kept_refl|].
  cbn [snd outbox_events]. intros id' r H.
  rewrite lookup_alter. destruct (decide (id = id')) as [->|Hne].
  - rewrite H. simpl. eexists. split; [reflexivity|]. unfold row_kept; simpl. auto.
  - exists r. split; [exact H|apply row_kept_refl].
Qed.

(** [IncrementRetryCount] leaves every row in place and changes nothing in
    it but the retry count and the last error. *)
Lemma IncrementRetryCount_rows f id msg db id' r :
  outbox_events db !! id' = Some r ->
  exists r',
    outbox_events (snd (IncrementRetryCount f id msg db)) !! id' = Some r' /\
    r' = mkOutboxRow (event_type r) (aggregate_id r) (payload r) (created_at r)
           (published r) (published_at r) (retry_count r') (last_error r').
Proof.
  intros H. unfold IncrementRetryCount.
  assert (Hsame : exists r', outbox_events db !! id' = Some r' /\
            r' = mkOutboxRow (event_type r) (aggregate_id r) (payload r) (created_at r)
                   (published r) (published_at r) (retry_count r') (last_error r')).
  { exists r. split; [exact H|]. destruct r; reflexivity. }
  destruct f; [exact Hsame|].
  destruct (outbox_events db !! id) as [r0|] eqn:H0; [|exact Hsame].
  destruct (maxInt32 <? retry_count r0 + 1); [exact Hsame|].
  cbn [snd outbox_events].
  destruct (decide (id = id')) as [->|Hne].
  - rewrite lookup_insert_eq. rewrite H in H0. injection H0 as ->.
    eexists. split; [reflexivity|]. reflexivity.
  - rewrite lookup_insert_ne by exact Hne. exact Hsame.
Qed.

Lemma IncrementRetryCount_kept f id msg db :
  outbox_kept (outbox_events db)
              (outbox_events (snd (IncrementRetryCount f id msg db))).
Proof.
  intros id' r H.
  destruct (IncrementRetryCount_rows f id msg db id' r H) as (r' & Hr' & Heq).
  exists r'. split; [exact Hr'|]. rewrite Heq. unfold row_kept; simpl. auto.
Qed.

Lemma SaveWithEvent_kept json env record event db :
  outbox_kept (outbox_events db)
              (outbox_events (snd (SaveWithEvent json env record event db))).
Proof.
  destruct (SaveWithEvent_result json env record event db)
    as [[e ->]|(pl & _ & Hfresh & ->)]; cbn [snd outbox_events].
  - apply outbox_kept_refl.
  - intros id r H. exists r. split; [|apply row_kept_refl].
    rewrite lookup_insert_ne; [exact H|]. intros Heq. rewrite Heq in Hfresh. congruence.
Qed.

Lemma run_op_kept json op db :
  outbox_kept (outbox_events db) (outbox_events (run_op json op db)).
Proof.
  destruct op; cbn [run_op].
  - apply SaveWithEvent_kept.
  - apply MarkAsPublished_kept.
  - apply IncrementRetryCount_kept.
  - apply outbox_kept_refl.
Qed.

(** C8. Through every sequence of outbox operations (the insertion by
    [SaveWithEvent], [MarkAsPublished], [IncrementRetryCount],
    [GetUnpublishedEvents]) every row stays in the table with the event
    type, aggregate id, payload and creation time it was inserted with, and
    a row that is published stays published.  [IncrementRetryCount] changes
    no column but the retry count and the last error, so the row is as
    eligible for a later batch as it was. *)
Theorem outbox_rows_kept :
  (forall (json_Marshal : DomainEvent -> option Bytes) (ops : list OutboxOp)
          (db : Database),
     outbox_kept (outbox_events db)
                 (outbox_events (run_ops json_Marshal ops db))) /\
  (forall (exec_fails : bool) (eventID errorMsg : string) (db : Database)
          (id : string) (r : OutboxRow),
     outbox_events db !! id = Some r ->
     exists r',
       outbox_events (snd (IncrementRetryCount exec_fails eventID errorMsg db)) !! id
         = Some r' /\
       r' = mkOutboxRow (event_type r) (aggregate_id r) (payload r) (created_at r)
              (published r) (published_at r) (retry_count r') (last_error r') /\
       (unpublished_of_type EventTypeEmployeeCheckedOut (id, r) ->
        unpublished_of_type EventTypeEmployeeCheckedOut (id, r'))).
Proof.
  split.
  - intros json ops. unfold run_ops.
    induction ops as [|op ops IH]; intros db; [apply outbox_kept_refl|].
    simpl. eapply outbox_kept_trans; [apply (run_op_kept json op db)|apply IH].
  - intros f eid msg db id r H.
    destruct (IncrementRetryCount_rows f eid msg db id r H) as (r' & Hr' & Heq).
    exists r'. split; [exact Hr'|]. split; [exact Heq|].
    unfold unpublished_of_type. simpl. rewrite Heq. simpl. auto.
Qed.

(** The theorem on a table with one published row: after a failed
    publication has been recorded against it, another event has been
    inserted and the row has been marked again, it is still there,
    published, with its payload. *)
Lemma outbox_rows_kept_witness :
  let json := fun _ : DomainEvent => Some ([x7b; x7d] : Bytes) in
  let r := mkOutboxRow EventTypeEmployeeCheckedOut "r1" [x01] 10 true (Some 11) 0 None in
  let db := mkDB ∅ (<["a" := r]> ∅) in
  let ops := [OpIncrementRetryCount false "a" "broker down";
              OpGetUnpublishedEvents false 10;
              OpMarkAsPublished false 12 "a"] in
  exists r', outbox_events (run_ops json ops db) !! "a" = Some r' /\ row_kept r r'.
Proof.
  intros json r db ops.
  apply (proj1 outbox_rows_kept json ops db "a" r). reflexivity.
Defined.

(** The query succeeds whenever the server answers and the limit is not
    negative. *)
Lemma GetUnpublishedEvents_returns n db :
  0 <= n -> exists evs, GetUnpublishedEvents false n db = Ok evs.
Proof. intros Hn. eexists. apply GetUnpublishedEvents_Ok. eauto. Qed.

End PersistenceProofs.

Module ServicesProofs.
Import Go GoFacts Events Persistence Services.

(** C2. An employee has an active check-in, and a check-out request for
    that employee arrives while less than the duplicate window has passed
    since that check-in: the request is rejected, as a duplicate (or, if
    the lookup itself fails, as having no active check-in), before
    [record.CheckOut()] and [SaveWithEvent] are reached; the database it
    leaves is the one it found, so no outbox row was written and the time
    record is as it was.  The same then holds for every further request
    inside the window. *)
Theorem CheckOut_duplicate_rejected (json_Marshal : DomainEvent -> option Bytes)
    (dupWindow : Z) (env : CheckOutEnv) (employeeID : string) (db : Database)
    (record : Entities.TimeRecord) :
  FindActiveByEmployeeID false employeeID db = Ok (Some record) ->
  Since (out_since_now env) (Entities.CheckInAt record) < wrap64 (dupWindow * Second) ->
  CheckOut json_Marshal dupWindow env employeeID db
    = (Err (if out_find_fails env then ErrNoActiveCheckInFound
            else ErrDuplicateCheckIn), db).
Proof.
  intros Hactive Hwin. unfold CheckOut.
  destruct (out_find_fails env).
  - reflexivity.
  - rewrite Hactive.
    destruct (Z.ltb_spec (Since (out_since_now env) (Entities.CheckInAt record))
                (wrap64 (dupWindow * Second))); [reflexivity|lia].
Qed.

(** The theorem with the default window of 60 seconds: an employee checks
    in at second 1 and asks to check out at second 30. *)
Lemma CheckOut_duplicate_rejected_witness :
  let json := fun _ : DomainEvent => Some ([] : Bytes) in
  let tx := {| begin_fails := false; exec_record_fails := false;
               exec_outbox_fails := false; commit_fails := false;
               outbox_id := "o1"; outbox_now := 1 * Second;
               server_now := 1 * Second |} in
  let db := snd (CheckIn json
                   {| in_find_fails := false; in_record_id := "r1";
                      in_record_now := 1 * Second; in_event_id := "e1";
                      in_event_now := 1 * Second; in_tx := tx |}
                   "E1" (mkDB ∅ ∅)) in
  let env := {| out_find_fails := false; out_since_now := 30 * Second;
                out_checkout_now := 30 * Second; out_event_id := "e2";
                out_event_now := 30 * Second;
                out_tx := {| begin_fails := false; exec_record_fails := false;
                             exec_outbox_fails := false; commit_fails := false;
                             outbox_id := "o2"; outbox_now := 30 * Second;
                             server_now := 30 * Second |} |} in
  CheckOut json 60 env "E1" db = (Err ErrDuplicateCheckIn, db).
Proof.
  intros json tx db env.
  apply (CheckOut_duplicate_rejected json 60 env "E1" db
           {| Entities.ID := "r1"; Entities.EmployeeID := "E1";
              Entities.CheckInAt := 1 * Second; Entities.CheckOutAt := None;
              Entities.Status := Entities.StatusCheckedIn;
              Entities.HoursWorked := 0%float |}).
  - vm_compute. reflexivity.
  - vm_compute. reflexivity.
Defined.

(** Without an active row of the employee the lookup returns nothing. *)
Lemma FindActiveByEmployeeID_none (employeeID : string) (db : Database) :
  (forall id row, time_records db !! id = Some row -> ~ active_of employeeID (id, row)) ->
  FindActiveByEmployeeID false employeeID db = Ok None.
Proof.
  intros Hnone. unfold FindActiveByEmployeeID.
  destruct (filter (active_of employeeID) (map_to_list (time_records db)))
    as [|[id row] rows] eqn:Hf; [reflexivity|].
  exfalso.
  assert (Hin : (id, row) ∈ filter (active_of employeeID) (map_to_list (time_records db)))
    by (rewrite Hf; apply list_elem_of_here).
  apply list_elem_of_filter in Hin as [Hact Hin].
  apply elem_of_map_to_list in Hin. exact (Hnone id row Hin Hact).
Qed.

(** X2. An employee has one active check-in, and a check-out request for that
    employee succeeds.  Every later check-out request of the employee, as
    long as no new check-in was made, is rejected for want of an active
    check-in, and leaves the database as it found it: no outbox row is
    written and no time record changes. *)
Theorem CheckOut_again_rejected (json_Marshal : DomainEvent -> option Bytes)
    (dupWindow : Z) (env1 env2 : CheckOutEnv) (employeeID : string)
    (db db1 : Database) (kv : string * TimeRecordRow)
    (record : Entities.TimeRecord) :
  filter (active_of employeeID) (map_to_list (time_records db)) = [kv] ->
  CheckOut json_Marshal dupWindow env1 employeeID db = (Ok record, db1) ->
  CheckOut json_Marshal dupWindow env2 employeeID db1
    = (Err ErrNoActiveCheckInFound, db1).
Proof.
  intros Hone Hfirst.
  assert (Hnone : forall id row,
             time_records db1 !! id = Some row -> ~ active_of employeeID (id, row)).
  { assert (Hkv : kv ∈ filter (active_of employeeID) (map_to_list (time_records db)))
      by (rewrite Hone; apply list_elem_of_here).
    apply list_elem_of_filter in Hkv as [_ Hkv]. destruct kv as [id0 row0].
    apply elem_of_map_to_list in Hkv.
    unfold CheckOut, FindActiveByEmployeeID in Hfirst. rewrite Hone in Hfirst.
    destruct (out_find_fails env1); [discriminate|].
    cbn [foldl] in Hfirst.
    destruct (_ <? _) in Hfirst; [discriminate|].
    destruct (Entities.CheckOut (out_checkout_now env1) (scan_record (id0, row0)))
      as [r1|e] eqn:Hout; [|discriminate].
    unfold Entities.CheckOut in Hout. simpl in Hout.
    destruct (status row0); [|discriminate]. injection Hout as <-.
    match type of Hfirst with
    | context [SaveWithEvent json_Marshal ?tx ?rc ?ev db] =>
        destruct (PersistenceProofs.SaveWithEvent_result json_Marshal tx rc ev db)
          as [[e He]|(pl & _ & _ & He)]; rewrite He in Hfirst; [discriminate|]
    end.
    injection Hfirst as _ <-. cbn [time_records].
    unfold upsert_time_record. cbn [Entities.ID]. rewrite Hkv.
    intros id row Hlook Hact.
    destruct (decide (id0 = id)) as [<-|Hne].
    - rewrite lookup_insert_eq in Hlook. injection Hlook as <-.
      destruct Hact as [_ Hact]. discriminate Hact.
    - rewrite lookup_insert_ne in Hlook by exact Hne.
      assert (Hin : (id, row) ∈ filter (active_of employeeID) (map_to_list (time_records db)))
        by (apply list_elem_of_filter; split; [exact Hact|apply elem_of_map_to_list; exact Hlook]).
      rewrite Hone in Hin. apply list_elem_of_singleton in Hin. congruence. }
  unfold CheckOut. destruct (out_find_fails env2); [reflexivity|].
  rewrite (FindActiveByEmployeeID_none employeeID db1 Hnone). reflexivity.
Qed.

(** The theorem at work: an employee checks in at second 1 and checks out
    at second 100; the request to check out again at second 110 is
    rejected. *)
Lemma CheckOut_again_rejected_witness :
  let json := fun _ : DomainEvent => Some ([] : Bytes) in
  let tx := fun (id : string) (now : Time) =>
              {| begin_fails := false; exec_record_fails := false;
                 exec_outbox_fails := false; commit_fails := false;
                 outbox_id := id; outbox_now := now; server_now := now |} in
  let out := fun (id : string) (now : Time) (o : string) =>
               {| out_find_fails := false; out_since_now := now;
                  out_checkout_now := now; out_event_id := id;
                  out_event_now := now; out_tx := tx o now |} in
  let db := snd (CheckIn json
                   {| in_find_fails := false; in_record_id := "r1";
                      in_record_now := 1 * Second; in_event_id := "e1";
                      in_event_now := 1 * Second;
                      in_tx := tx "o1" (1 * Second) |}
                   "E1" (mkDB ∅ ∅)) in
  let db1 := snd (CheckOut json 60 (out "e2" (100 * Second) "o2") "E1" db) in
  outbox_events db1 !! "o2" <> None /\
  CheckOut json 60 (out "e3" (110 * Second) "o3") "E1" db1
    = (Err ErrNoActiveCheckInFound, db1).
Proof.
  intros json tx out db db1. split; [vm_compute; discriminate|].
  eapply (CheckOut_again_rejected json 60 (out "e2" (100 * Second) "o2")
            (out "e3" (110 * Second) "o3") "E1" db db1).
  - vm_compute. reflexivity.
  - vm_compute. reflexivity.
Defined.

End ServicesProofs.

Module RelayProofs.
Import Go GoFacts Events Persistence Services Relay.

Lemma event_types_differ : EventTypeEmployeeCheckedIn <> EventTypeEmployeeCheckedOut.
Proof. discriminate. Qed.

(** No batch contains the row of an unpublished check-in event: the rows
    of a batch have the check-out type. *)
Lemma batch_excludes_checkin id d fails limit evs :
  unpublished_checkin id d ->
  GetUnpublishedEvents fails limit d = Ok evs ->
  Forall (fun ev => Repositories.ID ev <> id /\
                    Repositories.EventType ev = EventTypeEmployeeCheckedOut) evs.
Proof.
  intros (row & Hrow & Hty & _) Hget.
  apply PersistenceProofs.GetUnpublishedEvents_Ok in Hget as (_ & _ & ->).
  rewrite Forall_forall. intros ev Hev.
  apply list_elem_of_fmap in Hev as ([k r] & -> & Hkv).
  apply elem_of_take in Hkv as (i & Hkv & _).
  apply list_elem_of_lookup_2 in Hkv.
  apply PersistenceProofs.selected_elem in Hkv as (Hr & _ & Hty').
  simpl in *. split; [|exact Hty'].
  intros ->. rewrite Hrow in Hr. injection Hr as ->.
  apply event_types_differ. congruence.
Qed.

Lemma MarkAsPublished_other id f now eid d :
  eid <> id -> unpublished_checkin id d ->
  unpublished_checkin id (snd (MarkAsPublished f now eid d)).
Proof.
  intros Hne Hinv. unfold MarkAsPublished. destruct f; [exact Hinv|].
  destruct Hinv as (row & Hrow & Hty & Hpub). exists row.
  cbn [snd outbox_events]. rewrite lookup_alter_ne by exact Hne. auto.
Qed.

Lemma IncrementRetryCount_checkin id f eid msg d :
  unpublished_checkin id d ->
  unpublished_checkin id (snd (IncrementRetryCount f eid msg d)).
Proof.
  intros (row & Hrow & Hty & Hpub).
  destruct (PersistenceProofs.IncrementRetryCount_rows f eid msg d id row Hrow)
    as (r' & Hr' & Heq).
  exists r'. split; [exact Hr'|]. rewrite Heq. simpl. auto.
Qed.

(** Publishing a batch that does not contain the row leaves it an
    unpublished check-in event, and puts on the exchange only messages
    with the types of the batch. *)
Lemma publish_events_checkin id env events :
  forall i sys,
    Forall (fun ev => Repositories.ID ev <> id /\
                      Repositories.EventType ev = EventTypeEmployeeCheckedOut) events ->
    unpublished_checkin id (db sys) ->
    unpublished_checkin id (db (publish_events env i events sys)) /\
    exists new,
      exchange (publish_events env i events sys) = exchange sys ++ new /\
      Forall (fun m => pub_Type m = EventTypeEmployeeCheckedOut) new.
Proof.
  induction events as [|ev events IH]; intros i sys Hall Hinv.
  - simpl. split; [exact Hinv|]. exists []. rewrite app_nil_r. auto.
  - apply Forall_cons in Hall as [[Hid Hty] Hall].
    cbn [publish_events]. unfold PublishRaw.
    destruct (publish_fails env i).
    + destruct (IncrementRetryCount (update_fails env i) (Repositories.ID ev)
                  (publish_error env i) (db sys)) as [r d] eqn:Hinc.
      apply (IH (S i) (mkSystem d (exchange sys)) Hall).
      cbn [db]. replace d with
        (snd (IncrementRetryCount (update_fails env i) (Repositories.ID ev)
                (publish_error env i) (db sys))) by (rewrite Hinc; reflexivity).
      apply IncrementRetryCount_checkin. exact Hinv.
    + destruct (MarkAsPublished (update_fails env i) (update_now env i)
                  (Repositories.ID ev) (db sys)) as [r d] eqn:Hmark.
      destruct (IH (S i) (mkSystem d
                  (exchange sys ++ [{| pub_Type := Repositories.EventType ev;
                                       pub_Body := Repositories.Payload ev |}])) Hall)
        as (Hinv' & new & Hex & Hnew).
      { cbn [db]. replace d with
          (snd (MarkAsPublished (update_fails env i) (update_now env i)
                  (Repositories.ID ev) (db sys))) by (rewrite Hmark; reflexivity).
        apply MarkAsPublished_other; assumption. }
      split; [exact Hinv'|].
      exists ({| pub_Type := Repositories.EventType ev;
                 pub_Body := Repositories.Payload ev |} :: new).
      split.
      * rewrite Hex. cbn [exchange]. rewrite <- app_assoc. reflexivity.
      * constructor; [exact Hty|exact Hnew].
Qed.

Lemma poll_checkin id ex env sys :
  checkin_held_back id ex sys -> checkin_held_back id ex (poll env sys).
Proof.
  intros (Hinv & new & Hex & Hnew). unfold poll.
  destruct (GetUnpublishedEvents (fetch_fails env) (fetch_limit env) (db sys))
    as [events|e] eqn:Hget.
  - destruct (publish_events_checkin id env events 0%nat sys
                (batch_excludes_checkin id (db sys) _ _ events Hinv Hget) Hinv)
      as (Hinv' & new' & Hex' & Hnew').
    split; [exact Hinv'|]. exists (new ++ new'). split.
    + rewrite Hex', Hex, app_assoc. reflexivity.
    + apply Forall_app. auto.
  - split; [exact Hinv|]. exists new. auto.
Qed.

Lemma SaveWithEvent_checkin json id env record event d :
  unpublished_checkin id d ->
  unpublished_checkin id (snd (SaveWithEvent json env record event d)).
Proof.
  intros (row & Hrow & Hty & Hpub).
  destruct (PersistenceProofs.SaveWithEvent_result json env record event d)
    as [[e ->]|(pl & _ & Hfresh & ->)]; cbn [snd].
  - exists row. auto.
  - exists row. cbn [outbox_events].
    rewrite lookup_insert_ne; [auto|]. intros Heq. rewrite Heq in Hfresh. congruence.
Qed.

Lemma CheckIn_checkin json id env e d :
  unpublished_checkin id d ->
  unpublished_checkin id (snd (CheckIn json env e d)).
Proof.
  intros Hinv. unfold CheckIn.
  destruct (FindActiveByEmployeeID (in_find_fails env) e d) as [[r|]|err];
    [exact Hinv| |];
    (destruct (Entities.NewTimeRecord (in_record_id env) (in_record_now env) e)
       as [record|err']; [|exact Hinv];
     match goal with
     | |- context [SaveWithEvent json ?tx ?rec ?ev d] =>
         pose proof (SaveWithEvent_checkin json id tx rec ev d Hinv) as Hs;
         destruct (SaveWithEvent json tx rec ev d) as [[err2|] d']; exact Hs
     end).
Qed.

Lemma CheckOut_checkin json id w env e d :
  unpublished_checkin id d ->
  unpublished_checkin id (snd (CheckOut json w env e d)).
Proof.
  intros Hinv. unfold CheckOut.
  destruct (FindActiveByEmployeeID (out_find_fails env) e d) as [[r|]|err];
    [|exact Hinv|exact Hinv].
  destruct (_ <? _); [exact Hinv|].
  destruct (Entities.CheckOut (out_checkout_now env) r) as [record|err']; [|exact Hinv].
  match goal with
  | |- context [SaveWithEvent json ?tx ?rec ?ev d] =>
      pose proof (SaveWithEvent_checkin json id tx rec ev d Hinv) as Hs;
      destruct (SaveWithEvent json tx rec ev d) as [[err2|] d']; exact Hs
  end.
Qed.

Lemma run_checkin json id ex steps :
  forall sys,
    checkin_held_back id ex sys -> checkin_held_back id ex (run json steps sys).
Proof.
  unfold run. induction steps as [|st steps IH]; intros sys Hinv; [exact Hinv|].
  simpl. apply IH. destruct st as [env|env e|w env e]; cbn [step].
  - apply poll_checkin. exact Hinv.
  - destruct Hinv as (Hinv & Hex). split; [|exact Hex].
    cbn [db]. apply CheckIn_checkin. exact Hinv.
  - destruct Hinv as (Hinv & Hex). split; [|exact Hex].
    cbn [db]. apply CheckOut_checkin. exact Hinv.
Qed.

(** C6. A successful [CheckIn] writes, under the fresh outbox id, a
    check-in event that is unpublished.  From then on, through every
    sequence of relay polls (with any fetch limit, and whatever fails)
    interleaved with further check-ins and check-outs, that row stays an
    unpublished check-in event, the relay puts nothing but check-out
    messages on the exchange, and no call of [GetUnpublishedEvents]
    returns the row. *)
Theorem checkin_event_never_published (json_Marshal : DomainEvent -> option Bytes)
    (env : CheckInEnv) (employeeID : string) (db0 db1 : Database)
    (record : Entities.TimeRecord) :
  CheckIn json_Marshal env employeeID db0 = (Ok record, db1) ->
  let id := outbox_id (in_tx env) in
  outbox_events db0 !! id = None /\
  forall (steps : list Step) (ex : list Publishing),
    let sys := run json_Marshal steps (mkSystem db1 ex) in
    checkin_held_back id ex sys /\
    forall (query_fails : bool) (limit : Z) (evs : list Repositories.OutboxEvent),
      GetUnpublishedEvents query_fails limit (db sys) = Ok evs ->
      id ∉ map Repositories.ID evs.
Proof.
  intros Hin id.
  assert (Hwritten : outbox_events db0 !! id = None /\ unpublished_checkin id db1).
  { unfold CheckIn in Hin.
    destruct (FindActiveByEmployeeID (in_find_fails env) employeeID db0) as [[r|]|err];
      [discriminate| |];
      (destruct (Entities.NewTimeRecord (in_record_id env) (in_record_now env) employeeID)
         as [rec|err']; [|discriminate];
       match type of Hin with
       | context [SaveWithEvent json_Marshal ?tx ?rc ?ev db0] =>
           destruct (PersistenceProofs.SaveWithEvent_result json_Marshal tx rc ev db0)
             as [[e He]|(pl & _ & Hfresh & He)]; rewrite He in Hin;
           [discriminate|]
       end;
       injection Hin as <- <-; split; [exact Hfresh|];
       eexists; cbn [outbox_events]; rewrite lookup_insert_eq;
       split; [reflexivity|split; reflexivity]). }
  destruct Hwritten as [Hfresh Hrow]. split; [exact Hfresh|].
  intros steps ex sys.
  assert (Hheld : checkin_held_back id ex sys).
  { apply run_checkin. split; [exact Hrow|]. exists []. rewrite app_nil_r. auto. }
  split; [exact Hheld|].
  intros f limit evs Hget Hmem.
  pose proof (batch_excludes_checkin id (db sys) f limit evs (proj1 Hheld) Hget) as Hall.
  rewrite Forall_forall in Hall.
  apply list_elem_of_fmap in Hmem as (ev & Hid & Hev).
  destruct (Hall ev Hev) as [Hne _]. congruence.
Qed.

(** The theorem for an employee who checks in and, two minutes later,
    checks out, with a poll of the relay after each. *)
Lemma checkin_event_never_published_witness :
  let json := fun _ : DomainEvent => Some ([x7b; x7d] : Bytes) in
  let tx := fun id t =>
    {| begin_fails := false; exec_record_fails := false;
       exec_outbox_fails := false; commit_fails := false;
       outbox_id := id; outbox_now := t; server_now := t |} in
  let cin := {| in_find_fails := false; in_record_id := "r1";
                in_record_now := 1 * Second; in_event_id := "e1";
                in_event_now := 1 * Second; in_tx := tx "o1" (1 * Second) |} in
  let cout := {| out_find_fails := false; out_since_now := 121 * Second;
                 out_checkout_now := 121 * Second; out_event_id := "e2";
                 out_event_now := 121 * Second;
                 out_tx := tx "o2" (121 * Second) |} in
  let tick := {| fetch_limit := 100; fetch_fails := false;
                 publish_fails := fun _ => false; publish_error := fun _ => "";
                 update_fails := fun _ => false;
                 update_now := fun _ => 122 * Second |} in
  let db1 := snd (CheckIn json cin "E1" (mkDB ∅ ∅)) in
  let sys := run json [StepPoll tick; StepCheckOut 60 cout "E1"; StepPoll tick]
                 (mkSystem db1 []) in
  checkin_held_back "o1" [] sys /\
  map pub_Type (exchange sys) = [EventTypeEmployeeCheckedOut].
Proof.
  intros json tx cin cout tick db1 sys.
  split.
  - apply (checkin_event_never_published json cin "E1" (mkDB ∅ ∅) db1
             {| Entities.ID := "r1"; Entities.EmployeeID := "E1";
                Entities.CheckInAt := 1 * Second; Entities.CheckOutAt := None;
                Entities.Status := Entities.StatusCheckedIn;
                Entities.HoursWorked := 0%float |}).
    vm_compute. reflexivity.
  - vm_compute. reflexivity.
Defined.

End RelayProofs.

Module BreakerUseProofs.
Import Go GoFacts CircuitBreaker BreakerUse.

Lemma report_threshold cb r : failureThreshold (report cb r) = failureThreshold cb.
Proof.
  destruct r; cbn [report].
  - unfold RecordSuccess. cbn. destruct (is_half (state cb)); [|reflexivity].
    cbn. destruct (_ <=? _); reflexivity.
  - apply CircuitBreakerProofs.RecordFailure_config.
Qed.

(** Outside HALF a success only clears the failure count. *)
Lemma RecordSuccess_not_half cb :
  state cb <> StateHalf -> RecordSuccess cb = set_failureCount 0 cb.
Proof.
  intros Hne. unfold RecordSuccess. cbn [state set_failureCount].
  destruct (state cb); try reflexivity. contradiction.
Qed.

(** Reports alone never take the breaker out of OPEN. *)
Lemma reports_open rs :
  forall cb, state cb = StateOpen -> state (reports rs cb) = StateOpen.
Proof.
  induction rs as [|r rs IH]; intros cb Hst; [exact Hst|].
  apply IH. destruct r; cbn [report].
  - rewrite RecordSuccess_not_half by (rewrite Hst; discriminate). exact Hst.
  - destruct (CircuitBreakerProofs.RecordFailure_fields now cb) as (_ & _ & _ & Hs).
    rewrite Hs, Hst. destruct (_ <=? _); reflexivity.
Qed.

(** A closed breaker that has counted [k] failures since the last success
    is open after the reports [rs] exactly when [rs] begins with the
    failures still missing to the threshold, or contains as many failures
    in a row as the threshold. *)
Lemma reports_closed rs :
  forall cb,
    state cb = StateClosed ->
    0 <= failureCount cb < failureThreshold cb ->
    failureThreshold cb <= maxInt64 ->
    (state (reports rs cb) = StateClosed \/ state (reports rs cb) = StateOpen) /\
    (state (reports rs cb) = StateOpen <->
     (exists times post,
        rs = map Failed times ++ post /\
        Z.of_nat (length times) = failureThreshold cb - failureCount cb) \/
     failures_in_a_row (failureThreshold cb) rs).
Proof.
  induction rs as [|r rs IH]; intros cb Hst Hfc Hmax.
  - cbn. split; [left; exact Hst|]. split; [rewrite Hst; discriminate|].
    intros [(times & post & Heq & Hlen)|(pre & times & post & Heq & Hlen)].
    + destruct times; [simpl in Hlen; lia|discriminate].
    + destruct pre; [|discriminate]. destruct times; [simpl in Hlen; lia|discriminate].
  - change (reports (r :: rs) cb) with (reports rs (report cb r)).
    pose proof (report_threshold cb r) as Hthr.
    destruct r as [|now]; cbn [report] in *.
    + (* a success clears the count *)
      assert (Hs : state (RecordSuccess cb) = StateClosed)
        by (rewrite RecordSuccess_not_half by (rewrite Hst; discriminate); exact Hst).
      assert (Hc : failureCount (RecordSuccess cb) = 0)
        by (rewrite RecordSuccess_not_half by (rewrite Hst; discriminate); reflexivity).
      destruct (IH (RecordSuccess cb) Hs) as [Hcases Hiff]; [lia|lia|].
      split; [exact Hcases|]. rewrite Hiff, Hthr, Hc, Z.sub_0_r. split.
      * intros [(times & post & -> & Hlen)|(pre & times & post & -> & Hlen)]; right.
        -- exists [Succeeded], times, post. split; [reflexivity|exact Hlen].
        -- exists (Succeeded :: pre), times, post. split; [reflexivity|exact Hlen].
      * intros [(times & post & Heq & Hlen)|(pre & times & post & Heq & Hlen)].
        -- destruct times; [simpl in Hlen; lia|discriminate].
        -- destruct pre as [|p pre].
           ++ destruct times; [simpl in Hlen; lia|discriminate].
           ++ injection Heq as _ ->. right. exists pre, times, post. auto.
    + (* a failure is counted *)
      destruct (CircuitBreakerProofs.RecordFailure_fields now cb) as (Hc & _ & _ & Hs).
      rewrite wrap64_id in Hc, Hs by (unfold in_int64, minInt64, maxInt64 in *; lia).
      destruct (Z.leb_spec (failureThreshold cb) (failureCount cb + 1)) as [Hge|Hlt].
      * pose proof (reports_open rs _ Hs) as Hopen.
        split; [right; exact Hopen|]. split; [|intros _; exact Hopen].
        intros _. left. exists [now], rs. split; [reflexivity|]. simpl. lia.
      * rewrite Hst in Hs.
        destruct (IH (RecordFailure now cb) Hs) as [Hcases Hiff]; [lia|lia|].
        split; [exact Hcases|]. rewrite Hiff, Hthr, Hc. split.
        -- intros [(times & post & -> & Hlen)|(pre & times & post & -> & Hlen)].
           ++ left. exists (now :: times), post. split; [reflexivity|]. simpl length. lia.
           ++ right. exists (Failed now :: pre), times, post. split; [reflexivity|exact Hlen].
        -- intros [(times & post & Heq & Hlen)|(pre & times & post & Heq & Hlen)].
           ++ destruct times as [|t times]; [simpl in Hlen; lia|].
              injection Heq as _ ->. left. exists times, post.
              split; [reflexivity|]. simpl length in Hlen. lia.
           ++ destruct pre as [|p pre].
              ** destruct times as [|t times]; [simpl in Hlen; lia|].
                 injection Heq as _ ->. left.
                 set (m := Z.to_nat (failureThreshold cb - (failureCount cb + 1))).
                 exists (take m times), (map Failed (drop m times) ++ post). split.
                 --- rewrite app_assoc, <- map_app, take_drop. reflexivity.
                 --- rewrite length_take. simpl length in Hlen. unfold m. lia.
              ** injection Heq as _ ->. right. exists pre, times, post. auto.
Qed.

(** X7. A breaker that starts closed is open after a run of reports exactly
    when the run contains [failureThreshold] failures in a row, with no
    success in between: a success clears the count.  Otherwise it is
    still closed. *)
Theorem breaker_opens_iff_failures_in_a_row (ft st : Z) (reset : Duration)
    (rs : list Report) :
  1 <= ft <= maxInt64 ->
  let cb := reports rs (NewCircuitBreaker ft st reset) in
  (state cb = StateOpen <-> failures_in_a_row ft rs) /\
  (state cb = StateClosed <-> ~ failures_in_a_row ft rs).
Proof.
  intros Hft cb.
  destruct (reports_closed rs (NewCircuitBreaker ft st reset)) as [Hcases Hiff];
    [reflexivity|cbn; lia|cbn; lia|].
  fold cb in Hcases, Hiff. cbn [failureThreshold failureCount NewCircuitBreaker] in Hiff.
  rewrite Z.sub_0_r in Hiff.
  assert (Hopen : state cb = StateOpen <-> failures_in_a_row ft rs).
  { rewrite Hiff. split; [|auto].
    intros [(times & post & -> & Hlen)|H]; [|exact H].
    exists [], times, post. auto. }
  split; [exact Hopen|]. split.
  - intros Hc Hrow. apply Hopen in Hrow. congruence.
  - intros Hno. destruct Hcases as [Hc|Ho]; [exact Hc|].
    exfalso. apply Hno, Hopen, Ho.
Qed.

(** The theorem for the threshold 3: two failures, a success and two more
    failures leave the breaker closed; a third failure in a row opens it. *)
Lemma breaker_opens_iff_failures_in_a_row_witness :
  let rs := [Failed 1; Failed 2; Succeeded; Failed 3; Failed 4] in
  state (reports rs (NewCircuitBreaker 3 1 60)) = StateClosed /\
  state (reports (rs ++ [Failed 5]) (NewCircuitBreaker 3 1 60)) = StateOpen.
Proof.
  intros rs.
  pose proof (breaker_opens_iff_failures_in_a_row 3 1 60 (rs ++ [Failed 5])
                ltac:(unfold maxInt64; lia)) as [Hopen _].
  split; [reflexivity|].
  apply Hopen. exists [Failed 1; Failed 2; Succeeded], [3; 4; 5], [].
  split; reflexivity.
Defined.

End BreakerUseProofs.

Module LegacyClientProofs.
Import Go GoFacts Events CircuitBreaker LegacyClient Handlers.

(** An open breaker whose reset timeout has not passed stops the call. *)
Lemma can_execute_open now cb :
  state cb = StateOpen ->
  Since now (lastFailureTime cb) <= timeout cb ->
  can_execute now (Some cb) = (Some (ErrCircuitBreaker ErrCircuitOpen), Some cb).
Proof.
  intros Hst Hin. unfold can_execute, CanExecute. rewrite Hst.
  destruct (Z.ltb_spec (timeout cb) (Since now (lastFailureTime cb))); [lia|reflexivity].
Qed.

Lemma RecordLaborCost_open env id h w cb :
  circuitBreaker w = Some cb ->
  state cb = StateOpen ->
  Since (now_can_execute env) (lastFailureTime cb) <= timeout cb ->
  RecordLaborCost env id h w = (Some (ErrCircuitBreaker ErrCircuitOpen), w).
Proof.
  intros Hcb Hst Hin. unfold RecordLaborCost.
  rewrite Hcb, (can_execute_open _ cb Hst Hin). destruct w; simpl in *. congruence.
Qed.

(** A closed breaker lets the call through; a request that the API turns
    down is counted as a failure. *)
Lemma RecordLaborCost_turned_down env id h w cb :
  circuitBreaker w = Some cb ->
  state cb = StateClosed ->
  json_Marshal_fails h = false ->
  new_request_fails env = false ->
  turned_down (do_result env) ->
  snd (RecordLaborCost env id h w)
    = mkLegacy (Some (RecordFailure (now_failure env) cb))
               (posted w ++ [request_of env id h]) /\
  fst (RecordLaborCost env id h w) <> None.
Proof.
  intros Hcb Hst Hm Hn Hd. unfold RecordLaborCost, can_execute, CanExecute.
  rewrite Hcb, Hst, Hm, Hn.
  destruct (do_result env) as [|code]; [split; [reflexivity|discriminate]|].
  destruct Hd as [H1 H2].
  destruct (Z.eqb_spec code StatusOK); [contradiction|].
  destruct (Z.eqb_spec code StatusCreated); [contradiction|].
  split; [reflexivity|discriminate].
Qed.

(** Requests that are all turned down, no more of them than the failures
    the closed breaker still tolerates plus one: each is posted, and each
    is counted. *)
Lemma RecordLaborCosts_turned_down id h envs :
  forall w cb,
    circuitBreaker w = Some cb ->
    state cb = StateClosed ->
    0 <= failureCount cb ->
    failureCount cb + Z.of_nat (length envs) <= failureThreshold cb ->
    failureThreshold cb <= maxInt64 ->
    json_Marshal_fails h = false ->
    Forall (fun env => new_request_fails env = false /\ turned_down (do_result env)) envs ->
    RecordLaborCosts envs id h w
      = mkLegacy (Some (RecordFailures (map now_failure envs) cb))
                 (posted w ++ map (fun env => request_of env id h) envs).
Proof.
  induction envs as [|env envs IH]; intros w cb Hcb Hst Hfc Hlen Hmax Hm Hall.
  - simpl. rewrite app_nil_r. destruct w; simpl in *. congruence.
  - apply Forall_cons in Hall as [[Hn Hd] Hall].
    change (RecordLaborCosts (env :: envs) id h w)
      with (RecordLaborCosts envs id h (snd (RecordLaborCost env id h w))).
    destruct (RecordLaborCost_turned_down env id h w cb Hcb Hst Hm Hn Hd) as [Hw _].
    rewrite Hw. cbn [map].
    change (RecordFailures (now_failure env :: map now_failure envs) cb)
      with (RecordFailures (map now_failure envs) (RecordFailure (now_failure env) cb)).
    destruct envs as [|env' envs'].
    + reflexivity.
    + destruct (CircuitBreakerProofs.RecordFailure_fields (now_failure env) cb)
        as (Hc & _ & _ & Hs).
      destruct (CircuitBreakerProofs.RecordFailure_config (now_failure env) cb)
        as (Hft & _ & _).
      cbn [length] in Hlen.
      assert (Hw64 : wrap64 (failureCount cb + 1) = failureCount cb + 1).
      { apply wrap64_id. unfold in_int64, minInt64, maxInt64 in *. lia. }
      rewrite Hw64 in Hc, Hs.
      rewrite (IH _ (RecordFailure (now_failure env) cb)); cbn [circuitBreaker posted].
      * rewrite <- app_assoc. reflexivity.
      * reflexivity.
      * rewrite Hs. destruct (Z.leb_spec (failureThreshold cb) (failureCount cb + 1));
          [lia|exact Hst].
      * lia.
      * rewrite Hc, Hft. cbn [length]. lia.
      * rewrite Hft. exact Hmax.
      * exact Hm.
      * exact Hall.
Qed.

(** X3. Through the client, a fresh breaker with the failure threshold [ft]
    lets [ft] requests reach the legacy API when the API turns each of them
    down.  It is open after the last of them, and from then on, until more
    than the reset timeout has passed since that failure, every call
    returns the breaker's error without a request being made and without
    any change to the breaker. *)
Theorem legacy_breaker_trips_and_shields (ft st : Z) (reset : Duration)
    (envs : list CallEnv) (id : string) (h : float64)
    (sent : list LaborCostRequest) :
  1 <= ft <= maxInt64 ->
  Z.of_nat (length envs) = ft ->
  json_Marshal_fails h = false ->
  Forall (fun env => new_request_fails env = false /\ turned_down (do_result env)) envs ->
  let w := RecordLaborCosts envs id h
             (mkLegacy (Some (NewCircuitBreaker ft st reset)) sent) in
  posted w = sent ++ map (fun env => request_of env id h) envs /\
  exists cb,
    circuitBreaker w = Some cb /\
    state cb = StateOpen /\
    forall (env : CallEnv) (id' : string) (h' : float64),
      Since (now_can_execute env) (List.last (map now_failure envs) zeroTime) <= reset ->
      RecordLaborCost env id' h' w = (Some (ErrCircuitBreaker ErrCircuitOpen), w).
Proof.
  intros Hft Hlen Hm Hall w.
  set (cb0 := NewCircuitBreaker ft st reset).
  assert (Hw : w = mkLegacy (Some (RecordFailures (map now_failure envs) cb0))
                            (sent ++ map (fun env => request_of env id h) envs)).
  { unfold w. apply RecordLaborCosts_turned_down; cbn; try reflexivity; try lia; assumption. }
  destruct (CircuitBreakerProofs.RecordFailures_fields (map now_failure envs) cb0 zeroTime)
    as (Hc & _ & _ & Hto & Hne).
  { cbn. lia. } { cbn. rewrite length_map. lia. }
  destruct Hne as (_ & Hlast & Hopen).
  { destruct envs; [simpl in Hlen; lia|discriminate]. }
  rewrite Hw. cbn [posted circuitBreaker]. split; [reflexivity|].
  eexists. split; [reflexivity|]. split.
  - apply Hopen. rewrite Hc, length_map. cbn. lia.
  - intros env id' h' Hin.
    apply (RecordLaborCost_open env id' h' _
             (RecordFailures (map now_failure envs) cb0)); [reflexivity| |].
    + apply Hopen. rewrite Hc, length_map. cbn. lia.
    + rewrite Hlast, Hto. exact Hin.
Qed.

(** The theorem for the worker's breaker (five failures, reset after 60
    seconds): five requests answered 503, one per second, then a call two
    seconds later. *)
Lemma legacy_breaker_trips_and_shields_witness :
  let env := fun t => {| now_can_execute := t * Second; now_recorded := t * Second;
                         new_request_fails := false; do_result := DoResponse 503;
                         now_failure := t * Second |} in
  let envs := map env [1; 2; 3; 4; 5] in
  let w := RecordLaborCosts envs "E1" 8%float
             (mkLegacy (Some (NewCircuitBreaker 5 1 (60 * Second))) []) in
  length (posted w) = 5%nat /\
  RecordLaborCost (env 7) "E2" 1%float w = (Some (ErrCircuitBreaker ErrCircuitOpen), w).
Proof.
  intros env envs w.
  destruct (legacy_breaker_trips_and_shields 5 1 (60 * Second) envs "E1" 8%float [])
    as (Hposted & cb & Hcb & Hst & Hshield).
  - unfold maxInt64. lia.
  - reflexivity.
  - reflexivity.
  - repeat constructor; cbn; unfold StatusOK, StatusCreated; lia.
  - split.
    + fold w in Hposted. rewrite Hposted. reflexivity.
    + apply Hshield. vm_compute. discriminate.
Defined.

(** No call makes more than one request. *)
Lemma RecordLaborCost_posts env id h w :
  posted (snd (RecordLaborCost env id h w)) = posted w \/
  posted (snd (RecordLaborCost env id h w)) = posted w ++ [request_of env id h].
Proof.
  unfold RecordLaborCost.
  destruct (can_execute _ _) as [[e|] cb]; [left; reflexivity|].
  destruct (json_Marshal_fails h); [left; reflexivity|].
  destruct (new_request_fails env); [left; reflexivity|].
  destruct (do_result env) as [|code]; [right; reflexivity|].
  destruct (negb _ && negb _); right; reflexivity.
Qed.

Lemma RecordSuccess_failureCount cb : failureCount (RecordSuccess cb) = 0.
Proof.
  unfold RecordSuccess. cbn. destruct (is_half (state cb)); [|reflexivity].
  cbn. destruct (_ <=? _); reflexivity.
Qed.

(** X4. What a call tells its caller.  A nil error means that the request,
    with this employee and these hours, was handed to the HTTP client and
    answered 200 or 201, and that the breaker's failure count is zero.  A
    call that stops before the request is made (hours that are a NaN or an
    infinity, which do not serialize, or a URL that is refused) returns an
    error, makes no request, and leaves the breaker as [CanExecute] left
    it: neither a failure nor a success is recorded.  No call makes more
    than one request. *)
Theorem RecordLaborCost_outcome (env : CallEnv) (id : string) (h : float64)
    (w : Legacy) :
  let r := RecordLaborCost env id h w in
  (fst r = None ->
     posted (snd r) = posted w ++ [request_of env id h] /\
     (do_result env = DoResponse StatusOK \/
      do_result env = DoResponse StatusCreated) /\
     forall cb, circuitBreaker (snd r) = Some cb -> failureCount cb = 0) /\
  (json_Marshal_fails h = true \/ new_request_fails env = true ->
     fst r <> None /\
     posted (snd r) = posted w /\
     circuitBreaker (snd r)
       = snd (can_execute (now_can_execute env) (circuitBreaker w))) /\
  (posted (snd r) = posted w \/
   posted (snd r) = posted w ++ [request_of env id h]).
Proof.
  cbv zeta. unfold RecordLaborCost.
  destruct (can_execute (now_can_execute env) (circuitBreaker w)) as [[e|] cb];
    cbn [fst snd posted circuitBreaker].
  { split; [discriminate|]. split; [|left; reflexivity].
    intros _. split; [discriminate|]. split; reflexivity. }
  destruct (json_Marshal_fails h); cbn [fst snd posted circuitBreaker].
  { split; [discriminate|]. split; [|left; reflexivity].
    intros _. split; [discriminate|]. split; reflexivity. }
  destruct (new_request_fails env); cbn [fst snd posted circuitBreaker].
  { split; [discriminate|]. split; [|left; reflexivity].
    intros _. split; [discriminate|]. split; reflexivity. }
  destruct (do_result env) as [|code]; cbn [fst snd posted circuitBreaker].
  { split; [discriminate|]. split; [|right; reflexivity].
    intros [?|?]; discriminate. }
  destruct (Z.eqb_spec code StatusOK) as [->|Hok];
    [|destruct (Z.eqb_spec code StatusCreated) as [->|Hcr]];
    cbn [negb andb fst snd posted circuitBreaker].
  - split; [|split; [intros [?|?]; discriminate|right; reflexivity]].
    intros _. split; [reflexivity|]. split; [left; reflexivity|].
    intros cb'. destruct cb as [cb|]; [|discriminate].
    intros [= <-]. apply RecordSuccess_failureCount.
  - split; [|split; [intros [?|?]; discriminate|right; reflexivity]].
    intros _. split; [reflexivity|]. split; [right; reflexivity|].
    intros cb'. destruct cb as [cb|]; [|discriminate].
    intros [= <-]. apply RecordSuccess_failureCount.
  - split; [discriminate|]. split; [|right; reflexivity].
    intros [?|?]; discriminate.
Qed.

(** ** The labor-cost handler on top of the client *)

(** A call through the session makes at most one request, for the
    employee and the hours it was given. *)
Lemma call_posted id h s :
  exists new,
    posted (legacy (snd (call id h s))) = posted (legacy s) ++ new /\
    (length new <= 1)%nat /\
    Forall (fun r => EmployeeID r = id /\ HoursWorked r = h) new.
Proof.
  unfold call.
  pose proof (RecordLaborCost_posts (envs s (made s)) id h (legacy s)) as Hp.
  destruct (RecordLaborCost (envs s (made s)) id h (legacy s)) as [err w].
  cbn [snd legacy] in *. destruct Hp as [Hp|Hp]; rewrite Hp.
  - exists []. rewrite app_nil_r. repeat split; [simpl; lia|constructor].
  - eexists. split; [reflexivity|]. split; [simpl; lia|].
    constructor; [split; reflexivity|constructor].
Qed.

Lemma retry_loop_load cfg ev fuel :
  forall attempt backoff (st : HState Session),
    0 <= attempt ->
    MaxAttempts cfg <= maxInt64 ->
    let st' := snd (retry_loop call cfg ev fuel attempt backoff st) in
    exists new slept,
      posted (legacy (world st')) = posted (legacy (world st)) ++ new /\
      Z.of_nat (length new) <= Z.max 0 (MaxAttempts cfg - attempt) /\
      Forall (fun r => EmployeeID r = out_EmployeeID ev /\
                       HoursWorked r = out_HoursWorked ev) new /\
      sleeps st' = sleeps st ++ slept /\
      Z.of_nat (length slept) <= Z.max 0 (MaxAttempts cfg - attempt - 1).
Proof.
  induction fuel as [|fuel IH]; intros attempt backoff st Hat Hmax; cbv zeta.
  { exists [], []. rewrite !app_nil_r. simpl.
    repeat split; try lia. constructor. }
  cbn [retry_loop].
  destruct (Z.ltb_spec attempt (MaxAttempts cfg)).
  2:{ exists [], []. rewrite !app_nil_r. simpl. repeat split; try lia. constructor. }
  destruct (call_posted (out_EmployeeID ev) (out_HoursWorked ev) (world st))
    as (new1 & Hp1 & Hl1 & Hall1).
  destruct (call (out_EmployeeID ev) (out_HoursWorked ev) (world st)) as [[e|] s1].
  2:{ exists new1, []. cbn [snd world sleeps] in *. rewrite app_nil_r.
      repeat split; try assumption; simpl; lia. }
  rewrite wrap64_id by (unfold in_int64, minInt64, maxInt64 in *; lia).
  destruct (Z.leb_spec (MaxAttempts cfg) (attempt + 1)).
  { exists new1, []. cbn [snd world sleeps] in *. rewrite app_nil_r.
    repeat split; try assumption; simpl; lia. }
  cbn [world sleeps snd] in *.
  destruct (IH (attempt + 1) (next_backoff cfg backoff)
              (mkHState s1 (sleeps st ++ [backoff]))) as (new2 & sl2 & Hp2 & Hl2 & Hall2 & Hs2 & Hsl2);
    [lia|exact Hmax|].
  cbv zeta in Hp2, Hs2. cbn [world sleeps] in Hp2, Hs2.
  exists (new1 ++ new2), (backoff :: sl2). split; [|split; [|split; [|split]]].
  - rewrite Hp2, Hp1, app_assoc. reflexivity.
  - rewrite length_app. lia.
  - apply Forall_app. split; assumption.
  - rewrite Hs2, <- app_assoc. reflexivity.
  - cbn [length]. lia.
Qed.

(** X5. Whatever the legacy API and the breaker do, handling one message makes
    at most [MaxAttempts] requests, all of them for the employee and the
    hours of the event in the message, and sleeps at most
    [MaxAttempts - 1] times. *)
Theorem HandleCheckedOut_load_bounded
    (json_Unmarshal : Bytes -> option EmployeeCheckedOutEvent)
    (cfg : RetryConfig) (data : Bytes) (st : HState Session) :
  MaxAttempts cfg <= maxInt64 ->
  let st' := snd (HandleCheckedOut json_Unmarshal call cfg data st) in
  exists new slept,
    posted (legacy (world st')) = posted (legacy (world st)) ++ new /\
    Z.of_nat (length new) <= Z.max 0 (MaxAttempts cfg) /\
    Forall (fun r => exists ev, json_Unmarshal data = Some ev /\
                                EmployeeID r = out_EmployeeID ev /\
                                HoursWorked r = out_HoursWorked ev) new /\
    sleeps st' = sleeps st ++ slept /\
    Z.of_nat (length slept) <= Z.max 0 (MaxAttempts cfg - 1).
Proof.
  intros Hmax. cbv zeta. unfold HandleCheckedOut.
  destruct (json_Unmarshal data) as [ev|].
  - destruct (retry_loop_load cfg ev (S (Z.to_nat (MaxAttempts cfg))) 0
                (InitialBackoff cfg) st) as (new & slept & Hp & Hl & Hall & Hs & Hsl);
      [lia|exact Hmax|].
    exists new, slept. rewrite Z.sub_0_r in *.
    repeat split; try assumption.
    eapply Forall_impl; [exact Hall|]. intros r [? ?]. exists ev. auto.
  - exists [], []. cbn [snd]. rewrite !app_nil_r. simpl.
    repeat split; try lia. constructor.
Qed.

(** The theorem for the worker's configuration (five attempts) and an API
    that answers every request with 500. *)
Lemma HandleCheckedOut_load_bounded_witness :
  let ev := {| out_header := {| EventID := "e1"; HeaderEventType := EventTypeEmployeeCheckedOut;
                                HeaderVersion := 1; Timestamp := 0 |};
               out_EmployeeID := "E1"; out_CheckInAt := 0; out_CheckOutAt := 0;
               out_HoursWorked := 8.5%float; out_RecordID := "r1" |} in
  let json := fun _ : Bytes => Some ev in
  let env := {| now_can_execute := 0; now_recorded := 0; new_request_fails := false;
                do_result := DoResponse 500; now_failure := 0 |} in
  let st := mkHState (mkSession (mkLegacy (Some (NewCircuitBreaker 5 1 (60 * Second))) [])
                                (fun _ => env) 0) [] in
  let st' := snd (HandleCheckedOut json call defaultRetryConfig [] st) in
  exists new slept,
    posted (legacy (world st')) = posted (legacy (world st)) ++ new /\
    Z.of_nat (length new) <= Z.max 0 (MaxAttempts defaultRetryConfig) /\
    Forall (fun r => exists ev, json [] = Some ev /\
                                EmployeeID r = out_EmployeeID ev /\
                                HoursWorked r = out_HoursWorked ev) new /\
    sleeps st' = sleeps st ++ slept /\
    Z.of_nat (length slept) <= Z.max 0 (MaxAttempts defaultRetryConfig - 1).
Proof.
  intros ev json env st st'.
  apply (HandleCheckedOut_load_bounded json defaultRetryConfig [] st).
  vm_compute. discriminate.
Defined.

(** With an open breaker whose reset timeout does not pass, every call
    through the session is stopped, and only the call count changes. *)
Lemma call_open id h s cb :
  circuitBreaker (legacy s) = Some cb ->
  state cb = StateOpen ->
  Since (now_can_execute (envs s (made s))) (lastFailureTime cb) <= timeout cb ->
  call id h s
    = (Some (ErrCircuitBreaker ErrCircuitOpen),
       mkSession (legacy s) (envs s) (S (made s))).
Proof.
  intros Hcb Hst Hin. unfold call.
  rewrite (RecordLaborCost_open _ id h _ cb Hcb Hst Hin). reflexivity.
Qed.

Lemma calls_open id h cb n :
  forall s,
    circuitBreaker (legacy s) = Some cb ->
    state cb = StateOpen ->
    (forall i, (made s <= i < made s + n)%nat ->
       Since (now_can_execute (envs s i)) (lastFailureTime cb) <= timeout cb) ->
    fails_first call id h n s = true /\
    after_calls call id h n s = mkSession (legacy s) (envs s) (made s + n).
Proof.
  induction n as [|n IH]; intros s Hcb Hst Hin.
  - simpl. split; [reflexivity|]. destruct s; simpl. f_equal. lia.
  - cbn [fails_first after_calls].
    rewrite (call_open id h s cb Hcb Hst) by (apply Hin; lia).
    cbn [fst snd].
    destruct (IH (mkSession (legacy s) (envs s) (S (made s)))) as [Hf Ha];
      cbn [legacy envs made]; try assumption.
    { intros i Hi. cbn [made] in Hi. apply Hin. lia. }
    split; [exact Hf|]. rewrite Ha. cbn [legacy envs made]. f_equal. lia.
Qed.

(** X6. The handler does not fail fast.  When the breaker is open and its
    reset timeout does not pass while a message is handled, each of the
    [MaxAttempts] attempts is stopped by the breaker and no request is
    made, but the handler still sleeps through the whole backoff schedule
    between the attempts before it returns the breaker's error. *)
Theorem HandleCheckedOut_open_breaker
    (json_Unmarshal : Bytes -> option EmployeeCheckedOutEvent)
    (cfg : RetryConfig) (data : Bytes) (ev : EmployeeCheckedOutEvent)
    (s : Session) (slept : list Duration) (cb : CircuitBreaker) :
  json_Unmarshal data = Some ev ->
  1 <= MaxAttempts cfg <= maxInt64 ->
  circuitBreaker (legacy s) = Some cb ->
  state cb = StateOpen ->
  let n := Z.to_nat (MaxAttempts cfg) in
  (forall i, (made s <= i < made s + n)%nat ->
     Since (now_can_execute (envs s i)) (lastFailureTime cb) <= timeout cb) ->
  HandleCheckedOut json_Unmarshal call cfg data (mkHState s slept)
    = (Returned (Some (ErrFailedAfter (MaxAttempts cfg)
                         (ErrCircuitBreaker ErrCircuitOpen))),
       mkHState (mkSession (legacy s) (envs s) (made s + n))
                (slept ++ backoff_schedule cfg (n - 1))).
Proof.
  intros Hjson Hmax Hcb Hst n Hin. unfold HandleCheckedOut. rewrite Hjson.
  destruct (calls_open (out_EmployeeID ev) (out_HoursWorked ev) cb n s Hcb Hst Hin)
    as [Hfail Hafter].
  destruct (calls_open (out_EmployeeID ev) (out_HoursWorked ev) cb (n - 1) s Hcb Hst)
    as [_ Hbefore].
  { intros i Hi. apply Hin. lia. }
  assert (Hn : n = S (n - 1)) by (unfold n; lia).
  destruct (HandlersProofs.retry_loop_exhausts call cfg ev (n - 1)
              (S (Z.to_nat (MaxAttempts cfg))) 0 (InitialBackoff cfg)
              (mkHState s slept)) as (e & He & Hloop).
  - fold n. lia.
  - lia.
  - unfold n. lia.
  - lia.
  - cbn [world]. rewrite <- Hn. exact Hfail.
  - cbn [world sleeps] in He, Hloop. rewrite <- Hn in Hloop.
    rewrite Hbefore in He.
    rewrite call_open with (cb := cb) in He; cbn [legacy envs made fst] in *;
      try assumption; [|apply Hin; lia].
    injection He as <-.
    rewrite Hloop, Hafter. reflexivity.
Qed.

(** The theorem for the worker's configuration: the breaker opened at
    second 5 with a reset timeout of 60 seconds, and a message handled from
    second 7 on: no request, sleeps of 1, 2, 4 and 8 seconds. *)
Lemma HandleCheckedOut_open_breaker_witness :
  let ev := {| out_header := {| EventID := "e1"; HeaderEventType := EventTypeEmployeeCheckedOut;
                                HeaderVersion := 1; Timestamp := 0 |};
               out_EmployeeID := "E1"; out_CheckInAt := 0; out_CheckOutAt := 0;
               out_HoursWorked := 8.5%float; out_RecordID := "r1" |} in
  let json := fun _ : Bytes => Some ev in
  let env := fun i : nat =>
               {| now_can_execute := (7 + Z.of_nat i) * Second;
                  now_recorded := 0; new_request_fails := false;
                  do_result := DoResponse 200; now_failure := 0 |} in
  let cb := mkCB StateOpen 5 0 (5 * Second) 5 1 (60 * Second) in
  let s := mkSession (mkLegacy (Some cb) []) env 0 in
  HandleCheckedOut json call defaultRetryConfig [] (mkHState s [])
    = (Returned (Some (ErrFailedAfter 5 (ErrCircuitBreaker ErrCircuitOpen))),
       mkHState (mkSession (mkLegacy (Some cb) []) env 5)
                [1 * Second; 2 * Second; 4 * Second; 8 * Second]).
Proof.
  intros ev json env cb s.
  refine (eq_trans (HandleCheckedOut_open_breaker json defaultRetryConfig [] ev s [] cb
                      eq_refl _ eq_refl eq_refl _) _).
  - unfold maxInt64. simpl. lia.
  - intros i Hi. simpl in Hi. cbn [envs s env now_can_execute lastFailureTime timeout cb].
    unfold Since, Time_Sub, minInt64, maxInt64, Second. lia.
  - vm_compute. reflexivity.
Defined.

End LegacyClientProofs.

Module TimeRecordStoreProofs.
Import Go GoFacts Events Persistence TimeRecordStore.

(** The row that [ORDER BY check_in_at DESC] puts first is one of the rows
    and no row has a later check-in. *)
Lemma foldl_later_elem (rows : list (string * TimeRecordRow)) :
  forall kv, foldl later kv rows ∈ kv :: rows.
Proof.
  induction rows as [|kv' rows IH]; intros kv; simpl.
  - apply list_elem_of_here.
  - pose proof (IH (later kv kv')) as Hin.
    apply elem_of_cons in Hin as [Heq|Hin].
    + rewrite Heq. unfold later.
      destruct (check_in_at kv.2 <? check_in_at kv'.2).
      * apply list_elem_of_further, list_elem_of_here.
      * apply list_elem_of_here.
    + do 2 apply list_elem_of_further. exact Hin.
Qed.

Lemma later_le (a b : string * TimeRecordRow) :
  check_in_at a.2 <= check_in_at (later a b).2 /\
  check_in_at b.2 <= check_in_at (later a b).2.
Proof.
  unfold later. destruct (Z.ltb_spec (check_in_at a.2) (check_in_at b.2)); lia.
Qed.

Lemma foldl_later_le (rows : list (string * TimeRecordRow)) :
  forall kv, check_in_at kv.2 <= check_in_at (foldl later kv rows).2.
Proof.
  induction rows as [|kv' rows IH]; intros kv; simpl; [lia|].
  specialize (IH (later kv kv')). pose proof (later_le kv kv'). lia.
Qed.

Lemma foldl_later_max (rows : list (string * TimeRecordRow)) :
  forall kv x, x ∈ kv :: rows ->
    check_in_at x.2 <= check_in_at (foldl later kv rows).2.
Proof.
  induction rows as [|kv' rows IH]; intros kv x Hx.
  - apply list_elem_of_singleton in Hx as ->. simpl. lia.
  - cbn [foldl].
    pose proof (foldl_later_le rows (later kv kv')) as Hle.
    pose proof (later_le kv kv') as [Hl Hr].
    apply elem_of_cons in Hx as [->|Hx]; [lia|].
    apply elem_of_cons in Hx as [->|Hx]; [lia|].
    apply IH. apply list_elem_of_further. exact Hx.
Qed.

Lemma FindActiveByEmployeeID_cases (employeeID : string) (db : Database) :
  match FindActiveByEmployeeID false employeeID db with
  | Ok None =>
      forall id row, time_records db !! id = Some row ->
                     ~ active_of employeeID (id, row)
  | Ok (Some record) =>
      (exists row,
         time_records db !! Entities.ID record = Some row /\
         active_of employeeID (Entities.ID record, row) /\
         record = scan_record (Entities.ID record, row)) /\
      Entities.EmployeeID record = employeeID /\
      Entities.IsCheckedIn record = true /\
      forall id row, time_records db !! id = Some row ->
                     active_of employeeID (id, row) ->
                     check_in_at row <= Entities.CheckInAt record
  | Err _ => False
  end.
Proof.
  unfold FindActiveByEmployeeID.
  destruct (filter (active_of employeeID) (map_to_list (time_records db)))
    as [|kv rows] eqn:Hf.
  - intros id row Hrow Hact.
    assert (Hin : (id, row) ∈ filter (active_of employeeID)
                                  (map_to_list (time_records db))).
    { apply list_elem_of_filter. split; [exact Hact|].
      apply elem_of_map_to_list. exact Hrow. }
    rewrite Hf in Hin. inversion Hin.
  - pose proof (foldl_later_elem rows kv) as Hin. rewrite <- Hf in Hin.
    apply list_elem_of_filter in Hin as [Hact Hin].
    pose proof (foldl_later_max rows kv) as Hmax.
    destruct (foldl later kv rows) as [id0 row0].
    apply elem_of_map_to_list in Hin.
    cbn [scan_record Entities.ID Entities.EmployeeID Entities.CheckInAt fst snd].
    split; [exists row0; auto|].
    destruct Hact as [Hemp Hstat]. cbn [snd] in Hemp, Hstat.
    split; [exact Hemp|]. split.
    + unfold Entities.IsCheckedIn. cbn. rewrite Hstat. reflexivity.
    + intros id row Hrow Hact'.
      apply (Hmax (id, row)). rewrite <- Hf.
      apply list_elem_of_filter. split; [exact Hact'|].
      apply elem_of_map_to_list. exact Hrow.
Qed.

(** X8. What [FindActiveByEmployeeID] returns when the query does not fail:
    nothing exactly when the employee has no active record; otherwise the
    copy of an active record of the employee, and none of the employee's
    active records has a later check-in time. *)
Theorem FindActiveByEmployeeID_latest (employeeID : string) (db : Database) :
  match FindActiveByEmployeeID false employeeID db with
  | Ok None =>
      forall id row, time_records db !! id = Some row ->
                     ~ active_of employeeID (id, row)
  | Ok (Some record) =>
      (exists row,
         time_records db !! Entities.ID record = Some row /\
         active_of employeeID (Entities.ID record, row) /\
         record = scan_record (Entities.ID record, row)) /\
      Entities.EmployeeID record = employeeID /\
      Entities.IsCheckedIn record = true /\
      forall id row, time_records db !! id = Some row ->
                     active_of employeeID (id, row) ->
                     check_in_at row <= Entities.CheckInAt record
  | Err _ => False
  end.
Proof. exact (FindActiveByEmployeeID_cases employeeID db). Qed.

(** Both statements that write a time record keep the columns
    [employee_id] and [check_in_at] of a row that is already there, and
    touch no other row. *)
Lemma upsert_time_record_lookup now record t id :
  upsert_time_record now record t !! id =
    if decide (id = Entities.ID record) then
      Some match t !! Entities.ID record with
           | None =>
               {| employee_id := Entities.EmployeeID record;
                  check_in_at := Entities.CheckInAt record;
                  check_out_at := Entities.CheckOutAt record;
                  status := Entities.Status record;
                  hours_worked := Entities.HoursWorked record;
                  tr_created_at := now;
                  updated_at := now |}
           | Some row =>
               {| employee_id := employee_id row;
                  check_in_at := check_in_at row;
                  check_out_at := Entities.CheckOutAt record;
                  status := Entities.Status record;
                  hours_worked := Entities.HoursWorked record;
                  tr_created_at := tr_created_at row;
                  updated_at := now |}
           end
    else t !! id.
Proof.
  unfold upsert_time_record.
  destruct (decide (id = Entities.ID record)) as [->|Hne].
  - destruct (t !! Entities.ID record); rewrite lookup_insert_eq; reflexivity.
  - destruct (t !! Entities.ID record); rewrite lookup_insert_ne by congruence; reflexivity.
Qed.

Lemma save_time_record_lookup now record t id :
  save_time_record now record t !! id =
    if decide (id = Entities.ID record) then
      Some match t !! Entities.ID record with
           | None =>
               {| employee_id := Entities.EmployeeID record;
                  check_in_at := Entities.CheckInAt record;
                  check_out_at := Entities.CheckOutAt record;
                  status := Entities.Status record;
                  hours_worked := Entities.HoursWorked record;
                  tr_created_at := now;
                  updated_at := now |}
           | Some row =>
               {| employee_id := employee_id row;
                  check_in_at := check_in_at row;
                  check_out_at := Entities.CheckOutAt record;
                  status := Entities.Status record;
                  hours_worked := Entities.HoursWorked record;
                  tr_created_at := tr_created_at row;
                  updated_at := updated_at row |}
           end
    else t !! id.
Proof.
  unfold save_time_record.
  destruct (decide (id = Entities.ID record)) as [->|Hne].
  - destruct (t !! Entities.ID record); rewrite lookup_insert_eq; reflexivity.
  - destruct (t !! Entities.ID record); rewrite lookup_insert_ne by congruence; reflexivity.
Qed.

(** X9. A record that was saved, by [Save] or by [SaveWithEvent], is found by
    [FindByID] under its id, with the status it was saved with.  Saving
    over an existing row never changes the employee or the check-in time
    stored in it, and no save touches the row of another id.  An id that
    is not in the table is reported as not found. *)
Theorem FindByID_after_save (json_Marshal : DomainEvent -> option Bytes)
    (env : TxEnv) (now : Time) (record : Entities.TimeRecord)
    (event : DomainEvent) (db : Database) :
  (fst (SaveWithEvent json_Marshal env record event db) = None ->
   saved_over db (snd (SaveWithEvent json_Marshal env record event db)) record) /\
  saved_over db (snd (Save false now record db)) record /\
  (forall id, time_records db !! id = None ->
              FindByID false id db = Err ErrRecordNotFound).
Proof.
  split; [|split].
  - destruct (PersistenceProofs.SaveWithEvent_result json_Marshal env record event db)
      as [[e ->]|(pl & _ & _ & ->)]; [discriminate|].
    intros _. cbn [snd]. unfold saved_over, FindByID. cbn [time_records]. split.
    + rewrite upsert_time_record_lookup, decide_True by reflexivity.
      eexists. split; [reflexivity|].
      destruct (time_records db !! Entities.ID record); cbn; auto.
    + intros id Hne. rewrite upsert_time_record_lookup, decide_False by exact Hne.
      reflexivity.
  - unfold Save, saved_over, FindByID. cbn [snd time_records]. split.
    + rewrite save_time_record_lookup, decide_True by reflexivity.
      eexists. split; [reflexivity|].
      destruct (time_records db !! Entities.ID record); cbn; auto.
    + intros id Hne. rewrite save_time_record_lookup, decide_False by exact Hne.
      reflexivity.
  - intros id Hnone. unfold FindByID. rewrite Hnone. reflexivity.
Qed.

End TimeRecordStoreProofs.

Module ActiveRecordsProofs.
Import Go GoFacts Events Persistence Services Relay TimeRecordStore.

(** The two ways a call of [CheckIn] ends: with an error and the database
    as it was, or with the new record and its check-in event written. *)
Lemma CheckIn_result json env e db :
  (exists err, CheckIn json env e db = (Err err, db)) \/
  (exists pl,
     (forall r, FindActiveByEmployeeID (in_find_fails env) e db <> Ok (Some r)) /\
     e <> "" /\
     outbox_events db !! outbox_id (in_tx env) = None /\
     let record := {| Entities.ID := in_record_id env;
                      Entities.EmployeeID := e;
                      Entities.CheckInAt := in_record_now env;
                      Entities.CheckOutAt := None;
                      Entities.Status := Entities.StatusCheckedIn;
                      Entities.HoursWorked := 0%float |} in
     CheckIn json env e db
       = (Ok record,
          mkDB (upsert_time_record (server_now (in_tx env)) record (time_records db))
               (<[outbox_id (in_tx env) :=
                    {| event_type := EventTypeEmployeeCheckedIn;
                       aggregate_id := in_record_id env;
                       payload := pl;
                       created_at := outbox_now (in_tx env);
                       published := false;
                       published_at := None;
                       retry_count := 0;
                       last_error := None |}]> (outbox_events db)))).
Proof.
  unfold CheckIn, Entities.NewTimeRecord.
  destruct (FindActiveByEmployeeID (in_find_fails env) e db) as [[r|]|err] eqn:Hfind;
    [left; eexists; reflexivity| |];
    (destruct (String.eqb_spec e "") as [->|Hne]; [left; eexists; reflexivity|];
     match goal with
     | |- context [SaveWithEvent json ?tx ?rc ?ev db] =>
         destruct (PersistenceProofs.SaveWithEvent_result json tx rc ev db)
           as [[err' ->]|(pl & _ & Hfresh & ->)];
         [left; eexists; reflexivity|]
     end;
     right; exists pl; split; [discriminate|]; split; [exact Hne|];
     split; [exact Hfresh|reflexivity]).
Qed.

(** The same for [CheckOut]: on success the record it closes is the copy
    of an active row of the employee, found outside the duplicate
    window. *)
Lemma CheckOut_result json w env e db :
  (exists err, CheckOut json w env e db = (Err err, db)) \/
  (exists pl id0 row0,
     out_find_fails env = false /\
     time_records db !! id0 = Some row0 /\
     active_of e (id0, row0) /\
     FindActiveByEmployeeID false e db = Ok (Some (scan_record (id0, row0))) /\
     wrap64 (w * Second) <= Since (out_since_now env) (check_in_at row0) /\
     outbox_events db !! outbox_id (out_tx env) = None /\
     let record := {| Entities.ID := id0;
                      Entities.EmployeeID := employee_id row0;
                      Entities.CheckInAt := check_in_at row0;
                      Entities.CheckOutAt := Some (out_checkout_now env);
                      Entities.Status := Entities.StatusCheckedOut;
                      Entities.HoursWorked :=
                        Duration_Hours (Time_Sub (out_checkout_now env)
                                                 (check_in_at row0)) |} in
     CheckOut json w env e db
       = (Ok record,
          mkDB (upsert_time_record (server_now (out_tx env)) record (time_records db))
               (<[outbox_id (out_tx env) :=
                    {| event_type := EventTypeEmployeeCheckedOut;
                       aggregate_id := id0;
                       payload := pl;
                       created_at := outbox_now (out_tx env);
                       published := false;
                       published_at := None;
                       retry_count := 0;
                       last_error := None |}]> (outbox_events db)))).
Proof.
  unfold CheckOut.
  destruct (out_find_fails env) eqn:Hfails; [left; eexists; reflexivity|].
  pose proof (TimeRecordStoreProofs.FindActiveByEmployeeID_cases e db) as Hcases.
  destruct (FindActiveByEmployeeID false e db) as [[r|]|err] eqn:Hfind;
    [|left; eexists; reflexivity|left; eexists; reflexivity].
  destruct Hcases as ((row0 & Hrow & Hact & Hr) & _).
  destruct (Z.ltb_spec (Since (out_since_now env) (Entities.CheckInAt r))
              (wrap64 (w * Second))) as [|Hout]; [left; eexists; reflexivity|].
  rewrite Hr in *. cbn [scan_record Entities.ID Entities.CheckInAt fst snd] in *.
  unfold Entities.CheckOut. cbn [Entities.Status scan_record snd].
  destruct Hact as [Hemp Hstat]. cbn [snd] in Hemp, Hstat. rewrite Hstat.
  match goal with
  | |- context [SaveWithEvent json ?tx ?rc ?ev db] =>
      destruct (PersistenceProofs.SaveWithEvent_result json tx rc ev db)
        as [[err' ->]|(pl & _ & Hfresh & ->)];
      [left; eexists; reflexivity|]
  end.
  right. exists pl, (Entities.ID r), row0.
  split; [reflexivity|]. split; [exact Hrow|]. split; [split; assumption|].
  split; [reflexivity|]. split; [exact Hout|]. split; [exact Hfresh|reflexivity].
Qed.

(** A save that nothing makes fail returns nil. *)
Lemma SaveWithEvent_commits json env record event db :
  commits env db ->
  is_Some (json event) ->
  fst (SaveWithEvent json env record event db) = None.
Proof.
  intros (Hb & Hr & Ho & Hc & Hfresh) Hjson.
  apply PersistenceProofs.SaveWithEvent_succeeds_iff. auto 10.
Qed.

(** A check-in that finds no active record (or whose lookup fails), for
    an employee id that is not empty, succeeds when its save does. *)
Lemma CheckIn_succeeds json env e db :
  (forall r, FindActiveByEmployeeID (in_find_fails env) e db <> Ok (Some r)) ->
  e <> "" ->
  commits (in_tx env) db ->
  (forall ev, is_Some (json ev)) ->
  exists db',
    CheckIn json env e db
      = (Ok {| Entities.ID := in_record_id env;
               Entities.EmployeeID := e;
               Entities.CheckInAt := in_record_now env;
               Entities.CheckOutAt := None;
               Entities.Status := Entities.StatusCheckedIn;
               Entities.HoursWorked := 0%float |}, db') /\
    time_records db'
      = upsert_time_record (server_now (in_tx env))
          {| Entities.ID := in_record_id env;
             Entities.EmployeeID := e;
             Entities.CheckInAt := in_record_now env;
             Entities.CheckOutAt := None;
             Entities.Status := Entities.StatusCheckedIn;
             Entities.HoursWorked := 0%float |} (time_records db).
Proof.
  intros Hnone Hne Hcommits Hjson.
  destruct (CheckIn_result json env e db) as [[err Herr]|(pl & _ & _ & _ & Hok)].
  - exfalso. revert Herr. unfold CheckIn, Entities.NewTimeRecord.
    destruct (FindActiveByEmployeeID (in_find_fails env) e db) as [[r|]|err0];
      [exfalso; apply (Hnone r); reflexivity| |];
      (destruct (String.eqb_spec e ""); [contradiction|];
       match goal with
       | |- context [SaveWithEvent json ?tx ?rc ?ev db] =>
           pose proof (SaveWithEvent_commits json tx rc ev db Hcommits (Hjson ev)) as Hs;
           destruct (SaveWithEvent json tx rc ev db) as [[e1|] d]
       end; [discriminate Hs|discriminate]).
  - cbv zeta in Hok. eexists. split; [exact Hok|reflexivity].
Qed.

(** A check-out that finds the employee's active record outside the
    duplicate window succeeds when its save does. *)
Lemma CheckOut_succeeds json w env e db record :
  out_find_fails env = false ->
  FindActiveByEmployeeID false e db = Ok (Some record) ->
  wrap64 (w * Second) <= Since (out_since_now env) (Entities.CheckInAt record) ->
  commits (out_tx env) db ->
  (forall ev, is_Some (json ev)) ->
  exists db',
    CheckOut json w env e db
      = (Ok {| Entities.ID := Entities.ID record;
               Entities.EmployeeID := Entities.EmployeeID record;
               Entities.CheckInAt := Entities.CheckInAt record;
               Entities.CheckOutAt := Some (out_checkout_now env);
               Entities.Status := Entities.StatusCheckedOut;
               Entities.HoursWorked :=
                 Duration_Hours (Time_Sub (out_checkout_now env)
                                          (Entities.CheckInAt record)) |}, db') /\
    time_records db'
      = upsert_time_record (server_now (out_tx env))
          {| Entities.ID := Entities.ID record;
             Entities.EmployeeID := Entities.EmployeeID record;
             Entities.CheckInAt := Entities.CheckInAt record;
             Entities.CheckOutAt := Some (out_checkout_now env);
             Entities.Status := Entities.StatusCheckedOut;
             Entities.HoursWorked :=
               Duration_Hours (Time_Sub (out_checkout_now env)
                                        (Entities.CheckInAt record)) |}
          (time_records db).
Proof.
  intros Hfails Hfind Hout Hcommits Hjson.
  pose proof (TimeRecordStoreProofs.FindActiveByEmployeeID_cases e db) as Hcases.
  rewrite Hfind in Hcases. destruct Hcases as (_ & _ & Hin & _).
  unfold CheckOut. rewrite Hfails, Hfind.
  destruct (Z.ltb_spec (Since (out_since_now env) (Entities.CheckInAt record))
              (wrap64 (w * Second))); [lia|].
  unfold Entities.CheckOut. unfold Entities.IsCheckedIn in Hin.
  destruct (Entities.Status record); [|discriminate].
  match goal with
  | |- context [SaveWithEvent json ?tx ?rc ?ev db] =>
      pose proof (SaveWithEvent_commits json tx rc ev db Hcommits (Hjson ev)) as Hs;
      destruct (PersistenceProofs.SaveWithEvent_result json tx rc ev db)
        as [[err' He]|(pl & _ & _ & He)]; rewrite He in Hs |- *;
      [discriminate Hs|]
  end.
  eexists. split; reflexivity.
Qed.

(** X10. [CheckIn] goes ahead when its lookup fails: [err == nil && existing
    != nil] is false then, whether or not the employee is checked in.  So
    for an employee who has an active record, a check-in whose lookup
    fails and whose save goes through returns a second record: the old one
    is still active, the new one is active too. *)
Theorem CheckIn_failed_lookup_checks_in_again
    (json_Marshal : DomainEvent -> option Bytes) (env : CheckInEnv)
    (employeeID : string) (db : Database) (id0 : string) (row0 : TimeRecordRow) :
  in_find_fails env = true ->
  employeeID <> "" ->
  commits (in_tx env) db ->
  (forall ev, is_Some (json_Marshal ev)) ->
  time_records db !! in_record_id env = None ->
  time_records db !! id0 = Some row0 ->
  active_of employeeID (id0, row0) ->
  exists record db' row1,
    CheckIn json_Marshal env employeeID db = (Ok record, db') /\
    Entities.ID record = in_record_id env /\
    in_record_id env <> id0 /\
    time_records db' !! id0 = Some row0 /\
    time_records db' !! in_record_id env = Some row1 /\
    active_of employeeID (in_record_id env, row1) /\
    ~ one_active_each db'.
Proof.
  intros Hfails Hne (Hb & Hr & Ho & Hc & Hfresh) Hjson Hnew Hrow0 Hact0.
  assert (Hid : in_record_id env <> id0)
    by (intros Heq; rewrite Heq in Hnew; congruence).
  destruct (CheckIn_result json_Marshal env employeeID db)
    as [[err Herr]|(pl & _ & _ & _ & Hok)].
  - exfalso. revert Herr. unfold CheckIn, FindActiveByEmployeeID, Entities.NewTimeRecord.
    rewrite Hfails. destruct (String.eqb_spec employeeID ""); [contradiction|].
    match goal with
    | |- context [SaveWithEvent json_Marshal ?tx ?rc ?ev db] =>
        pose proof (proj2 (PersistenceProofs.SaveWithEvent_succeeds_iff
                             json_Marshal tx rc ev db)) as Hs;
        destruct (SaveWithEvent json_Marshal tx rc ev db) as [[e|] d]
    end; [|discriminate].
    cbn [fst] in Hs. intros _.
    assert (Some e = None) by (apply Hs; repeat split; auto). discriminate.
  - cbv zeta in Hok. eexists _, _, _. split; [exact Hok|].
    cbn [Entities.ID time_records].
    rewrite !TimeRecordStoreProofs.upsert_time_record_lookup. cbn [Entities.ID].
    rewrite decide_False by congruence. rewrite decide_True by reflexivity.
    rewrite Hnew.
    split; [reflexivity|]. split; [exact Hid|]. split; [exact Hrow0|].
    split; [reflexivity|]. split; [split; reflexivity|].
    intros Hone. apply Hid. symmetry.
    eapply (Hone employeeID id0 row0 (in_record_id env)); cbn [time_records].
    + rewrite TimeRecordStoreProofs.upsert_time_record_lookup. cbn [Entities.ID].
      rewrite decide_False by congruence. exact Hrow0.
    + exact Hact0.
    + rewrite TimeRecordStoreProofs.upsert_time_record_lookup. cbn [Entities.ID].
      rewrite decide_True by reflexivity. rewrite Hnew. reflexivity.
    + split; reflexivity.
Qed.

(** The theorem for an employee who checked in at second 1 and whose
    second check-in, at second 5, meets a failing lookup. *)
Lemma CheckIn_failed_lookup_checks_in_again_witness :
  let json := fun _ : DomainEvent => Some ([] : Bytes) in
  let tx := fun (id : string) (now : Time) =>
              {| begin_fails := false; exec_record_fails := false;
                 exec_outbox_fails := false; commit_fails := false;
                 outbox_id := id; outbox_now := now; server_now := now |} in
  let db := snd (CheckIn json
                   {| in_find_fails := false; in_record_id := "r1";
                      in_record_now := 1 * Second; in_event_id := "e1";
                      in_event_now := 1 * Second; in_tx := tx "o1" (1 * Second) |}
                   "E1" (mkDB ∅ ∅)) in
  let env := {| in_find_fails := true; in_record_id := "r2";
                in_record_now := 5 * Second; in_event_id := "e2";
                in_event_now := 5 * Second; in_tx := tx "o2" (5 * Second) |} in
  ~ one_active_each (snd (CheckIn json env "E1" db)).
Proof.
  intros json tx db env.
  destruct (CheckIn_failed_lookup_checks_in_again json env "E1" db "r1"
              {| employee_id := "E1"; check_in_at := 1 * Second; check_out_at := None;
                 status := Entities.StatusCheckedIn; hours_worked := 0%float;
                 tr_created_at := 1 * Second; updated_at := 1 * Second |})
    as (record & db' & row1 & Hok & _ & _ & _ & _ & _ & Hnot).
  - reflexivity.
  - discriminate.
  - repeat split.
  - intros ev. eexists. reflexivity.
  - reflexivity.
  - vm_compute. reflexivity.
  - split; reflexivity.
  - rewrite Hok. exact Hnot.
Defined.

(** A poll of the relay leaves the time records alone. *)
Lemma publish_events_time_records env events :
  forall i sys,
    time_records (db (publish_events env i events sys)) = time_records (db sys).
Proof.
  induction events as [|ev events IH]; intros i sys; [reflexivity|].
  cbn [publish_events]. unfold PublishRaw.
  destruct (publish_fails env i).
  - unfold IncrementRetryCount.
    destruct (update_fails env i); [rewrite IH; reflexivity|].
    destruct (outbox_events (db sys) !! Repositories.ID ev) as [r|];
      [|rewrite IH; reflexivity].
    destruct (maxInt32 <? retry_count r + 1); rewrite IH; reflexivity.
  - unfold MarkAsPublished.
    destruct (update_fails env i); rewrite IH; reflexivity.
Qed.

Lemma poll_time_records env sys :
  time_records (db (poll env sys)) = time_records (db sys).
Proof.
  unfold poll. destruct (GetUnpublishedEvents _ _ _); [|reflexivity].
  apply publish_events_time_records.
Qed.

Lemma one_active_each_ext d d' :
  time_records d' = time_records d -> one_active_each d -> one_active_each d'.
Proof. unfold one_active_each. intros ->. auto. Qed.

Lemma CheckIn_one_active json env e d :
  in_find_fails env = false ->
  time_records d !! in_record_id env = None ->
  one_active_each d ->
  one_active_each (snd (CheckIn json env e d)).
Proof.
  intros Hfind Hnew Hone.
  destruct (CheckIn_result json env e d) as [[err ->]|(pl & Hnone & _ & _ & Hok)];
    [exact Hone|].
  cbv zeta in Hok. rewrite Hok. cbn [snd]. clear Hok.
  rewrite Hfind in Hnone.
  pose proof (TimeRecordStoreProofs.FindActiveByEmployeeID_cases e d) as Hcases.
  destruct (FindActiveByEmployeeID false e d) as [[r|]|err];
    [exfalso; apply (Hnone r); reflexivity| |contradiction].
  intros e' id1 row1 id2 row2. cbn [time_records].
  rewrite !TimeRecordStoreProofs.upsert_time_record_lookup. cbn [Entities.ID].
  rewrite Hnew.
  destruct (decide (id1 = in_record_id env)) as [->|H1],
           (decide (id2 = in_record_id env)) as [->|H2]; try reflexivity.
  - intros [= <-] [He' _] Hrow2 Hact2. cbn in He'. subst e'.
    exfalso. exact (Hcases id2 row2 Hrow2 Hact2).
  - intros Hrow1 Hact1 [= <-] [He' _]. cbn in He'. subst e'.
    exfalso. exact (Hcases id1 row1 Hrow1 Hact1).
  - intros Hrow1 Hact1 Hrow2 Hact2. exact (Hone e' id1 row1 id2 row2 Hrow1 Hact1 Hrow2 Hact2).
Qed.

Lemma CheckOut_one_active json w env e d :
  one_active_each d -> one_active_each (snd (CheckOut json w env e d)).
Proof.
  intros Hone.
  destruct (CheckOut_result json w env e d)
    as [[err ->]|(pl & id0 & row0 & _ & Hrow0 & _ & _ & _ & _ & Hok)]; [exact Hone|].
  cbv zeta in Hok. rewrite Hok. cbn [snd]. clear Hok.
  assert (Hsub : forall e' id row,
             upsert_time_record (server_now (out_tx env))
               {| Entities.ID := id0;
                  Entities.EmployeeID := employee_id row0;
                  Entities.CheckInAt := check_in_at row0;
                  Entities.CheckOutAt := Some (out_checkout_now env);
                  Entities.Status := Entities.StatusCheckedOut;
                  Entities.HoursWorked :=
                    Duration_Hours (Time_Sub (out_checkout_now env) (check_in_at row0)) |}
               (time_records d) !! id = Some row ->
             active_of e' (id, row) ->
             time_records d !! id = Some row).
  { intros e' id row. rewrite TimeRecordStoreProofs.upsert_time_record_lookup.
    cbn [Entities.ID]. rewrite Hrow0.
    destruct (decide (id = id0)) as [->|Hne]; [|auto].
    intros [= <-] [_ Hstat]. cbn in Hstat. discriminate. }
  intros e' id1 row1 id2 row2. cbn [time_records]. intros Hrow1 Hact1 Hrow2 Hact2.
  apply (Hone e' id1 row1 id2 row2); eauto.
Qed.

Lemma step_one_active json st sys :
  careful_step st sys ->
  one_active_each (db sys) ->
  one_active_each (db (step json st sys)).
Proof.
  destruct st as [env|env e|w env e]; cbn [step careful_step db].
  - intros _. apply one_active_each_ext, poll_time_records.
  - intros [Hfind Hnew]. apply CheckIn_one_active; assumption.
  - intros _. apply CheckOut_one_active.
Qed.

(** Taken apart at the lookup, [CheckIn] is still [CheckIn]. *)
Lemma CheckIn_split json env e d :
  CheckIn json env e d
    = Overlap.CheckIn_rest json (Overlap.CheckIn_lookup env e d) env e d.
Proof. reflexivity. Qed.

(** The rest of a check-in whose lookup returned no record (or failed)
    succeeds when its save does, whatever the database holds by then. *)
Lemma CheckIn_rest_succeeds json existing env e d :
  (forall r, existing <> Ok (Some r)) ->
  e <> "" ->
  commits (in_tx env) d ->
  (forall ev, is_Some (json ev)) ->
  exists pl,
    Overlap.CheckIn_rest json existing env e d
      = (Ok {| Entities.ID := in_record_id env;
               Entities.EmployeeID := e;
               Entities.CheckInAt := in_record_now env;
               Entities.CheckOutAt := None;
               Entities.Status := Entities.StatusCheckedIn;
               Entities.HoursWorked := 0%float |},
         mkDB (upsert_time_record (server_now (in_tx env))
                 {| Entities.ID := in_record_id env;
                    Entities.EmployeeID := e;
                    Entities.CheckInAt := in_record_now env;
                    Entities.CheckOutAt := None;
                    Entities.Status := Entities.StatusCheckedIn;
                    Entities.HoursWorked := 0%float |} (time_records d))
              (<[outbox_id (in_tx env) :=
                   {| event_type := EventTypeEmployeeCheckedIn;
                      aggregate_id := in_record_id env;
                      payload := pl;
                      created_at := outbox_now (in_tx env);
                      published := false;
                      published_at := None;
                      retry_count := 0;
                      last_error := None |}]> (outbox_events d))).
Proof.
  intros Hnone Hne Hcommits Hjson.
  unfold Overlap.CheckIn_rest, Entities.NewTimeRecord.
  destruct existing as [[r|]|err]; [exfalso; apply (Hnone r); reflexivity| |];
    (destruct (String.eqb_spec e ""); [contradiction|];
     match goal with
     | |- context [SaveWithEvent json ?tx ?rc ?ev d] =>
         pose proof (SaveWithEvent_commits json tx rc ev d Hcommits (Hjson ev)) as Hs;
         destruct (PersistenceProofs.SaveWithEvent_result json tx rc ev d)
           as [[err' He]|(pl & _ & _ & He)]; rewrite He in Hs |- *;
         [discriminate Hs|]
     end;
     exists pl; reflexivity).
Qed.

Lemma run_one_active json steps :
  forall sys,
    one_active_each (db sys) ->
    careful json steps sys ->
    one_active_each (db (run json steps sys)).
Proof.
  unfold run. induction steps as [|st steps IH]; intros sys Hone Hcareful; [exact Hone|].
  destruct Hcareful as [Hst Hrest]. cbn [foldl].
  apply IH; [|exact Hrest]. apply step_one_active; assumption.
Qed.

(** X11. That no employee has two active records holds as long as the
    requests are served one at a time: the invariant is kept by every
    poll of the relay, by every check-out, whatever fails, and by every
    check-in whose lookup is answered and whose record id is not in use.
    It does not hold when requests overlap.  The lookup of a check-in is
    outside the transaction of its save and the table lets an employee
    have several active rows, so when two check-ins of an employee
    without an active record both do their lookup before either saves,
    each with its lookup answered and a record id that is not in use,
    both succeed and the employee has two active records. *)
Theorem one_active_each_unless_overlap (json_Marshal : DomainEvent -> option Bytes) :
  (forall (steps : list Step) (sys : System),
     one_active_each (db sys) ->
     careful json_Marshal steps sys ->
     one_active_each (db (run json_Marshal steps sys))) /\
  (forall (a b : CheckInEnv) (employeeID : string) (d : Database),
     employeeID <> "" ->
     (forall ev, is_Some (json_Marshal ev)) ->
     FindActiveByEmployeeID false employeeID d = Ok None ->
     in_find_fails a = false ->
     in_find_fails b = false ->
     time_records d !! in_record_id a = None ->
     time_records d !! in_record_id b = None ->
     in_record_id a <> in_record_id b ->
     commits (in_tx a) d ->
     commits (in_tx b) d ->
     outbox_id (in_tx a) <> outbox_id (in_tx b) ->
     exists record_a record_b d',
       Overlap.overlapping_CheckIns json_Marshal a b employeeID d
         = (Ok record_a, Ok record_b, d') /\
       Entities.ID record_a = in_record_id a /\
       Entities.ID record_b = in_record_id b /\
       ~ one_active_each d').
Proof.
  split; [intros steps sys; apply run_one_active|].
  intros a b e d Hne Hjson Hnone Ha Hb Hnew_a Hnew_b Hids Hca Hcb Hout.
  unfold Overlap.overlapping_CheckIns, Overlap.CheckIn_lookup.
  rewrite Ha, Hb, Hnone.
  destruct (CheckIn_rest_succeeds json_Marshal (Ok None) a e d) as [pla ->];
    [discriminate|exact Hne|exact Hca|exact Hjson|].
  match goal with
  | |- context [Overlap.CheckIn_rest json_Marshal (Ok None) b e ?d1] =>
      destruct (CheckIn_rest_succeeds json_Marshal (Ok None) b e d1) as [plb ->];
      [discriminate|exact Hne| |exact Hjson|]
  end.
  { destruct Hcb as (H1 & H2 & H3 & H4 & Hfresh). repeat split; try assumption.
    cbn [outbox_events]. rewrite lookup_insert_ne by exact Hout. exact Hfresh. }
  eexists _, _, _. split; [reflexivity|]. split; [reflexivity|]. split; [reflexivity|].
  intros Hone. apply Hids.
  eapply (Hone e (in_record_id a) _ (in_record_id b)); cbn [time_records].
  - rewrite !TimeRecordStoreProofs.upsert_time_record_lookup. cbn [Entities.ID].
    rewrite decide_False by exact Hids. rewrite decide_True by reflexivity.
    rewrite Hnew_a. reflexivity.
  - split; reflexivity.
  - rewrite TimeRecordStoreProofs.upsert_time_record_lookup. cbn [Entities.ID].
    rewrite decide_True by reflexivity.
    rewrite TimeRecordStoreProofs.upsert_time_record_lookup. cbn [Entities.ID].
    rewrite decide_False by congruence. rewrite Hnew_b. reflexivity.
  - split; reflexivity.
Qed.

(** The theorem for an employee who asks to check in twice and then to
    check out, with a poll of the relay in between, all served one at a
    time; and for the two check-ins when they overlap. *)
Lemma one_active_each_unless_overlap_witness :
  let json := fun _ : DomainEvent => Some ([] : Bytes) in
  let tx := fun (id : string) (now : Time) =>
              {| begin_fails := false; exec_record_fails := false;
                 exec_outbox_fails := false; commit_fails := false;
                 outbox_id := id; outbox_now := now; server_now := now |} in
  let cin := fun (r o : string) (now : Time) =>
               {| in_find_fails := false; in_record_id := r;
                  in_record_now := now; in_event_id := "e";
                  in_event_now := now; in_tx := tx o now |} in
  let cout := {| out_find_fails := false; out_since_now := 100 * Second;
                 out_checkout_now := 100 * Second; out_event_id := "e";
                 out_event_now := 100 * Second; out_tx := tx "o3" (100 * Second) |} in
  let tick := {| fetch_limit := 100; fetch_fails := false;
                 publish_fails := fun _ => false; publish_error := fun _ => "";
                 update_fails := fun _ => false;
                 update_now := fun _ => 101 * Second |} in
  let a := cin "r1" "o1" (1 * Second) in
  let b := cin "r2" "o2" (2 * Second) in
  let steps := [StepCheckIn a "E1"; StepCheckIn b "E1";
                StepCheckOut 60 cout "E1"; StepPoll tick] in
  one_active_each (db (run json steps (mkSystem (mkDB ∅ ∅) []))) /\
  ~ one_active_each (snd (Overlap.overlapping_CheckIns json a b "E1" (mkDB ∅ ∅))).
Proof.
  intros json tx cin cout tick a b steps.
  destruct (one_active_each_unless_overlap json) as [Hserial Hoverlap]. split.
  - apply Hserial.
    + intros e id1 row1 id2 row2 Hrow1. cbn in Hrow1. rewrite lookup_empty in Hrow1.
      discriminate.
    + cbn [careful steps careful_step]. repeat split; vm_compute; reflexivity.
  - destruct (Hoverlap a b "E1" (mkDB ∅ ∅)) as (ra & rb & d' & Hrun & _ & _ & Hnot);
      try reflexivity; try discriminate; try (repeat split; fail).
    + intros ev. eexists. reflexivity.
    + rewrite Hrun. exact Hnot.
Defined.

End ActiveRecordsProofs.

Module RelayEffectsProofs.
Import Go GoFacts Events Persistence Relay RelayEffects.

(** The exchange receives the messages of the events whose publish call
    succeeds, in the order of the batch, whatever the updates do. *)
Lemma publish_events_exchange env events :
  forall i sys,
    exchange (publish_events env i events sys)
      = exchange sys ++ delivered env i events.
Proof.
  induction events as [|ev events IH]; intros i sys.
  - simpl. rewrite app_nil_r. reflexivity.
  - cbn [publish_events delivered]. unfold PublishRaw.
    destruct (publish_fails env i).
    + destruct (IncrementRetryCount _ _ _ _) as [r d]. rewrite IH. reflexivity.
    + destruct (MarkAsPublished _ _ _ _) as [r d]. rewrite IH.
      cbn [exchange]. rewrite <- app_assoc. reflexivity.
Qed.

Lemma delivered_subset env events :
  forall i m, m ∈ delivered env i events -> exists ev, ev ∈ events /\ m = message_of ev.
Proof.
  induction events as [|ev events IH]; intros i m Hm; [inversion Hm|].
  cbn [delivered] in Hm. destruct (publish_fails env i).
  - destruct (IH _ _ Hm) as (ev' & Hin & ->). exists ev'.
    split; [apply list_elem_of_further; exact Hin|reflexivity].
  - apply elem_of_cons in Hm as [->|Hm].
    + exists ev. split; [apply list_elem_of_here|reflexivity].
    + destruct (IH _ _ Hm) as (ev' & Hin & ->). exists ev'.
      split; [apply list_elem_of_further; exact Hin|reflexivity].
Qed.

(** The events of a batch are copies of unpublished check-out rows. *)
Lemma batch_rows env sys ev :
  ev ∈ batch env sys ->
  exists row,
    outbox_events (db sys) !! Repositories.ID ev = Some row /\
    published row = false /\
    event_type row = EventTypeEmployeeCheckedOut /\
    ev = scan_event (Repositories.ID ev, row).
Proof.
  unfold batch.
  destruct (GetUnpublishedEvents _ _ _) as [events|e] eqn:Hget; [|inversion 1].
  apply PersistenceProofs.GetUnpublishedEvents_Ok in Hget as (_ & _ & ->).
  intros Hev. apply list_elem_of_fmap in Hev as ([id row] & -> & Hkv).
  apply elem_of_take in Hkv as (i & Hkv & _).
  apply list_elem_of_lookup_2 in Hkv.
  apply PersistenceProofs.selected_elem in Hkv as (Hrow & Hpub & Hty).
  exists row. cbn in *. auto.
Qed.

Lemma poll_batch env sys :
  poll env sys = publish_events env 0 (batch env sys) sys.
Proof.
  unfold poll, batch. destruct (GetUnpublishedEvents _ _ _); reflexivity.
Qed.

(** X12. What a poll puts on the exchange: one message for each event of its
    batch whose publish call succeeds, in the order of the batch, whether
    or not the update that follows succeeds; and every such message
    carries the event type and the payload stored in a check-out row of
    the outbox that was unpublished when the poll began. *)
Theorem poll_publishes_outbox_rows (env : PollEnv) (sys : System) :
  exchange (poll env sys) = exchange sys ++ delivered env 0 (batch env sys) /\
  Forall (fun m =>
            exists id row,
              outbox_events (db sys) !! id = Some row /\
              published row = false /\
              event_type row = EventTypeEmployeeCheckedOut /\
              m = {| pub_Type := event_type row; pub_Body := payload row |})
         (delivered env 0 (batch env sys)).
Proof.
  split.
  - rewrite poll_batch. apply publish_events_exchange.
  - rewrite Forall_forall. intros m Hm.
    apply delivered_subset in Hm as (ev & Hev & ->).
    apply batch_rows in Hev as (row & Hrow & Hpub & Hty & Hev).
    exists (Repositories.ID ev), row. repeat split; try assumption.
    rewrite Hev. reflexivity.
Qed.

(** The round of one event touches the row of that event and no other. *)
Lemma first_event env i ev sys :
  exists sys1,
    (forall events,
       publish_events env i (ev :: events) sys = publish_events env (S i) events sys1) /\
    forall id,
      outbox_events (db sys1) !! id =
        if decide (Repositories.ID ev = id)
        then row_after env i <$> outbox_events (db sys) !! id
        else outbox_events (db sys) !! id.
Proof.
  assert (Hid : forall id,
            outbox_events (db sys) !! id =
              if decide (Repositories.ID ev = id)
              then (fun r => r) <$> outbox_events (db sys) !! id
              else outbox_events (db sys) !! id).
  { intros id. destruct (decide _); [|reflexivity].
    destruct (outbox_events (db sys) !! id); reflexivity. }
  unfold row_after. cbn [publish_events]. unfold PublishRaw.
  destruct (publish_fails env i).
  - unfold IncrementRetryCount. destruct (update_fails env i).
    { eexists. split; [reflexivity|exact Hid]. }
    destruct (outbox_events (db sys) !! Repositories.ID ev) as [r|] eqn:Hr.
    + destruct (maxInt32 <? retry_count r + 1) eqn:Hov.
      * eexists. split; [reflexivity|]. cbn [db]. intros id.
        destruct (decide _) as [<-|]; [|reflexivity].
        rewrite Hr. cbn. rewrite Hov. reflexivity.
      * eexists. split; [reflexivity|]. cbn [db outbox_events]. intros id.
        rewrite lookup_insert.
        destruct (decide _) as [<-|]; [|reflexivity].
        rewrite Hr. cbn. rewrite Hov. reflexivity.
    + eexists. split; [reflexivity|]. cbn [db]. intros id.
      destruct (decide _) as [<-|]; [|reflexivity]. rewrite Hr. reflexivity.
  - unfold MarkAsPublished. destruct (update_fails env i).
    { eexists. split; [reflexivity|exact Hid]. }
    eexists. split; [reflexivity|]. cbn [db outbox_events]. intros id.
    rewrite lookup_alter. destruct (decide _) as [<-|]; reflexivity.
Qed.

(** A batch without repeated ids: the round of its [j]-th event is the
    only one that touches the row of that event, and rows outside the
    batch are left alone. *)
Lemma publish_events_outbox env events :
  forall i sys,
    NoDup (map Repositories.ID events) ->
    (forall j ev, events !! j = Some ev ->
       outbox_events (db (publish_events env i events sys)) !! Repositories.ID ev
         = row_after env (i + j) <$> outbox_events (db sys) !! Repositories.ID ev) /\
    (forall id, id ∉ map Repositories.ID events ->
       outbox_events (db (publish_events env i events sys)) !! id
         = outbox_events (db sys) !! id).
Proof.
  induction events as [|ev events IH]; intros i sys Hnd.
  - split; [intros j ev Hj; rewrite lookup_nil in Hj; discriminate|reflexivity].
  - cbn [map] in Hnd. apply NoDup_cons in Hnd as [Hnotin Hnd].
    destruct (first_event env i ev sys) as (sys1 & Hstep & Hrow).
    rewrite Hstep. destruct (IH (S i) sys1 Hnd) as [IHin IHout]. split.
    + intros [|j] ev' Hj.
      * injection Hj as <-. rewrite IHout by exact Hnotin.
        rewrite Hrow, decide_True by reflexivity. rewrite Nat.add_0_r. reflexivity.
      * cbn in Hj. rewrite (IHin j ev' Hj), Hrow.
        rewrite decide_False.
        -- replace (S i + j)%nat with (i + S j)%nat by lia. reflexivity.
        -- intros Heq. apply Hnotin. rewrite Heq.
           apply list_elem_of_fmap. exists ev'. split; [reflexivity|].
           eapply list_elem_of_lookup_2. exact Hj.
    + intros id Hid. cbn [map] in Hid. apply not_elem_of_cons in Hid as [Hne Hid].
      rewrite (IHout id Hid), Hrow, decide_False by congruence. reflexivity.
Qed.

Lemma batch_NoDup env sys : NoDup (map Repositories.ID (batch env sys)).
Proof.
  unfold batch.
  destruct (GetUnpublishedEvents _ _ _) as [events|e] eqn:Hget; [|constructor].
  apply PersistenceProofs.GetUnpublishedEvents_Ok in Hget as (_ & _ & ->).
  replace (map Repositories.ID (map scan_event (take (Z.to_nat (fetch_limit env))
                                                  (selected (db sys)))))
    with ((take (Z.to_nat (fetch_limit env)) (selected (db sys))).*1)
    by (rewrite map_map; reflexivity).
  eapply sublist_NoDup; [apply PersistenceProofs.selected_NoDup|].
  apply fmap_sublist, sublist_take.
Qed.

(** What a poll does to the outbox. *)
Lemma poll_outbox env sys :
  (forall j ev, batch env sys !! j = Some ev ->
     outbox_events (db (poll env sys)) !! Repositories.ID ev
       = row_after env j <$> outbox_events (db sys) !! Repositories.ID ev) /\
  (forall id, id ∉ map Repositories.ID (batch env sys) ->
     outbox_events (db (poll env sys)) !! id = outbox_events (db sys) !! id).
Proof.
  rewrite poll_batch.
  exact (publish_events_outbox env (batch env sys) 0 sys (batch_NoDup env sys)).
Qed.

Lemma delivered_all env events :
  forall i, (forall j, publish_fails env j = false) ->
            delivered env i events = map message_of events.
Proof.
  induction events as [|ev events IH]; intros i Hok; [reflexivity|].
  cbn [delivered map]. rewrite Hok, IH by exact Hok. reflexivity.
Qed.

Lemma delivered_none env events :
  forall i, (forall j, publish_fails env j = true) -> delivered env i events = [].
Proof.
  induction events as [|ev events IH]; intros i Hko; [reflexivity|].
  cbn [delivered]. rewrite Hko. apply IH. exact Hko.
Qed.

(** X13. When the broker refuses every message of a poll, nothing reaches the
    exchange, and the failure is counted against each event of the batch:
    its row gets a retry count one higher and the publisher's error text
    as its last error (unless the count is at the top of its 32-bit
    column), and is still an unpublished check-out event, so a later poll
    fetches it again.  Rows outside the batch are not touched. *)
Theorem poll_counts_failed_publishes (env : PollEnv) (sys : System) :
  (forall i, publish_fails env i = true /\ update_fails env i = false) ->
  exchange (poll env sys) = exchange sys /\
  (forall i ev,
     batch env sys !! i = Some ev ->
     Repositories.RetryCount ev < maxInt32 ->
     exists row,
       outbox_events (db sys) !! Repositories.ID ev = Some row /\
       retry_count row = Repositories.RetryCount ev /\
       outbox_events (db (poll env sys)) !! Repositories.ID ev
         = Some (counted (publish_error env i) row) /\
       unpublished_of_type EventTypeEmployeeCheckedOut
         (Repositories.ID ev, counted (publish_error env i) row)) /\
  (forall id, id ∉ map Repositories.ID (batch env sys) ->
     outbox_events (db (poll env sys)) !! id = outbox_events (db sys) !! id).
Proof.
  intros Hfail. destruct (poll_outbox env sys) as [Hin Hout].
  split; [|split; [|exact Hout]].
  - rewrite poll_batch, publish_events_exchange, delivered_none, app_nil_r;
      [reflexivity|]. intros j. apply Hfail.
  - intros i ev Hi Hcount.
    destruct (batch_rows env sys ev) as (row & Hrow & Hpub & Hty & Hev).
    { eapply list_elem_of_lookup_2. exact Hi. }
    assert (Hrc : retry_count row = Repositories.RetryCount ev)
      by (rewrite Hev; reflexivity).
    exists row. split; [exact Hrow|]. split; [exact Hrc|]. split.
    + rewrite (Hin i ev Hi), Hrow. cbn. unfold row_after.
      destruct (Hfail i) as [-> ->].
      destruct (Z.ltb_spec maxInt32 (retry_count row + 1)); [lia|reflexivity].
    + split; assumption.
Qed.

(** The theorem for an outbox with one check-out event and a broker that
    is down. *)
Lemma poll_counts_failed_publishes_witness :
  let row := mkOutboxRow EventTypeEmployeeCheckedOut "r1" [x7b; x7d] 10 false None 0 None in
  let sys := mkSystem (mkDB ∅ (<["o1" := row]> ∅)) [] in
  let env := {| fetch_limit := 100; fetch_fails := false;
                publish_fails := fun _ => true; publish_error := fun _ => "broker down";
                update_fails := fun _ => false; update_now := fun _ => 11 |} in
  exchange (poll env sys) = [] /\
  outbox_events (db (poll env sys)) !! "o1" = Some (counted "broker down" row).
Proof.
  intros row sys env.
  destruct (poll_counts_failed_publishes env sys) as (Hex & Hrows & _).
  - intros i. split; reflexivity.
  - split; [exact Hex|].
    destruct (Hrows 0%nat (scan_event ("o1", row))) as (row' & Hrow' & _ & Hafter & _).
    + vm_compute. reflexivity.
    + vm_compute. reflexivity.
    + cbn in Hrow'. rewrite lookup_insert_eq in Hrow'. injection Hrow' as <-.
      exact Hafter.
Defined.

Lemma publish_events_marking_fails env events :
  forall i sys,
    (forall j, publish_fails env j = false /\ update_fails env j = true) ->
    publish_events env i events sys
      = mkSystem (db sys) (exchange sys ++ map message_of events).
Proof.
  induction events as [|ev events IH]; intros i sys Hcase.
  - simpl. rewrite app_nil_r. destruct sys; reflexivity.
  - cbn [publish_events]. unfold PublishRaw, MarkAsPublished.
    destruct (Hcase i) as [-> ->]. rewrite IH by exact Hcase.
    cbn [db exchange map]. rewrite <- app_assoc. reflexivity.
Qed.

(** X14. Delivery is at least once, not exactly once.  While the update that
    marks events as published fails, every poll publishes its whole batch
    and leaves the database as it was, so the next poll fetches and
    publishes the same events again: after [k] such polls the exchange
    has received the messages of the batch [k] times over. *)
Theorem polls_republish_while_marking_fails (n : Z) (envs : list PollEnv)
    (sys : System) :
  0 <= n ->
  Forall (fun env =>
            fetch_fails env = false /\ fetch_limit env = n /\
            forall i, publish_fails env i = false /\ update_fails env i = true) envs ->
  let events := map scan_event (take (Z.to_nat n) (selected (db sys))) in
  polls envs sys
    = mkSystem (db sys)
        (exchange sys ++ concat (replicate (length envs) (map message_of events))).
Proof.
  intros Hn Hall. cbv zeta. unfold polls. revert sys.
  induction Hall as [|env envs (Hfetch & Hlimit & Hcase) Hall IH]; intros sys.
  - simpl. rewrite app_nil_r. destruct sys; reflexivity.
  - cbn [foldl length replicate concat].
    assert (Hpoll : poll env sys
              = mkSystem (db sys)
                  (exchange sys ++
                   map message_of
                     (map scan_event (take (Z.to_nat n) (selected (db sys)))))).
    { rewrite poll_batch, publish_events_marking_fails by exact Hcase.
      unfold batch, GetUnpublishedEvents. rewrite Hfetch, Hlimit.
      destruct (Z.ltb_spec n 0); [lia|reflexivity]. }
    rewrite Hpoll, IH. cbn [db exchange]. rewrite <- app_assoc. reflexivity.
Qed.

(** The theorem for an outbox with one check-out event and two polls. *)
Lemma polls_republish_while_marking_fails_witness :
  let row := mkOutboxRow EventTypeEmployeeCheckedOut "r1" [x7b; x7d] 10 false None 0 None in
  let sys := mkSystem (mkDB ∅ (<["o1" := row]> ∅)) [] in
  let env := {| fetch_limit := 100; fetch_fails := false;
                publish_fails := fun _ => false; publish_error := fun _ => "";
                update_fails := fun _ => true; update_now := fun _ => 11 |} in
  let m := {| pub_Type := EventTypeEmployeeCheckedOut; pub_Body := [x7b; x7d] |} in
  polls [env; env] sys = mkSystem (db sys) [m; m].
Proof.
  intros row sys env m.
  refine (eq_trans (polls_republish_while_marking_fails 100 [env; env] sys _ _) _).
  - lia.
  - repeat constructor.
  - vm_compute. reflexivity.
Defined.

(** No check-out event is left unpublished. *)
Lemma selected_nil_iff d :
  selected d = [] <->
  forall id row, outbox_events d !! id = Some row ->
                 ~ unpublished_of_type EventTypeEmployeeCheckedOut (id, row).
Proof.
  split.
  - intros Hnil id row Hrow Hun.
    assert (Hin : (id, row) ∈ selected d)
      by (apply PersistenceProofs.selected_elem; split; assumption).
    rewrite Hnil in Hin. inversion Hin.
  - intros Hnone. destruct (selected d) as [|[id row] l] eqn:Hsel; [reflexivity|].
    exfalso.
    assert (Hin : (id, row) ∈ selected d) by (rewrite Hsel; apply list_elem_of_here).
    apply PersistenceProofs.selected_elem in Hin as [Hrow Hun].
    exact (Hnone id row Hrow Hun).
Qed.

(** X15. A poll in which nothing fails and whose fetch limit covers all the
    unpublished check-out events publishes each of them once, oldest
    first, and marks each as published at the time of its update.  After
    it no check-out event is left unpublished, and a further poll, of
    whatever kind, changes nothing. *)
Theorem poll_drains_outbox (env : PollEnv) (sys : System) :
  faultless env ->
  Z.of_nat (length (selected (db sys))) <= fetch_limit env ->
  let sys' := poll env sys in
  exchange sys'
    = exchange sys ++
      map (fun kv => {| pub_Type := event_type kv.2; pub_Body := payload kv.2 |})
          (selected (db sys)) /\
  (forall i kv, selected (db sys) !! i = Some kv ->
     outbox_events (db sys') !! kv.1 = Some (marked (update_now env i) kv.2)) /\
  selected (db sys') = [] /\
  forall env', poll env' sys' = sys'.
Proof.
  intros [Hfetch Hok] Hlimit sys'.
  assert (Hbatch : batch env sys = map scan_event (selected (db sys))).
  { unfold batch, GetUnpublishedEvents. rewrite Hfetch.
    destruct (Z.ltb_spec (fetch_limit env) 0); [lia|].
    rewrite take_ge by lia. reflexivity. }
  destruct (poll_outbox env sys) as [Hin Hout]. fold sys' in Hin, Hout.
  rewrite Hbatch in Hin, Hout.
  assert (Hmarked : forall i kv, selected (db sys) !! i = Some kv ->
            outbox_events (db sys') !! kv.1 = Some (marked (update_now env i) kv.2)).
  { intros i [id row] Hi.
    specialize (Hin i (scan_event (id, row))).
    rewrite list_lookup_fmap, Hi in Hin. specialize (Hin eq_refl).
    cbn [scan_event Repositories.ID fst snd] in Hin |- *.
    assert (Hrow : outbox_events (db sys) !! id = Some row).
    { apply list_elem_of_lookup_2, PersistenceProofs.selected_elem in Hi.
      apply Hi. }
    rewrite Hin, Hrow. cbn. unfold row_after. destruct (Hok i) as [-> ->]. reflexivity. }
  assert (Hnil : selected (db sys') = []).
  { apply selected_nil_iff. intros id row' Hrow' Hun.
    destruct (decide (id ∈ map Repositories.ID (map scan_event (selected (db sys)))))
      as [Hmem|Hmem].
    - apply list_elem_of_fmap in Hmem as (ev & -> & Hev).
      apply list_elem_of_fmap in Hev as (kv & -> & Hkv).
      apply list_elem_of_lookup_1 in Hkv as [i Hi].
      change (Repositories.ID (scan_event kv)) with kv.1 in Hrow'.
      rewrite (Hmarked i kv Hi) in Hrow'. injection Hrow' as <-.
      destruct Hun as [Hpub _]. discriminate Hpub.
    - rewrite (Hout id Hmem) in Hrow'. apply Hmem.
      apply list_elem_of_fmap. exists (scan_event (id, row')). split; [reflexivity|].
      apply list_elem_of_fmap. exists (id, row'). split; [reflexivity|].
      apply PersistenceProofs.selected_elem. split; assumption. }
  split; [|split; [exact Hmarked|split; [exact Hnil|]]].
  - unfold sys'. rewrite poll_batch, publish_events_exchange, delivered_all, Hbatch;
      [|intros j; apply Hok].
    rewrite map_map. reflexivity.
  - intros env'. rewrite poll_batch.
    assert (Hb : batch env' sys' = []).
    { unfold batch, GetUnpublishedEvents. rewrite Hnil.
      destruct (fetch_fails env'); [reflexivity|].
      destruct (_ <? _); [reflexivity|]. rewrite take_nil. reflexivity. }
    rewrite Hb. reflexivity.
Qed.

(** The theorem for an outbox with two check-out events and a check-in
    event. *)
Lemma poll_drains_outbox_witness :
  let row := fun ty pl t => mkOutboxRow ty "r" pl t false None 0 None in
  let sys := mkSystem
               (mkDB ∅ (<["a" := row EventTypeEmployeeCheckedOut [x02] 30]>
                        (<["b" := row EventTypeEmployeeCheckedIn [x00] 10]>
                         (<["c" := row EventTypeEmployeeCheckedOut [x01] 20]> ∅)))) [] in
  let env := {| fetch_limit := 100; fetch_fails := false;
                publish_fails := fun _ => false; publish_error := fun _ => "";
                update_fails := fun _ => false; update_now := fun _ => 40 |} in
  map pub_Body (exchange (poll env sys)) = [[x01]; [x02]] /\
  selected (db (poll env sys)) = [] /\
  poll env (poll env sys) = poll env sys.
Proof.
  intros row sys env.
  destruct (poll_drains_outbox env sys) as (Hex & _ & Hnil & Hidle).
  - split; [reflexivity|]. intros i. split; reflexivity.
  - vm_compute. discriminate.
  - split; [|split; [exact Hnil|apply Hidle]].
    rewrite Hex. vm_compute. reflexivity.
Defined.

End RelayEffectsProofs.

Module HttpProofs.
Import Go GoFacts Events Persistence Services TimeRecordStore Http.

(** Bytes below 128 are one rune each. *)
Lemma rune_count_ascii bs :
  Forall (fun c => (c < 0x80)%N) bs -> rune_count bs = length bs.
Proof.
  induction 1 as [|c bs Hc Hall IH]; [reflexivity|].
  cbn [rune_count length]. destruct (N.ltb_spec c 0x80); [|lia].
  rewrite IH. reflexivity.
Qed.

Lemma alphanumeric_ascii c : alphanumeric c = true -> (c < 0x80)%N.
Proof.
  unfold alphanumeric. intros H.
  repeat match type of H with
         | (_ || _)%bool = true => apply orb_true_iff in H as [H|H]
         | (_ && _)%bool = true => apply andb_true_iff in H as [? H]
         end;
    apply N.leb_le in H; lia.
Qed.

Lemma forallb_Forall {A} (f : A -> bool) l :
  forallb f l = true <-> Forall (fun x => f x = true) l.
Proof.
  induction l as [|x l IH]; cbn; [split; [constructor|reflexivity]|].
  rewrite andb_true_iff, IH, Forall_cons. reflexivity.
Qed.

Lemma bytes_of_nil s : bytes_of s = [] <-> s = "".
Proof. destruct s; cbn; split; congruence. Qed.

(** X16. [validateRequest] accepts exactly the employee ids of 3 to 50 bytes,
    each of them an ASCII letter or digit. *)
Theorem validateRequest_accepts_iff (req : CheckInRequest) :
  validateRequest req = None <->
  (3 <= length (bytes_of (EmployeeID req)) <= 50)%nat /\
  Forall (fun c => alphanumeric c = true) (bytes_of (EmployeeID req)).
Proof.
  unfold validateRequest, RuneCountInString, matches_alphanum.
  set (s := EmployeeID req). split.
  - destruct (String.eqb_spec s "") as [|Hne]; [discriminate|].
    destruct (Z.ltb_spec (Z.of_nat (rune_count (bytes_of s))) 3) as [|Hmin];
      [discriminate|].
    destruct (Z.ltb_spec 50 (Z.of_nat (rune_count (bytes_of s)))) as [|Hmax];
      [discriminate|].
    destruct (bytes_of s) as [|c bs] eqn:Hbs; [discriminate|].
    destruct (forallb alphanumeric (c :: bs)) eqn:Hall; [|discriminate].
    intros _. apply forallb_Forall in Hall.
    assert (Hlen : rune_count (c :: bs) = length (c :: bs)).
    { apply rune_count_ascii. eapply Forall_impl; [exact Hall|].
      intros x. apply alphanumeric_ascii. }
    rewrite Hlen in Hmin, Hmax. split; [lia|exact Hall].
  - intros [Hlen Hall].
    assert (Hrc : rune_count (bytes_of s) = length (bytes_of s)).
    { apply rune_count_ascii. eapply Forall_impl; [exact Hall|].
      intros x. apply alphanumeric_ascii. }
    destruct (String.eqb_spec s "") as [Hs|Hne].
    { apply bytes_of_nil in Hs. rewrite Hs in Hlen. simpl in Hlen. lia. }
    rewrite Hrc.
    destruct (Z.ltb_spec (Z.of_nat (length (bytes_of s))) 3); [lia|].
    destruct (Z.ltb_spec 50 (Z.of_nat (length (bytes_of s)))); [lia|].
    destruct (bytes_of s) as [|c bs] eqn:Hbs; [simpl in Hlen; lia|].
    apply forallb_Forall in Hall. rewrite Hall. reflexivity.
Qed.

Section Handler.

Variable json_Marshal : DomainEvent -> option Bytes.
Variable json_Decode : Bytes -> option CheckInRequest.

Local Abbreviation handle := (HandleCheckIn json_Marshal json_Decode).

(** A request that passes the checks of the handler reaches the two
    services. *)
Lemma HandleCheckIn_valid env r db req :
  Method r = "POST" ->
  json_Decode (Body r) = Some req ->
  validateRequest req = None ->
  EmployeeID req <> "" /\
  handle env r db =
    match CheckOut json_Marshal (dupWindow env) (out_env env) (EmployeeID req) db with
    | (Ok record, db) =>
        (Json {| Success := true;
                 Message := "Successfully checked out";
                 RecordID := Entities.ID record;
                 Action := "checked_out";
                 HoursWorked := Entities.HoursWorked record |}, db)
    | (Err _, db) =>
        match CheckIn json_Marshal (in_env env) (EmployeeID req) db with
        | (Err err, db) =>
            match err with
            | ErrEmployeeAlreadyCheckedIn => (Error (ErrorOf err) StatusConflict, db)
            | _ => (Error (ErrorOf err) StatusInternalServerError, db)
            end
        | (Ok record, db) =>
            (Json {| Success := true;
                     Message := "Successfully checked in";
                     RecordID := Entities.ID record;
                     Action := "checked_in";
                     HoursWorked := 0%float |}, db)
        end
    end.
Proof.
  intros Hpost Hdec Hvalid.
  assert (Hne : EmployeeID req <> "").
  { intros Hempty. unfold validateRequest in Hvalid. rewrite Hempty in Hvalid.
    discriminate. }
  split; [exact Hne|].
  unfold HandleCheckIn. rewrite Hpost.
  change (String.eqb "POST" "POST") with true. cbn [negb]. rewrite Hdec, Hvalid.
  destruct (String.eqb_spec (EmployeeID req) ""); [contradiction|reflexivity].
Qed.

(** X17. A request changes the database only when it is answered with
    success, and then by one check-in or check-out: an answer with an
    error leaves the database as it was, whichever check or call failed;
    an answer with success comes with exactly one new outbox row,
    unpublished, of the event type of the action in the answer and for
    the record in the answer, and the request had an employee id that
    the validation accepts. *)
Theorem HandleCheckIn_writes_once (env : HandlerEnv) (r : Request) (db : Database) :
  match handle env r db with
  | (Error _ _, db') => db' = db
  | (Json resp, db') =>
      (exists req, json_Decode (Body r) = Some req /\ validateRequest req = None) /\
      exists id row,
        outbox_events db !! id = None /\
        outbox_events db' = <[id := row]> (outbox_events db) /\
        published row = false /\
        aggregate_id row = RecordID resp /\
        (Action resp = "checked_out" /\ event_type row = EventTypeEmployeeCheckedOut \/
         Action resp = "checked_in" /\ event_type row = EventTypeEmployeeCheckedIn)
  end.
Proof.
  destruct (String.eqb_spec (Method r) "POST") as [Hpost|Hpost].
  2:{ unfold HandleCheckIn.
      destruct (String.eqb_spec (Method r) "POST"); [contradiction|reflexivity]. }
  destruct (json_Decode (Body r)) as [req|] eqn:Hdec.
  2:{ unfold HandleCheckIn. rewrite Hpost, Hdec. reflexivity. }
  destruct (validateRequest req) as [tag|] eqn:Hvalid.
  { unfold HandleCheckIn. rewrite Hpost.
    change (String.eqb "POST" "POST") with true. cbn [negb]. rewrite Hdec, Hvalid.
    destruct (String.eqb _ _); reflexivity. }
  destruct (HandleCheckIn_valid env r db req Hpost Hdec Hvalid) as [_ ->].
  destruct (ActiveRecordsProofs.CheckOut_result json_Marshal (dupWindow env) (out_env env)
              (EmployeeID req) db)
    as [[err ->]|(pl & id0 & row0 & _ & _ & _ & _ & _ & Hfresh & Hok)].
  - destruct (ActiveRecordsProofs.CheckIn_result json_Marshal (in_env env)
                (EmployeeID req) db) as [[err' ->]|(pl & _ & _ & Hfresh & Hok)].
    + destruct err'; reflexivity.
    + cbv zeta in Hok. rewrite Hok. split; [eauto|].
      eexists _, _. split; [exact Hfresh|]. split; [reflexivity|].
      cbn. auto.
  - cbv zeta in Hok. rewrite Hok. split; [eauto|].
    eexists _, _. split; [exact Hfresh|]. split; [reflexivity|].
    cbn. auto.
Qed.

(** X18. For an employee who is checked in, a request whose check-out attempt
    fails, for whatever reason (it comes within the duplicate window, or
    the lookup or the save of the check-out fails), is answered 409 with
    the text of the already-checked-in error as soon as the lookup of the
    check-in that follows succeeds: the cause of the failure is not
    reported.  The database is left as it was. *)
Theorem HandleCheckIn_conflict (env : HandlerEnv) (r : Request) (db : Database)
    (req : CheckInRequest) (record : Entities.TimeRecord) :
  Method r = "POST" ->
  json_Decode (Body r) = Some req ->
  validateRequest req = None ->
  FindActiveByEmployeeID false (EmployeeID req) db = Ok (Some record) ->
  in_find_fails (in_env env) = false ->
  (forall closed, fst (CheckOut json_Marshal (dupWindow env) (out_env env)
                         (EmployeeID req) db) <> Ok closed) ->
  handle env r db = (Error (ErrorOf ErrEmployeeAlreadyCheckedIn) StatusConflict, db).
Proof.
  intros Hpost Hdec Hvalid Hfind Hin Hout.
  destruct (HandleCheckIn_valid env r db req Hpost Hdec Hvalid) as [_ ->].
  destruct (ActiveRecordsProofs.CheckOut_result json_Marshal (dupWindow env) (out_env env)
              (EmployeeID req) db)
    as [[err ->]|(pl & id0 & row0 & _ & _ & _ & _ & _ & _ & Hok)].
  - unfold CheckIn. rewrite Hin, Hfind. reflexivity.
  - exfalso. cbv zeta in Hok. rewrite Hok in Hout. eapply Hout. reflexivity.
Qed.

(** X19. The endpoint is a toggle.  For an employee without an active record
    it checks in: the answer names the new record, which the next lookup
    returns as the employee's active record.  For an employee whose
    active record is older than the duplicate window it checks out: the
    answer names that record and the hours between its check-in and now,
    and the row of the record is then checked out.  Both need the save to
    go through, and the second the lookup of the check-out to be
    answered. *)
Theorem HandleCheckIn_toggles (env : HandlerEnv) (r : Request) (db : Database)
    (req : CheckInRequest) :
  Method r = "POST" ->
  json_Decode (Body r) = Some req ->
  validateRequest req = None ->
  (forall ev, is_Some (json_Marshal ev)) ->
  (FindActiveByEmployeeID false (EmployeeID req) db = Ok None ->
   commits (in_tx (in_env env)) db ->
   time_records db !! in_record_id (in_env env) = None ->
   exists db' record,
     handle env r db
       = (Json {| Success := true;
                  Message := "Successfully checked in";
                  RecordID := in_record_id (in_env env);
                  Action := "checked_in";
                  HoursWorked := 0%float |}, db') /\
     FindActiveByEmployeeID false (EmployeeID req) db' = Ok (Some record) /\
     Entities.ID record = in_record_id (in_env env) /\
     Entities.CheckInAt record = in_record_now (in_env env)) /\
  (forall record,
     FindActiveByEmployeeID false (EmployeeID req) db = Ok (Some record) ->
     out_find_fails (out_env env) = false ->
     wrap64 (dupWindow env * Second)
       <= Since (out_since_now (out_env env)) (Entities.CheckInAt record) ->
     commits (out_tx (out_env env)) db ->
     exists db' row,
       handle env r db
         = (Json {| Success := true;
                    Message := "Successfully checked out";
                    RecordID := Entities.ID record;
                    Action := "checked_out";
                    HoursWorked :=
                      Duration_Hours (Time_Sub (out_checkout_now (out_env env))
                                               (Entities.CheckInAt record)) |}, db') /\
       time_records db' !! Entities.ID record = Some row /\
       status row = Entities.StatusCheckedOut /\
       check_out_at row = Some (out_checkout_now (out_env env))).
Proof.
  intros Hpost Hdec Hvalid Hjson.
  destruct (HandleCheckIn_valid env r db req Hpost Hdec Hvalid) as [Hne Hhandle].
  split.
  - intros Hnone Hcommits Hnew. rewrite Hhandle.
    assert (Hout : exists err, CheckOut json_Marshal (dupWindow env) (out_env env)
                                 (EmployeeID req) db = (Err err, db)).
    { unfold CheckOut, FindActiveByEmployeeID.
      destruct (out_find_fails (out_env env)); [eexists; reflexivity|].
      fold (FindActiveByEmployeeID false (EmployeeID req) db). rewrite Hnone.
      eexists; reflexivity. }
    destruct Hout as [err ->].
    destruct (ActiveRecordsProofs.CheckIn_succeeds json_Marshal (in_env env)
                (EmployeeID req) db) as (db' & -> & Hrecords); try assumption.
    { intros r0. unfold FindActiveByEmployeeID.
      destruct (in_find_fails (in_env env)); [discriminate|].
      fold (FindActiveByEmployeeID false (EmployeeID req) db). rewrite Hnone.
      discriminate. }
    pose proof (TimeRecordStoreProofs.FindActiveByEmployeeID_cases (EmployeeID req) db)
      as Hbefore.
    rewrite Hnone in Hbefore.
    pose proof (TimeRecordStoreProofs.FindActiveByEmployeeID_cases (EmployeeID req) db')
      as Hafter.
    assert (Hlook : forall id,
              time_records db' !! id =
                if decide (id = in_record_id (in_env env)) then
                  Some {| employee_id := EmployeeID req;
                          check_in_at := in_record_now (in_env env);
                          check_out_at := None;
                          status := Entities.StatusCheckedIn;
                          hours_worked := 0%float;
                          tr_created_at := server_now (in_tx (in_env env));
                          updated_at := server_now (in_tx (in_env env)) |}
                else time_records db !! id).
    { intros id. rewrite Hrecords, TimeRecordStoreProofs.upsert_time_record_lookup.
      cbn [Entities.ID]. rewrite Hnew. reflexivity. }
    destruct (FindActiveByEmployeeID false (EmployeeID req) db') as [[found|]|e0]
      eqn:Hf; [| |contradiction].
    + exists db', found. split; [reflexivity|]. split; [exact Hf|].
      destruct Hafter as ((row & Hrow & Hact & Hfound) & _).
      rewrite Hlook in Hrow.
      destruct (decide (Entities.ID found = in_record_id (in_env env))) as [Hid|Hid].
      * split; [exact Hid|]. injection Hrow as <-. rewrite Hfound. reflexivity.
      * exfalso. exact (Hbefore _ _ Hrow Hact).
    + exfalso. eapply (Hafter (in_record_id (in_env env))).
      * rewrite Hlook, decide_True by reflexivity. reflexivity.
      * split; reflexivity.
  - intros record Hfind Hfails Hwindow Hcommits. rewrite Hhandle.
    destruct (ActiveRecordsProofs.CheckOut_succeeds json_Marshal (dupWindow env)
                (out_env env) (EmployeeID req) db record)
      as (db' & -> & Hrecords); try assumption.
    cbn [Entities.ID Entities.HoursWorked].
    eexists db', _. split; [reflexivity|].
    rewrite Hrecords, TimeRecordStoreProofs.upsert_time_record_lookup.
    cbn [Entities.ID]. rewrite decide_True by reflexivity.
    split; [reflexivity|].
    destruct (time_records db !! Entities.ID record); split; reflexivity.
Qed.

End Handler.

(** The theorem for an employee who taps the card at second 1 and again
    at second 3601: checked in, then checked out after one hour. *)
Lemma HandleCheckIn_toggles_witness :
  let json := fun _ : DomainEvent => Some ([] : Bytes) in
  let decode := fun _ : Bytes => Some {| EmployeeID := "E01" |} in
  let tx := fun (id : string) (now : Time) =>
              {| begin_fails := false; exec_record_fails := false;
                 exec_outbox_fails := false; commit_fails := false;
                 outbox_id := id; outbox_now := now; server_now := now |} in
  let env := fun (now : Time) (rid oid : string) =>
               {| dupWindow := 60;
                  out_env := {| out_find_fails := false; out_since_now := now;
                                out_checkout_now := now; out_event_id := "e";
                                out_event_now := now; out_tx := tx oid now |};
                  in_env := {| in_find_fails := false; in_record_id := rid;
                               in_record_now := now; in_event_id := "e";
                               in_event_now := now; in_tx := tx oid now |} |} in
  let post := {| Method := "POST"; Body := [] |} in
  let first := HandleCheckIn json decode (env (1 * Second) "r1" "o1") post (mkDB ∅ ∅) in
  let second := HandleCheckIn json decode (env (3601 * Second) "r2" "o2") post (snd first) in
  fst first = Json {| Success := true; Message := "Successfully checked in";
                      RecordID := "r1"; Action := "checked_in";
                      HoursWorked := 0%float |} /\
  fst second = Json {| Success := true; Message := "Successfully checked out";
                       RecordID := "r1"; Action := "checked_out";
                       HoursWorked := 1%float |}.
Proof.
  intros json decode tx env post first second.
  assert (Hjson : forall ev, is_Some (json ev)) by (intros ev; eexists; reflexivity).
  split.
  - destruct (proj1 (HandleCheckIn_toggles json decode (env (1 * Second) "r1" "o1") post
                       (mkDB ∅ ∅) {| EmployeeID := "E01" |} eq_refl eq_refl eq_refl Hjson))
      as (db' & record & Hres & _).
    + vm_compute. reflexivity.
    + repeat split.
    + reflexivity.
    + unfold first. rewrite Hres. reflexivity.
  - destruct (proj2 (HandleCheckIn_toggles json decode (env (3601 * Second) "r2" "o2") post
                       (snd first) {| EmployeeID := "E01" |} eq_refl eq_refl eq_refl Hjson)
                {| Entities.ID := "r1"; Entities.EmployeeID := "E01";
                   Entities.CheckInAt := 1 * Second; Entities.CheckOutAt := None;
                   Entities.Status := Entities.StatusCheckedIn;
                   Entities.HoursWorked := 0%float |})
      as (db' & row & Hres & _).
    + vm_compute. reflexivity.
    + reflexivity.
    + vm_compute. discriminate.
    + repeat split.
    + unfold second. rewrite Hres. vm_compute. reflexivity.
Defined.

(** The theorem for a double tap: the employee checked in at second 1 and
    the card is read again at second 3, within the window of 60 seconds. *)
Lemma HandleCheckIn_conflict_witness :
  let json := fun _ : DomainEvent => Some ([] : Bytes) in
  let decode := fun _ : Bytes => Some {| EmployeeID := "E01" |} in
  let tx := fun (id : string) (now : Time) =>
              {| begin_fails := false; exec_record_fails := false;
                 exec_outbox_fails := false; commit_fails := false;
                 outbox_id := id; outbox_now := now; server_now := now |} in
  let env := fun (now : Time) (rid oid : string) =>
               {| dupWindow := 60;
                  out_env := {| out_find_fails := false; out_since_now := now;
                                out_checkout_now := now; out_event_id := "e";
                                out_event_now := now; out_tx := tx oid now |};
                  in_env := {| in_find_fails := false; in_record_id := rid;
                               in_record_now := now; in_event_id := "e";
                               in_event_now := now; in_tx := tx oid now |} |} in
  let post := {| Method := "POST"; Body := [] |} in
  let db := snd (HandleCheckIn json decode (env (1 * Second) "r1" "o1") post (mkDB ∅ ∅)) in
  HandleCheckIn json decode (env (3 * Second) "r2" "o2") post db
    = (Error (ErrorOf ErrEmployeeAlreadyCheckedIn) StatusConflict, db).
Proof.
  intros json decode tx env post db.
  apply (HandleCheckIn_conflict json decode (env (3 * Second) "r2" "o2") post db
           {| EmployeeID := "E01" |}
           {| Entities.ID := "r1"; Entities.EmployeeID := "E01";
              Entities.CheckInAt := 1 * Second; Entities.CheckOutAt := None;
              Entities.Status := Entities.StatusCheckedIn;
              Entities.HoursWorked := 0%float |}).
  - reflexivity.
  - reflexivity.
  - vm_compute. reflexivity.
  - vm_compute. reflexivity.
  - reflexivity.
  - intros closed. vm_compute. discriminate.
Defined.

End HttpProofs.

Module EmailProofs.
Import Go GoFacts Events Handlers Messaging Email.

Section Notifier.

Variable json_Unmarshal : Bytes -> option EmployeeCheckedOutEvent.
Variable Sprintf_body : Time -> Time -> float64 -> string.

Local Abbreviation handle := (handler json_Unmarshal Sprintf_body).
Local Abbreviation behind := (call_behind json_Unmarshal Sprintf_body).

(** One message: the handler returns, having called [smtp.SendMail] once
    if the body decodes and not at all if it does not. *)
Lemma handler_once data w :
  let err := result_of json_Unmarshal data (send_fails w (seen w)) in
  handle data w
    = (Returned err,
       mkWorker (client w)
                (sendmail w ++ behind (client w) ({| DeliveryTag := 0; Body := data |}, err))
                (send_fails w) (S (seen w))).
Proof.
  cbv zeta. unfold handler, HandleCheckedOut, result_of, call_behind, SendEmail, mail_of.
  cbn [fst snd Body].
  destruct (json_Unmarshal data) as [ev|]; [|rewrite app_nil_r; reflexivity].
  destruct (send_fails w (seen w)); reflexivity.
Qed.

Lemma consume_loop_worker inputs :
  forall w log,
    let run := consume_loop handle inputs w log in
    let hs := handled handle inputs w in
    client (snd (fst run)) = client w /\
    sendmail (snd (fst run)) = sendmail w ++ flat_map (behind (client w)) hs /\
    forall i d err,
      hs !! i = Some (d, err) ->
      err = result_of json_Unmarshal (Body d) (send_fails w (seen w + i)).
Proof.
  induction inputs as [|inp inputs IH]; intros w log; cbv zeta.
  - cbn. rewrite app_nil_r. repeat split. intros i d err Hi. discriminate.
  - destruct inp as [| |msg]; cbn [consume_loop handled].
    + cbn. rewrite app_nil_r. repeat split. intros i d err Hi. discriminate.
    + cbn. rewrite app_nil_r. repeat split. intros i d err Hi. discriminate.
    + rewrite (handler_once (Body msg) w). cbv zeta.
      set (err := result_of json_Unmarshal (Body msg) (send_fails w (seen w))).
      set (w1 := mkWorker _ _ _ _).
      assert (Hrun : forall log1,
                let run := consume_loop handle inputs w1 log1 in
                client (snd (fst run)) = client w /\
                sendmail (snd (fst run))
                  = sendmail w ++
                    flat_map (behind (client w)) ((msg, err) :: handled handle inputs w1)).
      { intros log1. destruct (IH w1 log1) as (Hc & Hs & _). cbv zeta.
        split; [exact Hc|]. rewrite Hs. unfold w1 at 1 2. cbn [sendmail client flat_map].
        rewrite <- app_assoc. reflexivity. }
      assert (Herrs : forall i d e,
                ((msg, err) :: handled handle inputs w1) !! i = Some (d, e) ->
                e = result_of json_Unmarshal (Body d) (send_fails w (seen w + i))).
      { intros [|i] d e Hi.
        - injection Hi as <- <-. rewrite Nat.add_0_r. reflexivity.
        - cbn in Hi. destruct (IH w1 log) as (_ & _ & He).
          rewrite (He i d e Hi). unfold w1. cbn [send_fails seen].
          replace (S (seen w) + i)%nat with (seen w + S i)%nat by lia. reflexivity. }
      destruct err as [e|].
      * destruct (Hrun (log ++ [Nack (DeliveryTag msg) false true])) as [Hc Hs].
        split; [exact Hc|]. split; [exact Hs|exact Herrs].
      * destruct (Hrun (log ++ [Ack (DeliveryTag msg) false])) as [Hc Hs].
        split; [exact Hc|]. split; [exact Hs|exact Herrs].
Qed.

(** X20. The e-mail worker calls [smtp.SendMail] exactly once for each
    delivery whose body decodes, in the order of the deliveries, with the
    mail for the employee of the event, and never for a body that does
    not decode.  The handler returns nil exactly when the body decodes and
    that call succeeds, and the delivery is then acked; in every other
    case it is nacked with requeue. *)
Theorem email_worker_one_mail_per_delivery (inputs : list Input) (w : Worker) :
  let run := Consume handle false inputs w in
  let hs := handled handle inputs w in
  sendmail (snd (fst run)) = sendmail w ++ flat_map (behind (client w)) hs /\
  (forall i d err,
     hs !! i = Some (d, err) ->
     err = result_of json_Unmarshal (Body d) (send_fails w (seen w + i))) /\
  Forall2 answers hs (snd run).
Proof.
  cbv zeta. unfold Consume.
  destruct (consume_loop_worker inputs w []) as (_ & Hs & Herr).
  split; [exact Hs|]. split; [exact Herr|].
  destruct (MessagingProofs.consume_loop_log handle inputs w []) as (acts & Hlog & Hall).
  rewrite Hlog. exact Hall.
Qed.

End Notifier.

End EmailProofs.

Module LaborWorkerProofs.
Import Go GoFacts Events CircuitBreaker LegacyClient LaborWorker Handlers Messaging.

(** A call that returns nil has made its request and had it accepted. *)
Lemma RecordLaborCost_nil env id h w :
  fst (RecordLaborCost env id h w) = None ->
  posted (snd (RecordLaborCost env id h w)) = posted w ++ [request_of env id h] /\
  accepted (do_result env).
Proof.
  unfold RecordLaborCost, accepted.
  destruct (can_execute _ _) as [[e|] cb]; [discriminate|].
  destruct (json_Marshal_fails h); [discriminate|].
  destruct (new_request_fails env); [discriminate|].
  destruct (do_result env) as [|code]; [discriminate|].
  destruct (Z.eqb_spec code StatusOK) as [->|]; [intros _; auto|].
  destruct (Z.eqb_spec code StatusCreated) as [->|]; [intros _; auto|].
  discriminate.
Qed.

Lemma call_envs id h s : envs (snd (call id h s)) = envs s.
Proof. unfold call. destruct (RecordLaborCost _ _ _ _). reflexivity. Qed.

Lemma call_made id h s : made (snd (call id h s)) = S (made s).
Proof. unfold call. destruct (RecordLaborCost _ _ _ _). reflexivity. Qed.

Lemma call_nil id h s :
  fst (call id h s) = None ->
  posted (legacy (snd (call id h s)))
    = posted (legacy s) ++ [request_of (envs s (made s)) id h] /\
  accepted (do_result (envs s (made s))).
Proof.
  unfold call.
  pose proof (RecordLaborCost_nil (envs s (made s)) id h (legacy s)) as Hnil.
  destruct (RecordLaborCost (envs s (made s)) id h (legacy s)) as [err w].
  cbn [fst snd legacy] in *. exact Hnil.
Qed.

Lemma extends_refl s : extends s s.
Proof. repeat split; [lia|]. exists []. rewrite app_nil_r. reflexivity. Qed.

Lemma extends_trans s1 s2 s3 : extends s1 s2 -> extends s2 s3 -> extends s1 s3.
Proof.
  intros (He1 & Hm1 & new1 & Hp1) (He2 & Hm2 & new2 & Hp2).
  split; [congruence|]. split; [lia|].
  exists (new1 ++ new2). rewrite Hp2, Hp1, app_assoc. reflexivity.
Qed.

Lemma call_extends id h s : extends s (snd (call id h s)).
Proof.
  split; [apply call_envs|]. split; [rewrite call_made; lia|].
  destruct (LegacyClientProofs.call_posted id h s) as (new & Hp & _). eauto.
Qed.

Lemma retry_loop_session cfg ev fuel :
  forall attempt backoff (st : HState Session),
    let run := retry_loop call cfg ev fuel attempt backoff st in
    extends (world st) (world (snd run)) /\
    (fst run = Returned None -> recorded ev (world st) (world (snd run))).
Proof.
  induction fuel as [|fuel IH]; intros attempt backoff st; cbv zeta.
  { cbn. split; [apply extends_refl|discriminate]. }
  cbn [retry_loop].
  destruct (attempt <? MaxAttempts cfg); [|split; [apply extends_refl|discriminate]].
  pose proof (call_extends (out_EmployeeID ev) (out_HoursWorked ev) (world st)) as Hext.
  pose proof (call_nil (out_EmployeeID ev) (out_HoursWorked ev) (world st)) as Hnil.
  destruct (call (out_EmployeeID ev) (out_HoursWorked ev) (world st)) as [[e|] s1].
  - cbn [fst snd world sleeps] in *.
    destruct (MaxAttempts cfg <=? wrap64 (attempt + 1)).
    { cbn [fst snd world]. split; [exact Hext|discriminate]. }
    destruct (IH (wrap64 (attempt + 1)) (next_backoff cfg backoff)
                (mkHState s1 (sleeps st ++ [backoff]))) as [Hext2 Hrec2].
    cbn [world] in Hext2, Hrec2. split.
    + eapply extends_trans; eassumption.
    + intros Hres. destruct (Hrec2 Hres) as (k & pre & Hk & Hacc & Hp).
      destruct Hext as (He & Hm & new & Hp1).
      exists k, (new ++ pre). split; [lia|]. split; [rewrite <- He; exact Hacc|].
      rewrite Hp, Hp1, He, <- !app_assoc. reflexivity.
  - cbn [fst snd world] in *. split; [exact Hext|]. intros _.
    destruct (Hnil eq_refl) as [Hp Hacc].
    exists (made (world st)), []. split; [lia|]. split; [exact Hacc|exact Hp].
Qed.

Section Worker.

Variable json_Unmarshal : Bytes -> option EmployeeCheckedOutEvent.
Variable cfg : RetryConfig.

Local Abbreviation handle := (HandleCheckedOut json_Unmarshal call cfg).

Lemma HandleCheckedOut_session data (st : HState Session) :
  extends (world st) (world (snd (handle data st))) /\
  (fst (handle data st) = Returned None ->
   exists ev, json_Unmarshal data = Some ev /\
              recorded ev (world st) (world (snd (handle data st)))).
Proof.
  unfold HandleCheckedOut. destruct (json_Unmarshal data) as [ev|].
  - destruct (retry_loop_session cfg ev (S (Z.to_nat (MaxAttempts cfg))) 0
                (InitialBackoff cfg) st) as [Hext Hrec].
    split; [exact Hext|]. intros Hres. exists ev. split; [reflexivity|]. auto.
  - cbn. split; [apply extends_refl|discriminate].
Qed.

Lemma recorded_extends ev s0 s s' s'' :
  extends s0 s -> recorded ev s s' -> extends s' s'' ->
  exists k pre post,
    (made s0 <= k)%nat /\
    accepted (do_result (envs s0 k)) /\
    posted (legacy s'')
      = posted (legacy s0) ++ pre ++
        [request_of (envs s0 k) (out_EmployeeID ev) (out_HoursWorked ev)] ++ post.
Proof.
  intros (He0 & Hm0 & new0 & Hp0) (k & pre & Hk & Hacc & Hp) (_ & _ & new2 & Hp2).
  exists k, (new0 ++ pre), new2. split; [lia|]. split; [rewrite <- He0; exact Hacc|].
  rewrite Hp2, Hp, Hp0, He0, <- !app_assoc. reflexivity.
Qed.

Lemma consume_loop_session inputs :
  forall (st : HState Session) log,
    let run := consume_loop handle inputs st log in
    extends (world st) (world (snd (fst run))) /\
    forall i d,
      handled handle inputs st !! i = Some (d, None) ->
      exists ev k pre post,
        json_Unmarshal (Body d) = Some ev /\
        (made (world st) <= k)%nat /\
        accepted (do_result (envs (world st) k)) /\
        posted (legacy (world (snd (fst run))))
          = posted (legacy (world st)) ++ pre ++
            [request_of (envs (world st) k) (out_EmployeeID ev) (out_HoursWorked ev)]
            ++ post.
Proof.
  induction inputs as [|inp inputs IH]; intros st log; cbv zeta.
  - cbn. split; [apply extends_refl|]. intros i d Hi. discriminate.
  - destruct inp as [| |msg]; cbn [consume_loop handled].
    + cbn. split; [apply extends_refl|]. intros i d Hi. discriminate.
    + cbn. split; [apply extends_refl|]. intros i d Hi. discriminate.
    + destruct (HandleCheckedOut_session (Body msg) st) as [Hext Hrec].
      destruct (handle (Body msg) st) as [[err|] st1];
        [|cbn; split; [exact Hext|intros i d Hi; discriminate]].
      cbn [fst snd] in Hext, Hrec.
      assert (Hgen : forall log1,
                let run := consume_loop handle inputs st1 log1 in
                extends (world st) (world (snd (fst run))) /\
                forall i d,
                  ((msg, err) :: handled handle inputs st1) !! i = Some (d, None) ->
                  exists ev k pre post,
                    json_Unmarshal (Body d) = Some ev /\
                    (made (world st) <= k)%nat /\
                    accepted (do_result (envs (world st) k)) /\
                    posted (legacy (world (snd (fst run))))
                      = posted (legacy (world st)) ++ pre ++
                        [request_of (envs (world st) k) (out_EmployeeID ev)
                           (out_HoursWorked ev)] ++ post).
      { intros log1. destruct (IH st1 log1) as [Hext1 Hrec1]. cbv zeta. split.
        - eapply extends_trans; eassumption.
        - intros [|i] d Hi.
          + injection Hi as <- ->. destruct (Hrec eq_refl) as (ev & Hjson & Hr).
            destruct (recorded_extends ev (world st) (world st) (world st1) _
                        (extends_refl _) Hr Hext1) as (k & pre & post & Hk & Hacc & Hp).
            exists ev, k, pre, post. auto.
          + cbn in Hi. destruct (Hrec1 i d Hi) as (ev & k & pre & post & Hjson & Hk & Hacc & Hp).
            destruct Hext as (He & Hm & new & Hp0).
            exists ev, k, (new ++ pre), post. split; [exact Hjson|].
            split; [lia|]. split; [rewrite <- He; exact Hacc|].
            rewrite Hp, Hp0, He, <- !app_assoc. reflexivity. }
      destruct err as [e|]; apply Hgen.
Qed.

(** X22. An ack means that the labor cost was recorded.  For every delivery
    that the labor-cost worker acknowledges, the body decoded to an event
    and, while the worker ran, the client posted a request with the
    employee and the hours of that event which the legacy API answered
    with 200 or 201. *)
Theorem labor_worker_ack_means_recorded (inputs : list Input)
    (st : HState Session) (i : nat) (d : Delivery) :
  let run := Consume handle false inputs st in
  handled handle inputs st !! i = Some (d, None) ->
  snd run !! i = Some (Ack (DeliveryTag d) false) /\
  exists ev k pre post,
    json_Unmarshal (Body d) = Some ev /\
    (made (world st) <= k)%nat /\
    accepted (do_result (envs (world st) k)) /\
    posted (legacy (world (snd (fst run))))
      = posted (legacy (world st)) ++ pre ++
        [request_of (envs (world st) k) (out_EmployeeID ev) (out_HoursWorked ev)]
        ++ post.
Proof.
  cbv zeta. intros Hi. unfold Consume. split.
  - destruct (MessagingProofs.consume_loop_log handle inputs st []) as (acts & Hlog & Hall).
    rewrite Hlog. cbn [app].
    destruct (Forall2_lookup_l _ _ _ _ _ Hall Hi) as (a & Ha & [Hack _]).
    rewrite Ha. f_equal. apply Hack. reflexivity.
  - destruct (consume_loop_session inputs st []) as [_ Hrec]. exact (Hrec i d Hi).
Qed.

End Worker.

(** The theorem for a delivery whose first request is answered 503 and
    whose second is answered 201. *)
Lemma labor_worker_ack_means_recorded_witness :
  let ev := {| out_header := {| EventID := "e1"; HeaderEventType := EventTypeEmployeeCheckedOut;
                                HeaderVersion := 1; Timestamp := 0 |};
               out_EmployeeID := "E1"; out_CheckInAt := 0; out_CheckOutAt := 0;
               out_HoursWorked := 8.5%float; out_RecordID := "r1" |} in
  let json := fun _ : Bytes => Some ev in
  let env := fun i : nat =>
               {| now_can_execute := Z.of_nat i; now_recorded := Z.of_nat i;
                  new_request_fails := false;
                  do_result := DoResponse (if (i =? 0)%nat then 503 else 201);
                  now_failure := Z.of_nat i |} in
  let st := mkHState (mkSession (mkLegacy (Some (NewCircuitBreaker 5 1 (60 * Second))) [])
                                env 0) [] in
  let d := {| DeliveryTag := 7; Body := [] |} in
  let run := Consume (HandleCheckedOut json call defaultRetryConfig) false
               [Deliver d; CtxDone] st in
  snd run = [Ack 7 false] /\
  map RecordedAt (posted (legacy (world (snd (fst run))))) = [0; 1].
Proof.
  intros ev json env st d run.
  destruct (labor_worker_ack_means_recorded json defaultRetryConfig
              [Deliver d; CtxDone] st 0 d) as [Hack _].
  - vm_compute. reflexivity.
  - split; [|vm_compute; reflexivity].
    fold run in Hack. destruct (snd run) as [|a [|b l]] eqn:Hlog.
    + discriminate.
    + injection Hack as ->. reflexivity.
    + exfalso. revert Hlog. vm_compute. discriminate.
Defined.

End LaborWorkerProofs.

Module RefillProofs.
Import Go GoFacts RateLimiter.

(** The order of binary64 values: [<] is irreflexive and asymmetric, also
    where NaNs, infinities and signed zeros are involved. *)
Lemma SFltb_asym x y : SFltb x y = true -> SFltb y x = false.
Proof.
  unfold SFltb, SFcompare.
  destruct x as [sx|sx| |sx mx ex], y as [sy|sy| |sy my ey];
    try destruct sx; try destruct sy; try discriminate; try reflexivity.
  - rewrite (Z.compare_antisym ex ey).
    change (Pos.compare_cont Eq my mx) with (Pos.compare my mx).
    change (Pos.compare_cont Eq mx my) with (Pos.compare mx my).
    rewrite (Pos.compare_antisym mx my).
    destruct (ex ?= ey); cbn; try discriminate; try reflexivity.
    destruct (mx ?= my)%positive; cbn; try discriminate; reflexivity.
  - rewrite (Z.compare_antisym ex ey).
    change (Pos.compare_cont Eq my mx) with (Pos.compare my mx).
    change (Pos.compare_cont Eq mx my) with (Pos.compare mx my).
    rewrite (Pos.compare_antisym mx my).
    destruct (ex ?= ey); cbn; try discriminate; try reflexivity.
    destruct (mx ?= my)%positive; cbn; try discriminate; reflexivity.
Qed.

Lemma SFltb_irrefl x : SFltb x x = false.
Proof.
  destruct (SFltb x x) eqn:H; [|reflexivity].
  pose proof (SFltb_asym x x H). congruence.
Qed.

Lemma min_le_r a b : PrimFloat.ltb b (min a b) = false.
Proof.
  unfold min. destruct (PrimFloat.ltb a b) eqn:Hab.
  - rewrite FloatAxioms.ltb_spec in Hab |- *. apply SFltb_asym. exact Hab.
  - rewrite FloatAxioms.ltb_spec. apply SFltb_irrefl.
Qed.

(** X21. The refill never overfills the bucket.  However long the limiter has
    been idle, and whatever its fields hold, after the refill at the head
    of [WaitForToken] the bucket does not hold more than [maxTokens]
    tokens; the refill moves [lastRefillAt] to the clock reading and
    changes neither the capacity nor the rate. *)
Theorem refill_never_overfills (now : Time) (rl : RateLimiter) :
  PrimFloat.ltb (maxTokens rl) (tokens (refill now rl)) = false /\
  maxTokens (refill now rl) = maxTokens rl /\
  refillRate (refill now rl) = refillRate rl /\
  lastRefillAt (refill now rl) = now.
Proof.
  unfold refill. cbn [tokens maxTokens refillRate lastRefillAt].
  split; [apply min_le_r|]. repeat split.
Qed.

End RefillProofs.

Module OutboxGuaranteeProofs.
Import Go GoFacts Events Persistence Services Relay RelayEffects TimeRecordStore.

(** A poll in which nothing fails and whose limit covers the unpublished
    check-out events publishes and marks all of them. *)
Lemma poll_faultless env sys :
  faultless env ->
  Z.of_nat (length (selected (db sys))) <= fetch_limit env ->
  exchange (poll env sys)
    = exchange sys ++ map message_of (map scan_event (selected (db sys))) /\
  forall i kv, selected (db sys) !! i = Some kv ->
    outbox_events (db (poll env sys)) !! kv.1 = Some (marked (update_now env i) kv.2).
Proof.
  intros [Hfetch Hok] Hlimit.
  assert (Hbatch : batch env sys = map scan_event (selected (db sys))).
  { unfold batch, GetUnpublishedEvents. rewrite Hfetch.
    destruct (Z.ltb_spec (fetch_limit env) 0); [lia|].
    rewrite take_ge by lia. reflexivity. }
  split.
  - rewrite RelayEffectsProofs.poll_batch, RelayEffectsProofs.publish_events_exchange,
      RelayEffectsProofs.delivered_all, Hbatch; [reflexivity|].
    intros j. apply Hok.
  - destruct (RelayEffectsProofs.poll_outbox env sys) as [Hin _].
    rewrite Hbatch in Hin. intros i [id row] Hi.
    specialize (Hin i (scan_event (id, row))).
    rewrite list_lookup_fmap, Hi in Hin. specialize (Hin eq_refl).
    cbn [scan_event Repositories.ID fst snd] in Hin |- *.
    assert (Hrow : outbox_events (db sys) !! id = Some row).
    { apply list_elem_of_lookup_2, PersistenceProofs.selected_elem in Hi. apply Hi. }
    rewrite Hin, Hrow. cbn. unfold row_after. destruct (Hok i) as [-> ->]. reflexivity.
Qed.

(** The outbox row a successful check-out writes: under the outbox id of
    its transaction, unpublished, of the check-out type, for the record,
    with the serialized event as payload; and the event carries the
    employee, the times and the hours of the record. *)
Lemma CheckOut_outbox_row json w env e d record d1 :
  CheckOut json w env e d = (Ok record, d1) ->
  exists event pl,
    json (CheckedOut event) = Some pl /\
    out_RecordID event = Entities.ID record /\
    out_EmployeeID event = Entities.EmployeeID record /\
    out_CheckInAt event = Entities.CheckInAt record /\
    Some (out_CheckOutAt event) = Entities.CheckOutAt record /\
    out_HoursWorked event = Entities.HoursWorked record /\
    outbox_events d1 !! outbox_id (out_tx env)
      = Some {| event_type := EventTypeEmployeeCheckedOut;
                aggregate_id := Entities.ID record;
                payload := pl;
                created_at := outbox_now (out_tx env);
                published := false;
                published_at := None;
                retry_count := 0;
                last_error := None |}.
Proof.
  unfold CheckOut.
  destruct (FindActiveByEmployeeID (out_find_fails env) e d) as [[r|]|err];
    [|discriminate|discriminate].
  destruct (_ <? _); [discriminate|].
  unfold Entities.CheckOut. destruct (Entities.Status r); [|discriminate].
  match goal with
  | |- context [SaveWithEvent json ?tx ?rc ?ev d] =>
      destruct (PersistenceProofs.SaveWithEvent_result json tx rc ev d)
        as [[err' ->]|(pl & Hjson & _ & ->)]; [discriminate|]
  end.
  intros [= <- <-]. eexists _, pl. split; [exact Hjson|].
  cbn [out_RecordID out_EmployeeID out_CheckInAt out_CheckOutAt out_HoursWorked
       Entities.ID Entities.EmployeeID Entities.CheckInAt Entities.CheckOutAt
       Entities.HoursWorked default outbox_events EventType].
  rewrite lookup_insert_eq. repeat split.
Qed.

(** X24. The guarantee of the outbox: a check-out that succeeded is published.
    The event it serialized sits in the outbox as an unpublished row; the
    next poll of the relay in which nothing fails and whose fetch limit
    covers the unpublished check-out events puts a check-out message with
    exactly that payload on the exchange and marks the row as
    published. *)
Theorem checkout_is_published (json_Marshal : DomainEvent -> option Bytes)
    (dupWindow : Z) (env : CheckOutEnv) (employeeID : string)
    (d d1 : Database) (record : Entities.TimeRecord)
    (tick : PollEnv) (ex : list Publishing) :
  CheckOut json_Marshal dupWindow env employeeID d = (Ok record, d1) ->
  faultless tick ->
  Z.of_nat (length (selected d1)) <= fetch_limit tick ->
  let sys := poll tick (mkSystem d1 ex) in
  exists event pl row,
    json_Marshal (CheckedOut event) = Some pl /\
    out_RecordID event = Entities.ID record /\
    out_EmployeeID event = Entities.EmployeeID record /\
    out_HoursWorked event = Entities.HoursWorked record /\
    (exists new,
       exchange sys = ex ++ new /\
       {| pub_Type := EventTypeEmployeeCheckedOut; pub_Body := pl |} ∈ new) /\
    outbox_events (db sys) !! outbox_id (out_tx env) = Some row /\
    published row = true /\
    payload row = pl.
Proof.
  intros Hout Hfaultless Hlimit sys.
  destruct (CheckOut_outbox_row _ _ _ _ _ _ _ Hout)
    as (event & pl & Hjson & Hid & Hemp & _ & _ & Hhours & Hrow).
  set (row := {| event_type := EventTypeEmployeeCheckedOut;
                 aggregate_id := Entities.ID record; payload := pl;
                 created_at := outbox_now (out_tx env); published := false;
                 published_at := None; retry_count := 0; last_error := None |}) in Hrow.
  assert (Hsel : (outbox_id (out_tx env), row) ∈ selected d1).
  { apply PersistenceProofs.selected_elem. split; [exact Hrow|]. split; reflexivity. }
  apply list_elem_of_lookup_1 in Hsel as [i Hi].
  destruct (poll_faultless tick (mkSystem d1 ex) Hfaultless Hlimit) as [Hex Hmarked].
  exists event, pl, (marked (update_now tick i) row).
  split; [exact Hjson|]. split; [exact Hid|]. split; [exact Hemp|].
  split; [exact Hhours|]. split; [|split; [|split; reflexivity]].
  - eexists. split; [exact Hex|].
    apply list_elem_of_fmap. exists (scan_event (outbox_id (out_tx env), row)).
    split; [reflexivity|].
    apply list_elem_of_fmap. eexists. split; [reflexivity|].
    eapply list_elem_of_lookup_2. exact Hi.
  - exact (Hmarked i _ Hi).
Qed.

(** The theorem for an employee who checks in at second 1 and out at
    second 100, and a poll at second 101. *)
Lemma checkout_is_published_witness :
  let json := fun ev : DomainEvent =>
                Some (match ev with CheckedIn _ => [x01] | CheckedOut _ => [x02] end : Bytes) in
  let tx := fun (id : string) (now : Time) =>
              {| begin_fails := false; exec_record_fails := false;
                 exec_outbox_fails := false; commit_fails := false;
                 outbox_id := id; outbox_now := now; server_now := now |} in
  let d := snd (CheckIn json
                  {| in_find_fails := false; in_record_id := "r1";
                     in_record_now := 1 * Second; in_event_id := "e1";
                     in_event_now := 1 * Second; in_tx := tx "o1" (1 * Second) |}
                  "E1" (mkDB ∅ ∅)) in
  let env := {| out_find_fails := false; out_since_now := 100 * Second;
                out_checkout_now := 100 * Second; out_event_id := "e2";
                out_event_now := 100 * Second; out_tx := tx "o2" (100 * Second) |} in
  let tick := {| fetch_limit := 100; fetch_fails := false;
                 publish_fails := fun _ => false; publish_error := fun _ => "";
                 update_fails := fun _ => false;
                 update_now := fun _ => 101 * Second |} in
  let sys := poll tick (mkSystem (snd (CheckOut json 60 env "E1" d)) []) in
  exchange sys = [{| pub_Type := EventTypeEmployeeCheckedOut; pub_Body := [x02] |}] /\
  exists row, outbox_events (db sys) !! "o2" = Some row /\ published row = true.
Proof.
  intros json tx d env tick sys.
  destruct (CheckOut json 60 env "E1" d) as [res d1] eqn:Hout.
  destruct res as [record|err]; [|exfalso; revert Hout; vm_compute; discriminate].
  destruct (checkout_is_published json 60 env "E1" d d1 record tick [] Hout)
    as (event & pl & row & _ & _ & _ & _ & _ & Hrow & Hpub & _).
  - split; [reflexivity|]. intros i. split; reflexivity.
  - assert (Hd1 : d1 = snd (CheckOut json 60 env "E1" d)) by (rewrite Hout; reflexivity).
    rewrite Hd1. vm_compute. discriminate.
  - split.
    + assert (Hd1 : d1 = snd (CheckOut json 60 env "E1" d)) by (rewrite Hout; reflexivity).
      unfold sys. cbn [snd]. rewrite Hd1. vm_compute. reflexivity.
    + exists row. split; [exact Hrow|exact Hpub].
Defined.

End OutboxGuaranteeProofs.
